(** * Tokoplay bot: a shallow embedding of [main.py] and its session properties

    The development follows the source file top-down: Python values and the
    handful of dynamic operations the bot applies to them, the client object
    together with the world it talks to (token file, [data.txt], the remote
    server, a clock advanced by [time.sleep]), a small monad for state,
    exceptions and unbounded recursion, then the methods of [TokoplayAPI] and
    the body of [main]'s loop.  The vocabulary of the properties and the
    scenarios they are tried on follow, and the proofs come last.

    Outside the model: the rendering of the console and of the status table
    (taken not to fail), configuration, the extraction of the user id from
    [data.txt], floating-point numbers, KeyboardInterrupt, and time other
    than the seconds spent in [time.sleep]. *)

From Stdlib Require Import ZArith List String Ascii Bool Lia.
Import ListNotations.

Open Scope string_scope.
Open Scope list_scope.
Open Scope Z_scope.

(** ** Python values

    The values that reach the bot come out of [json.load] / [response.json()],
    so the JSON fragment of Python is enough.  Numbers are integers; floating
    point numbers are outside the model. *)

#[warnings="-register-all"]
Inductive pyval : Type :=
| PNone
| PBool (b : bool)
| PInt (z : Z)
| PStr (s : string)
| PList (l : list pyval)
| PDict (d : list (string * pyval)).

Definition dict := list (string * pyval).

(** [d.get(k)] on the association-list representation of a dict. *)
Fixpoint dict_get (k : string) (d : dict) : option pyval :=
  match d with
  | [] => None
  | (k', v) :: d' => if String.eqb k k' then Some v else dict_get k d'
  end.

(** Python truthiness, as used by [if not self.token] and [if response and ...]. *)
Definition truthy (v : pyval) : bool :=
  match v with
  | PNone => false
  | PBool b => b
  | PInt z => negb (z =? 0)
  | PStr s => negb (String.eqb s "")
  | PList l => match l with [] => false | _ => true end
  | PDict d => match d with [] => false | _ => true end
  end.

(** [v == 'OK'] *)
Definition is_OK (v : pyval) : bool :=
  match v with
  | PStr s => String.eqb s "OK"
  | _ => false
  end.

(** [v <= 0] and [v > 0]; [None] stands for the [TypeError] Python raises when
    [v] is not a number ([bool] is a subtype of [int]). *)
Definition py_le0 (v : pyval) : option bool :=
  match v with
  | PInt z => Some (z <=? 0)
  | PBool b => Some ((if b then 1 else 0) <=? 0)
  | _ => None
  end.

Definition py_gt0 (v : pyval) : option bool :=
  match v with
  | PInt z => Some (0 <? z)
  | PBool b => Some (0 <? (if b then 1 else 0))
  | _ => None
  end.

(** [str.lower()] and [str.strip()] on ASCII text. *)
Definition lower_ascii (c : ascii) : ascii :=
  let n := nat_of_ascii c in
  if (Nat.leb 65 n && Nat.leb n 90)%bool then ascii_of_nat (n + 32) else c.

Fixpoint lower (s : string) : string :=
  match s with
  | EmptyString => EmptyString
  | String c s' => String (lower_ascii c) (lower s')
  end.

Definition is_space (c : ascii) : bool :=
  let n := nat_of_ascii c in
  ((Nat.leb 9 n && Nat.leb n 13) || (Nat.leb 28 n && Nat.leb n 32))%bool.

Fixpoint lstrip (l : list ascii) : list ascii :=
  match l with
  | c :: l' => if is_space c then lstrip l' else l
  | [] => []
  end.

Definition strip (s : string) : string :=
  string_of_list_ascii
    (rev (lstrip (rev (lstrip (list_ascii_of_string s))))).

(** ** Exceptions *)

Inductive exn : Type :=
| FileNotFoundError
| PermissionError
| JSONDecodeError
| UnicodeDecodeError
| AttributeError
| KeyError
| TypeError
| ValueError
| HTTPError (status_code : Z)
| RequestException.

(** ** The world and the client object *)

(** What [open(token_file); json.load(file)] meets on disk. *)
Inductive File : Type :=
| Missing                  (* no such file: FileNotFoundError *)
| NotJson                  (* text json.load rejects (the empty file too) *)
| Undecodable              (* bytes that are not text in the locale encoding *)
| JsonText (v : pyval).    (* a JSON document, as json.load returns it *)

Record Request : Type := mkRequest {
  req_method : string;                 (* "get" or "post" *)
  req_endpoint : string;               (* the part of the url after base_url *)
  req_authorization : option pyval;    (* headers.get('authorization') *)
  req_payload : option dict            (* params= of a get, json= of a post *)
}.

(** The three ways [requests.get/post], [raise_for_status] and [json] end. *)
Inductive Outcome : Type :=
| Json (body : pyval)                  (* no HTTP error status, body parsed *)
| HttpError (status_code : Z)          (* raise_for_status raised HTTPError *)
| TransportError.                      (* any other exception *)

Record Stats : Type := mkStats {
  Energy : pyval;
  Total_Games : Z;
  Last_Score : option Z;               (* None is "N/A" *)
  Multiplier : option string;          (* None is "N/A" *)
  Total_Points : Z;
  Last_Update : option Z               (* None is "Never" *)
}.

Inductive msg : Type :=
| MaxRetries                           (* Maximum retry attempts reached *)
| HttpErrorMsg (status_code : Z)
| RequestErrorMsg (e : exn)
| SaveTokenFailed (e : exn)
| TokenUpdated
| TokenUpdateFailed (e : exn)
| EnergyUpdateFailed (e : exn)
| StartingGame (score : Z) (multiplier : string)
| GameCompleted (points : Z)
| EnergyDepleted
| EnergyRecharged
| GamePlayFailed
| GameError (e : exn)
| CriticalError (e : exn).

Inductive event : Type :=
| Http (at_clock : Z) (sent : Request) (got : Outcome)
| Opened (path : string)
| Print (m : msg)
| Display (st : Stats)
| Sleep (seconds : Z).

Record Client : Type := mkClient {
  token : pyval;                       (* self.token *)
  authorization : option pyval;        (* self.headers['authorization'] *)
  user_id : pyval;                     (* self.user_id *)
  stats : Stats;                       (* self.stats *)
  token_file : File;
  token_file_writable : bool;
  data_txt : option string;            (* None: data.txt cannot be opened *)
  server : nat -> Request -> Outcome;  (* answer to the k-th request sent *)
  sent : nat;
  clock : Z;                           (* seconds slept so far *)
  log : list event                     (* newest first *)
}.

Definition init_stats : Stats :=
  mkStats (PInt 0) 0 None None 0 None.

(** ** A monad for state, exceptions and runaway recursion *)

Inductive result (A : Type) : Type :=
| Ret (a : A)
| Raise (e : exn)
| Diverge.

Arguments Ret {A} a.
Arguments Raise {A} e.
Arguments Diverge {A}.

Definition M (A : Type) : Type := Client -> result A * Client.

Definition ret {A} (a : A) : M A := fun s => (Ret a, s).

Definition raise {A} (e : exn) : M A := fun s => (Raise e, s).

Definition diverge {A} : M A := fun s => (Diverge, s).

Definition bind {A B} (c : M A) (k : A -> M B) : M B :=
  fun s =>
    match c s with
    | (Ret a, s') => k a s'
    | (Raise e, s') => (Raise e, s')
    | (Diverge, s') => (Diverge, s')
    end.

(** [try: c  except ...: h e]; the handler decides which exceptions it takes
    and re-raises the others. *)
Definition try_except {A} (c : M A) (h : exn -> M A) : M A :=
  fun s =>
    match c s with
    | (Raise e, s') => h e s'
    | r => r
    end.

Declare Scope py_scope.
Delimit Scope py_scope with py.
Notation "x <- c ;; k" := (bind c (fun x => k))
  (at level 61, c at next level, right associativity) : py_scope.
Notation "c ;; k" := (bind c (fun _ => k))
  (at level 61, right associativity) : py_scope.
Open Scope py_scope.

Definition gets {A} (f : Client -> A) : M A := fun s => (Ret (f s), s).

Definition modify (f : Client -> Client) : M unit := fun s => (Ret tt, f s).

(** Field updates of the client record. *)
Definition with_token (t : pyval) (s : Client) : Client :=
  mkClient t (authorization s) (user_id s) (stats s) (token_file s)
    (token_file_writable s) (data_txt s) (server s) (sent s) (clock s) (log s).

Definition with_authorization (a : option pyval) (s : Client) : Client :=
  mkClient (token s) a (user_id s) (stats s) (token_file s)
    (token_file_writable s) (data_txt s) (server s) (sent s) (clock s) (log s).

Definition with_stats (st : Stats) (s : Client) : Client :=
  mkClient (token s) (authorization s) (user_id s) st (token_file s)
    (token_file_writable s) (data_txt s) (server s) (sent s) (clock s) (log s).

Definition with_token_file (f : File) (s : Client) : Client :=
  mkClient (token s) (authorization s) (user_id s) (stats s) f
    (token_file_writable s) (data_txt s) (server s) (sent s) (clock s) (log s).

Definition with_sent (n : nat) (s : Client) : Client :=
  mkClient (token s) (authorization s) (user_id s) (stats s) (token_file s)
    (token_file_writable s) (data_txt s) (server s) n (clock s) (log s).

Definition with_clock (t : Z) (s : Client) : Client :=
  mkClient (token s) (authorization s) (user_id s) (stats s) (token_file s)
    (token_file_writable s) (data_txt s) (server s) (sent s) t (log s).

Definition with_log (l : list event) (s : Client) : Client :=
  mkClient (token s) (authorization s) (user_id s) (stats s) (token_file s)
    (token_file_writable s) (data_txt s) (server s) (sent s) (clock s) l.

Definition emit (e : event) : M unit :=
  modify (fun s => with_log (e :: log s) s).

(** [self.display.console.print(...)] and [console.print(...)] *)
Definition print (m : msg) : M unit := emit (Print m).

(** [self.display.update_display(self.stats)] *)
Definition update_display : M unit :=
  st <- gets stats ;; emit (Display st).

(** [time.sleep(n)] *)
Definition sleep (n : Z) : M unit :=
  modify (fun s => with_clock (clock s + n) s) ;; emit (Sleep n).

(** ** Dynamic operations that may raise *)

(** [v.get(k, default)]: only a dict has the method. *)
Definition py_get (v : pyval) (k : string) (default : pyval) : M pyval :=
  match v with
  | PDict d => ret (match dict_get k d with Some x => x | None => default end)
  | _ => raise AttributeError
  end.

(** [v[k]] with a string key. *)
Definition py_getitem (v : pyval) (k : string) : M pyval :=
  match v with
  | PDict d => match dict_get k d with Some x => ret x | None => raise KeyError end
  | _ => raise TypeError
  end.

(** [response and response.get('status') == 'OK'], as a condition. *)
Definition status_is_OK (response : pyval) : M bool :=
  if truthy response then
    st <- py_get response "status" PNone ;; ret (is_OK st)
  else ret false.

(** ** Credential store *)

Definition token_path : string := "tokens.json".

(** [with open(self.token_file, 'r') as file: data = json.load(file)] *)
Definition json_load_token_file : M pyval :=
  emit (Opened token_path) ;;
  f <- gets token_file ;;
  match f with
  | Missing => raise FileNotFoundError
  | NotJson => raise JSONDecodeError
  | Undecodable => raise UnicodeDecodeError
  | JsonText v => ret v
  end.

Definition _load_token : M pyval :=
  try_except
    (data <- json_load_token_file ;;
     py_get data "token" PNone)
    (fun e =>
       match e with
       | FileNotFoundError | JSONDecodeError => ret PNone
       | _ => raise e
       end).

(** [with open(self.token_file, 'w') as file: json.dump(obj, file)].  A file
    that cannot be opened for writing is left as it is; once opened, the dump
    is taken to complete. *)
Definition json_dump_token_file (obj : pyval) : M unit :=
  emit (Opened token_path) ;;
  w <- gets token_file_writable ;;
  if w then modify (with_token_file (JsonText obj))
  else raise PermissionError.

Definition _save_token (tok : pyval) : M bool :=
  try_except
    (json_dump_token_file (PDict [("token", tok)]) ;;
     ret true)
    (fun e => print (SaveTokenFailed e) ;; ret false).

(** [self.headers = self._initialize_headers()]: only the authorization
    header depends on the state. *)
Definition _initialize_headers : M unit :=
  tok <- gets token ;;
  if truthy tok then modify (with_authorization (Some tok))
  else modify (with_authorization None).

(** ** API gateway *)

Definition getToken : string := "user/getToken".
Definition getUserGameInfo : string := "game/getUserGameInfo".
Definition playGameGetReward : string := "game/playGameGetReward".

(** One HTTP exchange: the request goes out with the current headers, the
    server's answer is recorded, and [raise_for_status()] / [json()] turn it
    into a value or an exception. *)
Definition exchange (method endpoint : string) (payload : option dict)
  : M pyval :=
  auth <- gets authorization ;;
  k <- gets sent ;;
  srv <- gets server ;;
  now <- gets clock ;;
  let req := mkRequest method endpoint auth payload in
  let out := srv k req in
  modify (with_sent (S k)) ;;
  emit (Http now req out) ;;
  match out with
  | Json body => ret body
  | HttpError code => raise (HTTPError code)
  | TransportError => raise RequestException
  end.

(** The body of the [try] in [_request]. *)
Definition send (method endpoint : string) (params data : option dict)
  : M pyval :=
  if String.eqb (lower method) "get" then exchange "get" endpoint params
  else if String.eqb (lower method) "post" then exchange "post" endpoint data
  else raise ValueError.

(** What [update_token] does with the answer to the token exchange, from
    [if response and response.get('status') == 'OK'] to the end of the
    [try] block. *)
Definition install_token (response : pyval) : M bool :=
  ok <- status_is_OK response ;;
  if ok then
    d <- py_getitem response "data" ;;
    t <- py_getitem d "token" ;;
    modify (with_token t) ;;
    modify (with_authorization (Some t)) ;;
    saved <- _save_token t ;;
    if saved then
      print TokenUpdated ;;
      ret true
    else ret false
  else ret false.

(** [_request] and [update_token] call each other; [fuel] bounds the depth of
    the call stack, and running out of it is [Diverge]: the recursion of the
    source went deeper than any bound that was tried.  (CPython itself gives
    up with a RecursionError at its recursion limit.) *)
Fixpoint _request (fuel : nat) (method endpoint : string)
    (params data : option dict) (retry_count : Z) {struct fuel} : M pyval :=
  match fuel with
  | O => diverge
  | S fuel' =>
      if 3 <=? retry_count then
        print MaxRetries ;;
        ret PNone
      else
        tok <- gets token ;;
        (if negb (truthy tok) then _ <- update_token fuel' ;; ret tt
         else ret tt) ;;
        try_except
          (send method endpoint params data)
          (fun e =>
             match e with
             | HTTPError status_code =>
                 if status_code =? 401 then
                   update_token fuel' ;;
                   _request fuel' method endpoint params data
                     (retry_count + 1)
                 else
                   print (HttpErrorMsg status_code) ;;
                   ret PNone
             | _ =>
                 print (RequestErrorMsg e) ;;
                 ret PNone
             end)
  end

with update_token (fuel : nat) {struct fuel} : M bool :=
  match fuel with
  | O => diverge
  | S fuel' =>
      try_except
        (emit (Opened "data.txt") ;;
         content <- gets data_txt ;;
         init_data_raw <- match content with
                          | Some text => ret (strip text)
                          | None => raise FileNotFoundError
                          end ;;
         response <- _request fuel' "get" getToken
                       (Some [("initDataRaw", PStr init_data_raw);
                              ("platform", PStr "TOKO")])
                       None 0 ;;
         install_token response)
        (fun e =>
           print (TokenUpdateFailed e) ;;
           ret false)
  end.

Definition set_energy (e : pyval) (now : Z) (st : Stats) : Stats :=
  mkStats e (Total_Games st) (Last_Score st) (Multiplier st)
    (Total_Points st) (Some now).

Definition update_energy (fuel : nat) : M bool :=
  try_except
    (uid <- gets user_id ;;
     response <- _request fuel "get" getUserGameInfo
                   (Some [("userId", uid); ("gameId", PInt 1);
                          ("platform", PStr "TOKO")])
                   None 0 ;;
     ok <- status_is_OK response ;;
     if ok then
       d <- py_getitem response "data" ;;
       e <- py_get d "userCurrentEnergy" (PInt 0) ;;
       now <- gets clock ;;
       modify (fun s => with_stats (set_energy e now (stats s)) s) ;;
       ret true
     else ret false)
    (fun e =>
       print (EnergyUpdateFailed e) ;;
       ret false).

(** ** Playing one game *)

(** [for x in xs: body x] *)
Fixpoint for_each {A} (xs : list A) (body : A -> M unit) : M unit :=
  match xs with
  | [] => ret tt
  | x :: xs' => body x ;; for_each xs' body
  end.

(** [range(n)] *)
Definition range (n : nat) : list Z := map Z.of_nat (seq 0 n).

(** The simulated playtime: sixty one-second ticks, with a refresh of the
    displayed energy on every fifth one. *)
Definition playtime (fuel : nat) : M unit :=
  for_each (range 60) (fun i =>
    sleep 1 ;;
    if i mod 5 =? 0 then
      update_energy fuel ;;
      update_display
    else ret tt).

Definition submit_payload (uid : pyval) (game_id score : Z)
    (multiplier : string) : dict :=
  [("categories", PStr "Matches"); ("userId", uid); ("platform", PStr "TOKO");
   ("gameId", PInt game_id); ("score", PInt score);
   ("multiplier", PStr multiplier)].

Definition played (score : Z) (multiplier : string) (st : Stats) : Stats :=
  mkStats (Energy st) (Total_Games st + 1) (Some score) (Some multiplier)
    (Total_Points st) (Last_Update st).

Definition with_energy (e : pyval) (st : Stats) : Stats :=
  mkStats e (Total_Games st) (Last_Score st) (Multiplier st)
    (Total_Points st) (Last_Update st).

Definition with_points (p : Z) (st : Stats) : Stats :=
  mkStats (Energy st) (Total_Games st) (Last_Score st) (Multiplier st)
    p (Last_Update st).

(** ['data' in response], for a response that is a dict. *)
Definition has_data (response : pyval) : bool :=
  match response with
  | PDict d => match dict_get "data" d with Some _ => true | None => false end
  | _ => false
  end.

(** The book-keeping of [play_game] on the answer to its submission, from
    [if response and response.get('status') == 'OK'] to the end. *)
Definition book_result (response : pyval) (score : Z) (multiplier : string)
  : M bool :=
  ok <- status_is_OK response ;;
  if ok then
    modify (fun s => with_stats (played score multiplier (stats s)) s) ;;
    (if has_data response then
       d <- py_getitem response "data" ;;
       cur <- gets (fun s => Energy (stats s)) ;;
       e <- py_get d "userCurrentEnergy" cur ;;
       modify (fun s => with_stats (with_energy e (stats s)) s) ;;
       let points := score in
       modify (fun s =>
         with_stats (with_points (Total_Points (stats s) + points) (stats s)) s) ;;
       print (GameCompleted points)
     else ret tt) ;;
    ret true
  else ret false.

(** The part of [play_game] after the progress bar: the submission and the
    book-keeping on its answer. *)
Definition submit (fuel : nat) (game_id score : Z) (multiplier : string)
  : M bool :=
  uid <- gets user_id ;;
  response <- _request fuel "post" playGameGetReward None
                (Some (submit_payload uid game_id score multiplier)) 0 ;;
  book_result response score multiplier.

Definition play_game (fuel : nat) (game_id score : Z) (multiplier : string)
  : M bool :=
  print (StartingGame score multiplier) ;;
  playtime fuel ;;
  submit fuel game_id score multiplier.

(** ** The loop of [main] *)

(** [api_client.stats["Energy"] <= 0] and [... > 0] *)
Definition energy_le0 : M bool :=
  e <- gets (fun s => Energy (stats s)) ;;
  match py_le0 e with
  | Some b => ret b
  | None => raise TypeError
  end.

Definition energy_gt0 : M bool :=
  e <- gets (fun s => Energy (stats s)) ;;
  match py_gt0 e with
  | Some b => ret b
  | None => raise TypeError
  end.

(** The wait for a recharge.  [ticks_left] is what the progress bar still has
    to advance before [progress.finished] holds, [completed] is
    [progress.tasks[0].completed]; the function returns when the [while] loop
    is left, by [break] or because the bar is full. *)
Fixpoint wait_for_energy (fuel : nat) (ticks_left : nat) (completed : Z)
  : M unit :=
  match ticks_left with
  | O => ret tt
  | S remaining =>
      sleep 1 ;;
      let completed := completed + 1 in
      if completed mod 300 =? 0 then
        updated <- update_energy fuel ;;
        recharged <- (if updated then energy_gt0 else ret false) ;;
        if recharged then print EnergyRecharged
        else wait_for_energy fuel remaining completed
      else wait_for_energy fuel remaining completed
  end.

Definition max_wait : Z := 10800.

(** The pause after a game that was accepted: [wait_time] ticks of a second.
    ([wait_time] is drawn from 5..10.) *)
Definition cooldown (wait_time : nat) : M unit :=
  for_each (range wait_time) (fun _ => sleep 1).

(** The [try] block of one pass through [while True]; [score] and [wait_time]
    are what [random.randint] hands out during this pass. *)
Definition loop_body (fuel : nat) (score : Z) (wait_time : nat) : M unit :=
  update_energy fuel ;;
  update_display ;;
  depleted <- energy_le0 ;;
  skip <- (if depleted then
             print EnergyDepleted ;;
             wait_for_energy fuel (Z.to_nat max_wait) 0 ;;
             energy_le0
           else ret false) ;;
  if skip then ret tt
  else
    let multiplier := "1" in
    won <- play_game fuel 1 score multiplier ;;
    if won then cooldown wait_time
    else
      print GamePlayFailed ;;
      sleep 30.

Definition iteration (fuel : nat) (score : Z) (wait_time : nat) : M unit :=
  try_except
    (loop_body fuel score wait_time)
    (fun e =>
       print (GameError e) ;;
       sleep 30).

(** Finitely many passes through the loop, one per pair of random draws. *)
Definition main_loop (fuel : nat) (draws : list (Z * nat)) : M unit :=
  for_each draws (fun d => iteration fuel (fst d) (snd d)).

(** [TokoplayAPI.__init__], for a client whose [user_id] was already
    extracted from [data.txt]. *)
Definition TokoplayAPI_init (fuel : nat) : M unit :=
  tok <- _load_token ;;
  modify (with_token tok) ;;
  _initialize_headers ;;
  modify (with_stats init_stats) ;;
  update_energy fuel ;;
  ret tt.

(** [main], cut after finitely many passes through its loop. *)
Definition main (fuel : nat) (draws : list (Z * nat)) : M unit :=
  try_except
    (TokoplayAPI_init fuel ;;
     main_loop fuel draws)
    (fun e => print (CriticalError e)).

(** The state a process starts in: nothing sent, nothing logged, and the
    session counters as [__init__] sets them. *)
Definition process_start (uid : pyval) (file : File) (writable : bool)
    (data : option string) (srv : nat -> Request -> Outcome) : Client :=
  mkClient PNone None uid init_stats file writable data srv 0 0 [].

(** * Vocabulary of the properties

    States are compared before and after a run.  The log is kept newest
    first, so a run turns [log s] into [new ++ log s]; most relations below
    say what [new] may hold and which fields stay as they are. *)

(** ** What the gateway may touch

    A call into the gateway does not sleep, leaves the session statistics
    alone and only talks to the endpoint it was asked for and to the token
    endpoint. *)

Definition gw_event (t : Z) (endpoint : string) (ev : event) : Prop :=
  match ev with
  | Http t' req _ =>
      t' = t /\ (req_endpoint req = endpoint \/ req_endpoint req = getToken)
  | Opened _ | Print _ => True
  | Display _ | Sleep _ => False
  end.

Record gw_frame (endpoint : string) (s s' : Client) : Prop := mk_gw_frame {
  gf_clock : clock s' = clock s;
  gf_stats : stats s' = stats s;
  gf_user_id : user_id s' = user_id s;
  gf_data_txt : data_txt s' = data_txt s;
  gf_server : server s' = server s;
  gf_writable : token_file_writable s' = token_file_writable s;
  gf_sent : (sent s <= sent s')%nat;
  gf_log : exists new,
      log s' = new ++ log s /\ Forall (gw_event (clock s) endpoint) new
}.

(** ** Everything but the book-keeping of a game

    [quiet s s'] relates two states between which no game was submitted: the
    four counters of the session are the same, no request went to the play
    endpoint, and the clock only moved forward. *)

Definition same_counters (a b : Stats) : Prop :=
  Total_Games b = Total_Games a /\ Last_Score b = Last_Score a /\
  Multiplier b = Multiplier a /\ Total_Points b = Total_Points a.

Definition no_submit (ev : event) : Prop :=
  match ev with
  | Http _ req _ => req_endpoint req <> playGameGetReward
  | _ => True
  end.

Record quiet (s s' : Client) : Prop := mk_quiet {
  q_counters : same_counters (stats s) (stats s');
  q_user_id : user_id s' = user_id s;
  q_data_txt : data_txt s' = data_txt s;
  q_server : server s' = server s;
  q_writable : token_file_writable s' = token_file_writable s;
  q_clock : clock s <= clock s';
  q_log : exists new, log s' = new ++ log s /\ Forall no_submit new
}.

(** ** The chain of attempts behind one logical call *)

Definition to_endpoint (e : string) (ev : event) : bool :=
  match ev with
  | Http _ req _ => String.eqb (req_endpoint req) e
  | _ => false
  end.

(** The requests of a log that went to endpoint [e], newest first. *)
Definition calls (e : string) (l : list event) : list event :=
  filter (to_endpoint e) l.

(** A request that was refused with HTTP status 401. *)
Definition answered_401 (ev : event) : Prop :=
  exists t req, ev = Http t req (HttpError 401).

(** What goes out with the request: [params] on a get, [data] otherwise. *)
Definition payload_of (method : string) (params data : option dict)
  : option dict :=
  if String.eqb (lower method) "get" then params else data.

(** How a chain ends: without a further request (the retries are used up, or
    the recursion ran away), or with one request whose answer is not a 401
    and decides the result. *)
Definition chain_end (e : string) (payload : option dict)
    (r : result pyval) (last : list event) : Prop :=
  (last = [] /\ (r = Diverge \/ r = Ret PNone)) \/
  (exists t req out,
      last = [Http t req out] /\ out <> HttpError 401 /\
      req_endpoint req = e /\ req_payload req = payload /\
      r = Ret (match out with Json v => v | _ => PNone end)).

(** ** Answers and the games of a log *)

Definition is_dict (v : pyval) : bool :=
  match v with
  | PDict _ => true
  | _ => false
  end.

(** [response and response.get('status') == 'OK'] holds of [v]. *)
Definition ok_body (v : pyval) : bool :=
  match v with
  | PDict d =>
      truthy v &&
      is_OK (match dict_get "status" d with Some x => x | None => PNone end)
  | _ => false
  end.

(** [response['data']], when [response] is a dict that has the key. *)
Definition data_of (v : pyval) : option pyval :=
  match v with
  | PDict d => dict_get "data" d
  | _ => None
  end.

Definition data_is_dict (v : pyval) : bool :=
  match data_of v with
  | Some (PDict _) => true
  | _ => false
  end.

(** Everything of the client and its world outside [stats] and [log]. *)
Definition same_world (s s' : Client) : Prop :=
  token s' = token s /\ authorization s' = authorization s /\
  user_id s' = user_id s /\ token_file s' = token_file s /\
  token_file_writable s' = token_file_writable s /\
  data_txt s' = data_txt s /\ server s' = server s /\
  sent s' = sent s /\ clock s' = clock s.

(** A submission the server accepted: its answer passes the test of
    [play_game]. *)
Definition accepted (ev : event) : bool :=
  match ev with
  | Http _ req (Json v) =>
      String.eqb (req_endpoint req) playGameGetReward && ok_body v
  | _ => false
  end.

(** An accepted submission whose answer carries a ["data"] object. *)
Definition credited (ev : event) : bool :=
  match ev with
  | Http _ req (Json v) =>
      String.eqb (req_endpoint req) playGameGetReward && ok_body v
      && data_is_dict v
  | _ => false
  end.

(** The score a request submitted. *)
Definition score_of (ev : event) : Z :=
  match ev with
  | Http _ req _ =>
      match req_payload req with
      | Some d => match dict_get "score" d with Some (PInt z) => z | _ => 0 end
      | None => 0
      end
  | _ => 0
  end.

Definition sumZ (l : list Z) : Z := fold_right Z.add 0 l.

(** The number of accepted submissions of a log, the sum of the scores of
    the credited ones, and the sum of the scores of all accepted ones. *)
Definition games_in (l : list event) : Z :=
  Z.of_nat (List.length (filter accepted l)).

Definition points_in (l : list event) : Z :=
  sumZ (map score_of (filter credited l)).

Definition all_scores_in (l : list event) : Z :=
  sumZ (map score_of (filter accepted l)).

(** [booked s s']: between [s] and [s'] Total Games grew by the accepted
    submissions logged in between, and Total Points by the credited scores. *)
Record booked (s s' : Client) : Prop := mk_booked {
  b_user_id : user_id s' = user_id s;
  b_data_txt : data_txt s' = data_txt s;
  b_server : server s' = server s;
  b_writable : token_file_writable s' = token_file_writable s;
  b_clock : clock s <= clock s';
  b_log : exists new,
      log s' = new ++ log s /\
      Total_Games (stats s') = Total_Games (stats s) + games_in new /\
      Total_Points (stats s') = Total_Points (stats s) + points_in new
}.

(** The fixed pause after a failure: a message and thirty seconds. *)
Definition backoff (m : msg) (s : Client) : Client :=
  with_log (Sleep 30 :: Print m :: log s) (with_clock (clock s + 30) s).

(** The requests of one episode to the play endpoint, newest first: at most
    three, every one but the newest answered 401, and none after an answer
    that is not a 401. *)
Definition single_submission (new : list event) : Prop :=
  exists last olds,
    calls playGameGetReward new = last ++ olds /\
    Forall answered_401 olds /\
    (List.length (last ++ olds) <= 3)%nat /\
    (last = [] \/
     exists t req out, last = [Http t req out] /\ out <> HttpError 401).

(** ** Single steps of the gateway *)

(** The state after one exchange. *)
Definition after_exchange (method endpoint : string) (payload : option dict)
    (s : Client) : Client :=
  let req := mkRequest method endpoint (authorization s) payload in
  with_log (Http (clock s) req (server s (sent s) req) :: log s)
    (with_sent (S (sent s)) s).

(** What the server would answer to a request sent from state [s]. *)
Definition answer (method endpoint : string) (payload : option dict)
    (s : Client) : Outcome :=
  server s (sent s) (mkRequest method endpoint (authorization s) payload).

(** The parts of the client that a successful operation would update. *)
Definition untouched (s s' : Client) : Prop :=
  token s' = token s /\ authorization s' = authorization s /\
  token_file s' = token_file s /\ stats s' = stats s.

(** The parameters of the token exchange and of the energy refresh. *)
Definition token_params (text : string) : option dict :=
  Some [("initDataRaw", PStr (strip text)); ("platform", PStr "TOKO")].

Definition energy_params (uid : pyval) : option dict :=
  Some [("userId", uid); ("gameId", PInt 1); ("platform", PStr "TOKO")].

(** ** Refreshes of the token *)

Definition is_refresh (ev : event) : bool :=
  match ev with
  | Opened p => String.eqb p "data.txt"
  | _ => false
  end.

(** How often [update_token] was entered: it opens [data.txt] first. *)
Definition refreshes (l : list event) : nat :=
  List.length (filter is_refresh l).

(** The methods [_request] knows. *)
Definition supported (method : string) : Prop :=
  lower method = "get" \/ lower method = "post".

(** No credential is held, or the server rejects whatever it is sent. *)
Definition hopeless (s : Client) : Prop :=
  (exists text, data_txt s = Some text) /\
  (truthy (token s) = false \/
   forall k req, server s k req = HttpError 401).

(** What [_request] returns on an answer that ends the chain, and the state
    it leaves: an error answer is reported on the console. *)
Definition body_of (out : Outcome) : pyval :=
  match out with
  | Json v => v
  | _ => PNone
  end.

Definition settled (out : Outcome) (s : Client) : Client :=
  match out with
  | Json _ => s
  | HttpError code => with_log (Print (HttpErrorMsg code) :: log s) s
  | TransportError =>
      with_log (Print (RequestErrorMsg RequestException) :: log s) s
  end.

(** The token an answer hands out, if [update_token] takes one from it. *)
Definition issued_token (v : pyval) : option pyval :=
  if ok_body v then
    match data_of v with
    | Some (PDict d) => dict_get "token" d
    | _ => None
    end
  else None.

(** A credential is held, and the server hands out no token that Python
    takes for false. *)
Definition credentials_hold (s : Client) : Prop :=
  truthy (token s) = true /\
  forall k req v t,
    server s k req = Json v -> issued_token v = Some t -> truthy t = true.

(** The token exchange that a refresh begun now would make is not answered
    with a 401. *)
Definition exchange_accepted (s : Client) : Prop :=
  forall text,
    data_txt s = Some text ->
    answer "get" getToken (token_params text) s <> HttpError 401.

(** ** Waiting and polling *)

Definition is_print (ev : event) : Prop :=
  match ev with
  | Print _ => True
  | _ => False
  end.

(** What a refresh of the energy leaves in the log: requests stamped with
    the time of the refresh, and console output. *)
Record poll_frame (s s' : Client) : Prop := mk_poll_frame {
  pf_clock : clock s' = clock s;
  pf_log : exists new,
      log s' = new ++ log s /\
      Forall (gw_event (clock s) getUserGameInfo) new
}.

(** A request made during the wait that began at [t0] carries the time of a
    poll: a positive multiple of 300 seconds after [t0]. *)
Definition poll_time (t0 : Z) (ev : event) : Prop :=
  match ev with
  | Http t _ _ => t0 < t /\ (t - t0) mod 300 = 0
  | _ => True
  end.

(** With a credential held and a server that does not refuse the token
    exchange, nothing in the loop recurses without end: [safe c] says that
    [c], started in such a state, comes back and ends in such a state. *)
Definition cooperative (s : Client) : Prop :=
  credentials_hold s /\
  forall k req, req_endpoint req = getToken -> server s k req <> HttpError 401.

Definition safe {A} (c : M A) : Prop :=
  forall s r s', cooperative s -> c s = (r, s') ->
                 r <> Diverge /\ cooperative s'.

(** The state after [time.sleep(n)]. *)
Definition after_sleep (n : Z) (s : Client) : Client :=
  with_log (Sleep n :: log s) (with_clock (clock s + n) s).

(** ** Further vocabulary *)

(** A run that did not end in an exception. *)
Definition no_raise {A} (r : result A) : Prop :=
  match r with
  | Raise _ => False
  | _ => True
  end.

(** The authorization header is the held token, or absent when the token is
    one that Python takes for false. *)
Definition in_sync (s : Client) : Prop :=
  match authorization s with
  | Some a => a = token s
  | None => truthy (token s) = false
  end.

Definition is_display (ev : event) : bool :=
  match ev with
  | Display _ => true
  | _ => false
  end.

(** How often the status table was redrawn. *)
Definition displays (l : list event) : nat :=
  List.length (filter is_display l).

(** The state [update_token] leaves when it takes token [t] from an answer:
    the token and the header are replaced first, then the token file is
    written if it can be. *)
Definition installed (t : pyval) (s : Client) : Client :=
  let s1 := with_authorization (Some t) (with_token t s) in
  if token_file_writable s then
    with_log (Print TokenUpdated :: Opened token_path :: log s)
      (with_token_file (JsonText (PDict [("token", t)])) s1)
  else
    with_log (Print (SaveTokenFailed PermissionError)
              :: Opened token_path :: log s) s1.

(** The energy an accepted answer to the energy refresh reports:
    [response["data"].get("userCurrentEnergy", 0)], when there is a
    ["data"] object to ask. *)
Definition reported_energy (v : pyval) : option pyval :=
  match data_of v with
  | Some (PDict d) =>
      Some (match dict_get "userCurrentEnergy" d with
            | Some e => e
            | None => PInt 0
            end)
  | _ => None
  end.

(** A request to the play endpoint, if [ev] is one, was sent at time [t]. *)
Definition on_time (t : Z) (ev : event) : Prop :=
  match ev with
  | Http t' req _ => req_endpoint req = playGameGetReward -> t' = t
  | _ => True
  end.

(** The token file, where it can be written, holds the token held. *)
Definition file_in_sync (s : Client) : Prop :=
  token_file_writable s = true ->
  token_file s = JsonText (PDict [("token", token s)]).

(** The credential and where it is kept are the same in both states. *)
Definition same_credentials (s s' : Client) : Prop :=
  token s' = token s /\ authorization s' = authorization s /\
  token_file s' = token_file s /\
  token_file_writable s' = token_file_writable s.

(** A run from [s] to [s'] keeps the property [P] of the client. *)
Definition keeps (P : Client -> Prop) (s s' : Client) : Prop := P s -> P s'.

(** The statistics after a game that was accepted and credited: the game
    is counted, score and multiplier are noted, the energy is the one the
    answer reports (the old one when it reports none), and the score is
    added to the points. *)
Definition credited_stats (d : dict) (score : Z) (multiplier : string)
    (st : Stats) : Stats :=
  mkStats
    (match dict_get "userCurrentEnergy" d with
     | Some e => e
     | None => Energy st
     end)
    (Total_Games st + 1) (Some score) (Some multiplier)
    (Total_Points st + score) (Last_Update st).

(** * Scenarios

    Concrete servers and clients on which the properties are tried. *)

(** The bodies the remote API is documented to send, and a token file. *)
Definition energy_body (e : Z) : pyval :=
  PDict [("status", PStr "OK");
         ("data", PDict [("userCurrentEnergy", PInt e)])].

Definition token_body (t : string) : pyval :=
  PDict [("status", PStr "OK"); ("data", PDict [("token", PStr t)])].

Definition stored_token (t : string) : File :=
  JsonText (PDict [("token", PStr t)]).

(** A server that reports 5 units of energy and accepts every game without
    a ["data"] member in its answer. *)
Definition terse_server (k : nat) (req : Request) : Outcome :=
  if String.eqb (req_endpoint req) getUserGameInfo then Json (energy_body 5)
  else if String.eqb (req_endpoint req) playGameGetReward then
    Json (PDict [("status", PStr "OK")])
  else Json (token_body "fresh").

(** A server that answers as the remote API is documented to. *)
Definition plain_server (k : nat) (req : Request) : Outcome :=
  if String.eqb (req_endpoint req) getUserGameInfo then Json (energy_body 5)
  else if String.eqb (req_endpoint req) playGameGetReward then
    Json (energy_body 4)
  else Json (token_body "fresh").

Definition terse_start : Client :=
  process_start (PInt 7) (stored_token "tok") true (Some "user=%7B%7D")
    terse_server.

Definition plain_start : Client :=
  process_start (PInt 7) (stored_token "tok") true (Some "user=%7B%7D")
    plain_server.

(** A client in the middle of a session, holding token [tok]. *)
Definition running (tok : string) (srv : nat -> Request -> Outcome) : Client :=
  mkClient (PStr tok) (Some (PStr tok)) (PInt 7) init_stats (stored_token tok)
    true (Some "user=%7B%7D") srv 0 0 [].

(** A server that has energy to report and turns every game down with a
    server error. *)
Definition failing_server (k : nat) (req : Request) : Outcome :=
  if String.eqb (req_endpoint req) getUserGameInfo then Json (energy_body 5)
  else if String.eqb (req_endpoint req) playGameGetReward then HttpError 500
  else Json (token_body "fresh").

(** A server that no longer takes the token ["stale"]. *)
Definition renewing_server (k : nat) (req : Request) : Outcome :=
  if String.eqb (req_endpoint req) getToken then Json (token_body "fresh")
  else
    match req_authorization req with
    | Some (PStr "fresh") => plain_server k req
    | _ => HttpError 401
    end.

(** A server that answers every request with a body whose status is not
    "OK". *)
Definition refusing_server (k : nat) (req : Request) : Outcome :=
  Json (PDict [("status", PStr "ERROR")]).

(** A server that answers 401 to everything, the token endpoint included. *)
Definition rejecting_server (k : nat) (req : Request) : Outcome :=
  HttpError 401.

(** A server that refuses the very first request it gets and answers as
    documented from then on. *)
Definition expiring_server (k : nat) (req : Request) : Outcome :=
  match k with
  | O => HttpError 401
  | S _ => plain_server k req
  end.

(** A server that exchanges tokens and refuses every other request. *)
Definition stubborn_server (k : nat) (req : Request) : Outcome :=
  if String.eqb (req_endpoint req) getToken then Json (token_body "fresh")
  else HttpError 401.

(** A server on which the energy is used up and does not come back. *)
Definition drained_server (k : nat) (req : Request) : Outcome :=
  if String.eqb (req_endpoint req) getUserGameInfo then Json (energy_body 0)
  else plain_server k req.

(** A server whose energy report carries no number. *)
Definition vague_server (k : nat) (req : Request) : Outcome :=
  Json (PDict [("status", PStr "OK");
               ("data", PDict [("userCurrentEnergy", PNone)])]).

(** * Reasoning about runs

    Most facts below say that a run relates the state it starts from to the
    state it ends in, whatever way it ends.  [preserves R c] is that statement;
    for a reflexive and transitive [R] it goes through the monad's
    combinators, and so through the code. *)

Definition preserves {A} (R : Client -> Client -> Prop) (c : M A) : Prop :=
  forall s r s', c s = (r, s') -> R s s'.

Section Preserves.
Variable R : Client -> Client -> Prop.
Hypothesis R_refl : forall s, R s s.
Hypothesis R_trans : forall a b c, R a b -> R b c -> R a c.

Lemma preserves_ret {A} (a : A) : preserves R (ret a).
Proof. intros s r s' H. inversion H. subst. apply R_refl. Qed.

Lemma preserves_raise {A} (e : exn) : preserves R (@raise A e).
Proof. intros s r s' H. inversion H. subst. apply R_refl. Qed.

Lemma preserves_diverge {A} : preserves R (@diverge A).
Proof. intros s r s' H. inversion H. subst. apply R_refl. Qed.

Lemma preserves_gets {A} (f : Client -> A) : preserves R (gets f).
Proof. intros s r s' H. inversion H. subst. apply R_refl. Qed.

Lemma preserves_modify (f : Client -> Client) :
  (forall s, R s (f s)) -> preserves R (modify f).
Proof. intros Hf s r s' H. inversion H. subst. apply Hf. Qed.

Lemma preserves_bind {A B} (c : M A) (k : A -> M B) :
  preserves R c -> (forall a, preserves R (k a)) -> preserves R (bind c k).
Proof.
  intros Hc Hk s r s' H. unfold bind in H.
  destruct (c s) as [[a | e | ] s1] eqn:E.
  - eapply R_trans; [eapply Hc; eauto | eapply Hk; eauto].
  - inversion H; subst. eapply Hc; eauto.
  - inversion H; subst. eapply Hc; eauto.
Qed.

Lemma preserves_try {A} (c : M A) (h : exn -> M A) :
  preserves R c -> (forall e, preserves R (h e)) ->
  preserves R (try_except c h).
Proof.
  intros Hc Hh s r s' H. unfold try_except in H.
  destruct (c s) as [[a | e | ] s1] eqn:E.
  - inversion H; subst. eapply Hc; eauto.
  - eapply R_trans; [eapply Hc; eauto | eapply Hh; eauto].
  - inversion H; subst. eapply Hc; eauto.
Qed.

Lemma preserves_for_each {A} (xs : list A) (body : A -> M unit) :
  (forall x, preserves R (body x)) -> preserves R (for_each xs body).
Proof.
  intros Hb. induction xs as [| x xs IH]; simpl.
  - apply preserves_ret.
  - apply preserves_bind; auto.
Qed.

Lemma preserves_py_get v k d : preserves R (py_get v k d).
Proof.
  destruct v; simpl; try apply preserves_raise. apply preserves_ret.
Qed.

Lemma preserves_py_getitem v k : preserves R (py_getitem v k).
Proof.
  destruct v; simpl; try apply preserves_raise.
  destruct (dict_get k d); [apply preserves_ret | apply preserves_raise].
Qed.

Lemma preserves_status_is_OK v : preserves R (status_is_OK v).
Proof.
  unfold status_is_OK. destruct (truthy v).
  - apply preserves_bind; [apply preserves_py_get | intro; apply preserves_ret].
  - apply preserves_ret.
Qed.
End Preserves.

Lemma preserves_weaken {A} (R R' : Client -> Client -> Prop) (c : M A) :
  (forall s s', R s s' -> R' s s') -> preserves R c -> preserves R' c.
Proof. intros HRR Hc s r s' H. apply HRR. eapply Hc; eauto. Qed.

(** ** The gateway keeps to its frame *)

Lemma gw_frame_refl e s : gw_frame e s s.
Proof. constructor; auto. exists []. split; auto. Qed.

Lemma gw_frame_trans e a b c : gw_frame e a b -> gw_frame e b c -> gw_frame e a c.
Proof.
  intros [] []. constructor; try congruence; try lia.
  destruct gf_log0 as (n1 & L1 & F1), gf_log1 as (n2 & L2 & F2).
  exists (n2 ++ n1). split.
  - rewrite L2, L1. apply app_assoc.
  - apply Forall_app. split; auto. rewrite <- gf_clock0. exact F2.
Qed.

Lemma gw_event_token e t ev : gw_event t getToken ev -> gw_event t e ev.
Proof. destruct ev; simpl; tauto. Qed.

Lemma gw_frame_token e s s' : gw_frame getToken s s' -> gw_frame e s s'.
Proof.
  intros []. constructor; auto.
  destruct gf_log0 as (n & L & F). exists n. split; auto.
  eapply Forall_impl; [ | exact F]. intros. now apply gw_event_token.
Qed.

Lemma gw_frame_emit e s ev :
  gw_event (clock s) e ev -> gw_frame e s (with_log (ev :: log s) s).
Proof.
  intros H. constructor; auto. exists [ev]. split; auto.
Qed.

Ltac pres R_refl R_trans :=
  repeat
    match goal with
    | |- preserves _ (bind _ _) =>
        apply (preserves_bind _ R_trans); [ | intros ? ]
    | |- preserves _ (try_except _ _) =>
        apply (preserves_try _ R_trans); [ | intros ? ]
    | |- preserves _ (ret _) => apply (preserves_ret _ R_refl)
    | |- preserves _ (raise _) => apply (preserves_raise _ R_refl)
    | |- preserves _ diverge => apply (preserves_diverge _ R_refl)
    | |- preserves _ (gets _) => apply (preserves_gets _ R_refl)
    | |- preserves _ (py_get _ _ _) => apply (preserves_py_get _ R_refl)
    | |- preserves _ (py_getitem _ _) => apply (preserves_py_getitem _ R_refl)
    | |- preserves _ (status_is_OK _) =>
        apply (preserves_status_is_OK _ R_refl R_trans)
    | |- preserves _ (for_each _ _) =>
        apply (preserves_for_each _ R_refl R_trans); intros ?
    | |- preserves _ (if ?b then _ else _) => destruct b
    | |- preserves _ (match ?x with _ => _ end) => destruct x
    end.

Lemma gw_print e m : preserves (gw_frame e) (print m).
Proof.
  apply preserves_modify. intros s. now apply gw_frame_emit.
Qed.

Lemma gw_opened e p : preserves (gw_frame e) (emit (Opened p)).
Proof.
  apply preserves_modify. intros s. now apply gw_frame_emit.
Qed.

Lemma gw_exchange e method payload :
  preserves (gw_frame e) (exchange method e payload).
Proof.
  intros s r s' H. unfold exchange, bind, gets, modify, emit in H. simpl in H.
  assert (gw_frame e s
            (with_log (Http (clock s)
                         (mkRequest method e (authorization s) payload)
                         (server s (sent s)
                            (mkRequest method e (authorization s) payload))
                       :: log s) (with_sent (S (sent s)) s))) as G.
  { constructor; simpl; auto. eexists [_]. split; [reflexivity | ].
    constructor; auto. simpl. auto. }
  destruct (server s (sent s) _); inversion H; subst; exact G.
Qed.

Lemma gw_send e method params data :
  preserves (gw_frame e) (send method e params data).
Proof.
  unfold send.
  destruct (String.eqb (lower method) "get"); [apply gw_exchange | ].
  destruct (String.eqb (lower method) "post"); [apply gw_exchange | ].
  apply preserves_raise, gw_frame_refl.
Qed.

Lemma gw_save_token e t : preserves (gw_frame e) (_save_token t).
Proof.
  unfold _save_token, json_dump_token_file.
  pres (gw_frame_refl e) (gw_frame_trans e);
    try apply gw_print; try apply gw_opened.
  apply preserves_modify. intros s. constructor; auto. exists []. auto.
Qed.

Lemma gw_install_token e response :
  preserves (gw_frame e) (install_token response).
Proof.
  unfold install_token.
  pres (gw_frame_refl e) (gw_frame_trans e);
    try apply gw_print; try apply gw_save_token;
    apply preserves_modify; intros s; constructor; auto; exists []; auto.
Qed.

Lemma gw_gateway fuel :
  preserves (gw_frame getToken) (update_token fuel) /\
  (forall e method params data retry_count,
      preserves (gw_frame e) (_request fuel method e params data retry_count)).
Proof.
  induction fuel as [| fuel [IHu IHr]].
  - split; intros; apply preserves_diverge, gw_frame_refl.
  - split.
    + simpl.
      pres (gw_frame_refl getToken) (gw_frame_trans getToken);
        try apply gw_print; try apply gw_opened; try apply IHr;
        apply gw_install_token.
    + intros e method params data rc. simpl.
      assert (preserves (gw_frame e) (update_token fuel)) as IHu'.
      { eapply preserves_weaken; [ | exact IHu]. apply gw_frame_token. }
      pres (gw_frame_refl e) (gw_frame_trans e);
        try apply gw_print; try apply IHr; try apply IHu'; try apply gw_send.
Qed.

Lemma gw_update_token fuel : preserves (gw_frame getToken) (update_token fuel).
Proof. apply gw_gateway. Qed.

Lemma gw_request fuel e method params data retry_count :
  preserves (gw_frame e) (_request fuel method e params data retry_count).
Proof. apply gw_gateway. Qed.

(** ** Refreshes, waits and pauses are quiet *)

Lemma same_counters_refl a : same_counters a a.
Proof. repeat split. Qed.

Lemma same_counters_trans a b c :
  same_counters a b -> same_counters b c -> same_counters a c.
Proof. unfold same_counters. intuition congruence. Qed.

Lemma quiet_refl s : quiet s s.
Proof.
  constructor; auto using same_counters_refl; try lia. exists []. auto.
Qed.

Lemma quiet_trans a b c : quiet a b -> quiet b c -> quiet a c.
Proof.
  intros [] []. constructor; try congruence; try lia.
  - eapply same_counters_trans; eauto.
  - destruct q_log0 as (n1 & L1 & F1), q_log1 as (n2 & L2 & F2).
    exists (n2 ++ n1). split.
    + rewrite L2, L1. apply app_assoc.
    + apply Forall_app. auto.
Qed.

Lemma gw_frame_quiet e s s' :
  e <> playGameGetReward -> gw_frame e s s' -> quiet s s'.
Proof.
  intros Ne []. constructor; auto; try lia.
  - rewrite gf_stats0. apply same_counters_refl.
  - destruct gf_log0 as (n & L & F). exists n. split; auto.
    eapply Forall_impl; [ | exact F]. intros [] H; simpl in *; auto.
    destruct H as [_ [H | H]]; rewrite H; auto. discriminate.
Qed.

Lemma quiet_emit s ev : no_submit ev -> quiet s (with_log (ev :: log s) s).
Proof.
  intros H. constructor; simpl; auto using same_counters_refl; try lia.
  exists [ev]. auto.
Qed.

Lemma quiet_print m : preserves quiet (print m).
Proof. apply preserves_modify. intros s. now apply quiet_emit. Qed.

Lemma quiet_update_display : preserves quiet update_display.
Proof.
  unfold update_display. pres quiet_refl quiet_trans.
  apply preserves_modify. intros s. now apply quiet_emit.
Qed.

Lemma quiet_sleep n : 0 <= n -> preserves quiet (sleep n).
Proof.
  intros Hn. unfold sleep. pres quiet_refl quiet_trans.
  - apply preserves_modify. intros s.
    constructor; simpl; auto using same_counters_refl; try lia. exists []. auto.
  - apply preserves_modify. intros s. now apply quiet_emit.
Qed.

Lemma quiet_request fuel e method params data retry_count :
  e <> playGameGetReward ->
  preserves quiet (_request fuel method e params data retry_count).
Proof.
  intros Ne. eapply preserves_weaken; [ | apply gw_request].
  intros. eapply gw_frame_quiet; eauto.
Qed.

Lemma quiet_update_energy fuel : preserves quiet (update_energy fuel).
Proof.
  unfold update_energy. pres quiet_refl quiet_trans;
    try apply quiet_print; try (apply quiet_request; discriminate).
  apply preserves_modify. intros s.
  constructor; simpl; auto using same_counters_refl; try lia.
  - repeat split.
  - exists []. auto.
Qed.

Lemma quiet_energy_gt0 : preserves quiet energy_gt0.
Proof. unfold energy_gt0. pres quiet_refl quiet_trans. Qed.

Lemma quiet_energy_le0 : preserves quiet energy_le0.
Proof. unfold energy_le0. pres quiet_refl quiet_trans. Qed.

Lemma quiet_wait_for_energy fuel ticks completed :
  preserves quiet (wait_for_energy fuel ticks completed).
Proof.
  revert completed. induction ticks as [| ticks IH]; intros completed; simpl.
  - apply preserves_ret, quiet_refl.
  - pres quiet_refl quiet_trans;
      try apply quiet_print; try apply quiet_update_energy;
      try apply quiet_energy_gt0; try apply IH; try (apply quiet_sleep; lia).
Qed.

Lemma quiet_playtime fuel : preserves quiet (playtime fuel).
Proof.
  unfold playtime. pres quiet_refl quiet_trans;
    try apply quiet_update_energy; try apply quiet_update_display;
    try (apply quiet_sleep; lia).
Qed.

Lemma quiet_cooldown n : preserves quiet (cooldown n).
Proof.
  unfold cooldown. pres quiet_refl quiet_trans. apply quiet_sleep; lia.
Qed.

(** ** Stepping through a run *)

Lemma bind_run {A B} (c : M A) (k : A -> M B) s r s' :
  bind c k s = (r, s') ->
  (exists a s1, c s = (Ret a, s1) /\ k a s1 = (r, s')) \/
  (exists e, c s = (Raise e, s') /\ r = Raise e) \/
  (c s = (Diverge, s') /\ r = Diverge).
Proof.
  unfold bind. destruct (c s) as [[a | e | ] s1]; intros H.
  - left. eauto.
  - right. left. inversion H; subst. eauto.
  - right. right. inversion H; subst. eauto.
Qed.

Lemma try_run {A} (c : M A) (h : exn -> M A) s r s' :
  try_except c h s = (r, s') ->
  (exists a, c s = (Ret a, s') /\ r = Ret a) \/
  (exists e s1, c s = (Raise e, s1) /\ h e s1 = (r, s')) \/
  (c s = (Diverge, s') /\ r = Diverge).
Proof.
  unfold try_except. destruct (c s) as [[a | e | ] s1]; intros H.
  - left. inversion H; subst. eauto.
  - right. left. eauto.
  - right. right. inversion H; subst. eauto.
Qed.

Ltac run H :=
  match type of H with
  | bind _ _ _ = _ =>
      let a := fresh "a" in
      let s1 := fresh "s" in
      let E := fresh "E" in
      let e := fresh "e" in
      apply bind_run in H;
      destruct H as [(a & s1 & E & H) | [(e & E & H) | (E & H)]]
  | try_except _ _ _ = _ =>
      let a := fresh "a" in
      let s1 := fresh "s" in
      let E := fresh "E" in
      let e := fresh "e" in
      apply try_run in H;
      destruct H as [(a & E & H) | [(e & s1 & E & H) | (E & H)]]
  end.

Tactic Notation "run_as" hyp(H) ident(a) ident(s1) ident(E) :=
  match type of H with
  | bind _ _ _ = _ =>
      let e := fresh "e" in
      apply bind_run in H;
      destruct H as [(a & s1 & E & H) | [(e & E & H) | (E & H)]]
  | try_except _ _ _ = _ =>
      let e := fresh "e" in
      apply try_run in H;
      destruct H as [(a & E & H) | [(e & s1 & E & H) | (E & H)]]
  end.

(** Neither gateway function lets an exception out. *)
Lemma gateway_no_raise fuel :
  (forall s r s', update_token fuel s = (r, s') -> forall e, r <> Raise e) /\
  (forall method endpoint params data rc s r s',
      _request fuel method endpoint params data rc s = (r, s') ->
      forall e, r <> Raise e).
Proof.
  induction fuel as [| fuel [IHu IHr]].
  - split; intros; simpl in *; inversion H; subst; discriminate.
  - split.
    + intros s r s' H e. simpl in H. run H.
      * subst; discriminate.
      * run H; [ | inversion E0 | inversion E0 ].
        inversion H; subst. discriminate.
      * subst; discriminate.
    + intros method endpoint params data rc s r s' H e. simpl in H.
      destruct (3 <=? rc).
      { run H; [ inversion H; subst; discriminate | | ];
          subst; inversion E. }
      run H; [ | inversion E | inversion E ].
      run H.
      * run H.
        -- subst; discriminate.
        -- destruct e0; try (run H; [inversion H; subst; discriminate
                                    | inversion E2 | inversion E2]).
           destruct (status_code =? 401).
           ++ run H.
              ** eapply IHr; eauto.
              ** exfalso. eapply IHu; eauto.
              ** subst; discriminate.
           ++ run H; [inversion H; subst; discriminate
                     | inversion E2 | inversion E2].
        -- subst; discriminate.
      * exfalso. subst.
        destruct (negb (truthy a)).
        -- run E0; [inversion E0 | | inversion E0; discriminate ].
           eapply IHu; eauto.
        -- inversion E0.
      * subst; discriminate.
Qed.

Lemma update_token_no_raise fuel s e s' :
  update_token fuel s <> (Raise e, s').
Proof.
  intros H. destruct (gateway_no_raise fuel) as [Hu _].
  eapply Hu; eauto.
Qed.

Lemma request_no_raise fuel method endpoint params data rc s e s' :
  _request fuel method endpoint params data rc s <> (Raise e, s').
Proof.
  intros H. destruct (gateway_no_raise fuel) as [_ Hr].
  eapply Hr; eauto.
Qed.

(** ** The chain of attempts behind one logical call *)

Lemma calls_app e l1 l2 : calls e (l1 ++ l2) = calls e l1 ++ calls e l2.
Proof. apply filter_app. Qed.

Lemma calls_gw_token e t new :
  e <> getToken -> Forall (gw_event t getToken) new -> calls e new = [].
Proof.
  intros Ne F. induction F as [| ev new H F IH]; simpl; auto.
  destruct ev; simpl in *; auto.
  destruct H as [_ H]. assert (req_endpoint sent0 = getToken) as -> by tauto.
  destruct (String.eqb_spec getToken e); [congruence | auto].
Qed.

Lemma update_token_calls fuel e s r s' :
  e <> getToken -> update_token fuel s = (r, s') ->
  exists new, log s' = new ++ log s /\ calls e new = [].
Proof.
  intros Ne H. apply gw_update_token in H. destruct H.
  destruct gf_log0 as (new & L & F). exists new. split; auto.
  eapply calls_gw_token; eauto.
Qed.

Lemma print_run m s r s' :
  print m s = (r, s') -> r = Ret tt /\ s' = with_log (Print m :: log s) s.
Proof. intros H. inversion H. auto. Qed.

Lemma exchange_run method e payload s r s' :
  exchange method e payload s = (r, s') ->
  let req := mkRequest method e (authorization s) payload in
  let out := server s (sent s) req in
  s' = with_log (Http (clock s) req out :: log s) (with_sent (S (sent s)) s) /\
  r = match out with
      | Json body => Ret body
      | HttpError code => Raise (HTTPError code)
      | TransportError => Raise RequestException
      end.
Proof.
  unfold exchange, bind, gets, modify, emit. simpl.
  destruct (server s (sent s) _); intros H; inversion H; auto.
Qed.

Lemma send_run method e params data s r s' :
  send method e params data s = (r, s') ->
  (r = Raise ValueError /\ s' = s) \/
  (exists m, exchange m e (payload_of method params data) s = (r, s')).
Proof.
  unfold send, payload_of.
  destruct (String.eqb (lower method) "get"); [eauto | ].
  destruct (String.eqb (lower method) "post"); [eauto | ].
  intros H. inversion H. auto.
Qed.

Lemma ensure_token_calls fuel e tok s (r : result unit) s' :
  e <> getToken ->
  (if negb (truthy tok) then _ <- update_token fuel ;; ret tt else ret tt)
    s = (r, s') ->
  (r = Ret tt \/ r = Diverge) /\
  exists new, log s' = new ++ log s /\ calls e new = [].
Proof.
  intros Ne H. destruct (negb (truthy tok)).
  - run H.
    + inversion H; subst. split; auto. eapply update_token_calls; eauto.
    + exfalso. eapply update_token_no_raise; eauto.
    + subst. split; auto. eapply update_token_calls; eauto.
  - inversion H; subst. split; auto. exists []. auto.
Qed.

Lemma calls_cons_hit e ev l :
  to_endpoint e ev = true -> calls e (ev :: l) = ev :: calls e l.
Proof. intros H. unfold calls. simpl. now rewrite H. Qed.

Lemma calls_cons_print e m l : calls e (Print m :: l) = calls e l.
Proof. reflexivity. Qed.

Lemma chain_end_answer e payload m auth t out :
  out <> HttpError 401 ->
  chain_end e payload
    (Ret (match out with Json v => v | _ => PNone end))
    [Http t (mkRequest m e auth payload) out].
Proof.
  intros H. right. exists t, (mkRequest m e auth payload), out. auto.
Qed.

Lemma request_chain fuel :
  forall method e params data rc s r s',
    e <> getToken ->
    _request fuel method e params data rc s = (r, s') ->
    exists new last olds,
      log s' = new ++ log s /\
      calls e new = last ++ olds /\
      Forall answered_401 olds /\
      Z.of_nat (List.length (last ++ olds)) <= Z.max 0 (3 - rc) /\
      chain_end e (payload_of method params data) r last.
Proof.
  induction fuel as [| fuel IH]; intros method e params data rc s r s' Ne H.
  - inversion H; subst. exists [], [], [].
    repeat split; auto; [cbn; lia | left; auto].
  - simpl in H. destruct (Z.leb_spec 3 rc) as [Hrc | Hrc].
    { run H; [ | inversion E | inversion E ].
      apply print_run in E. destruct E as [_ ->]. inversion H; subst.
      exists [Print MaxRetries], [], [].
      repeat split; auto; [cbn; lia | left; auto]. }
    run H; [ | inversion E | inversion E ].
    inversion E; subst a s0; clear E.
    run H.
    2:{ exfalso. apply (ensure_token_calls _ e) in E; auto.
        destruct E as [[? | ?] _]; discriminate. }
    2:{ subst. apply (ensure_token_calls _ e) in E; auto.
        destruct E as [_ (new & L & C)].
        exists new, [], []. rewrite C.
        repeat split; auto; [cbn; lia | left; auto]. }
    apply (ensure_token_calls _ e) in E; auto.
    destruct E as [_ (new0 & L0 & C0)].
    assert (Hone : Z.of_nat 1 <= Z.max 0 (3 - rc)) by lia.
    run H.
    + (* the request was answered with a body *)
      subst. apply send_run in E. destruct E as [[E _] | [m E]]; [discriminate | ].
      apply exchange_run in E. cbv zeta in E. destruct E as [-> E].
      set (req := mkRequest m e (authorization s0)
                    (payload_of method params data)) in *.
      set (ev := Http (clock s0) req (server s0 (sent s0) req)) in *.
      assert (to_endpoint e ev = true) as Hev by apply String.eqb_refl.
      exists (ev :: new0), [ev], [].
      rewrite (calls_cons_hit _ _ _ Hev), C0.
      repeat split; auto.
      * cbn [log with_log with_sent]. now rewrite L0.
      * destruct (server s0 (sent s0) req) eqn:Out; inversion E; subst.
        subst ev. apply (chain_end_answer e _ m _ _ (Json body)).
        discriminate.
    + (* an exception in the try block *)
      apply send_run in E. destruct E as [[E ->] | [m E]].
      * inversion E; subst.
        run H; [ | inversion E0 | inversion E0 ].
        apply print_run in E0. destruct E0 as [_ ->]. inversion H; subst.
        exists (Print (RequestErrorMsg ValueError) :: new0), [], [].
        rewrite calls_cons_print, C0.
        repeat split; auto; [ | cbn; lia | left; auto ].
        cbn [log with_log]. now rewrite L0.
      * apply exchange_run in E. cbv zeta in E. destruct E as [-> E].
        set (req := mkRequest m e (authorization s0)
                      (payload_of method params data)) in *.
        set (ev := Http (clock s0) req (server s0 (sent s0) req)) in *.
        assert (to_endpoint e ev = true) as Hev by apply String.eqb_refl.
        destruct (server s0 (sent s0) req) as [body | code | ] eqn:Out;
          inversion E; subst e0.
        -- destruct (Z.eqb_spec code 401) as [-> | Hcode].
           ++ (* 401: refresh the token and go round again *)
              assert (answered_401 ev) as Hun by (subst ev; red; eauto).
              run H.
              2:{ exfalso. eapply update_token_no_raise; eauto. }
              2:{ subst. eapply update_token_calls in E0; eauto.
                  destruct E0 as (new1 & L1 & C1).
                  cbn [log with_log with_sent] in L1.
                  exists (new1 ++ ev :: new0), [], [ev].
                  rewrite calls_app, C1, (calls_cons_hit _ _ _ Hev), C0.
                  repeat split; auto; [ | left; auto ].
                  rewrite L1, L0, <- app_assoc. reflexivity. }
              eapply update_token_calls in E0; eauto.
              destruct E0 as (new1 & L1 & C1).
              cbn [log with_log with_sent] in L1.
              apply IH in H; auto.
              destruct H as (new2 & last & olds & L2 & C2 & F2 & B2 & End2).
              exists (new2 ++ new1 ++ ev :: new0), last, (olds ++ [ev]).
              rewrite !calls_app, C1, C2, (calls_cons_hit _ _ _ Hev), C0.
              repeat split; auto.
              ** rewrite L2, L1, L0, <- !app_assoc. reflexivity.
              ** now rewrite <- app_assoc.
              ** apply Forall_app. split; auto.
              ** rewrite !length_app in *. cbn [List.length]. lia.
           ++ run H; [ | inversion E0 | inversion E0 ].
              apply print_run in E0. destruct E0 as [_ ->]. inversion H; subst.
              exists (Print (HttpErrorMsg code) :: ev :: new0), [ev], [].
              rewrite calls_cons_print, (calls_cons_hit _ _ _ Hev), C0.
              repeat split; auto.
              ** cbn [log with_log with_sent]. now rewrite L0.
              ** subst ev.
                 apply (chain_end_answer e _ m _ _ (HttpError code)).
                 congruence.
        -- run H; [ | inversion E0 | inversion E0 ].
           apply print_run in E0. destruct E0 as [_ ->]. inversion H; subst.
           exists (Print (RequestErrorMsg RequestException) :: ev :: new0),
             [ev], [].
           rewrite calls_cons_print, (calls_cons_hit _ _ _ Hev), C0.
           repeat split; auto.
           ** cbn [log with_log with_sent]. now rewrite L0.
           ** subst ev.
              apply (chain_end_answer e _ m _ _ TransportError). discriminate.
    + (* the try block cannot run away: it is one exchange *)
      exfalso. apply send_run in E. destruct E as [[E _] | [m E]];
        [discriminate | ].
      apply exchange_run in E. cbv zeta in E. destruct E as [_ E].
      destruct (server s0 (sent s0) _); discriminate.
Qed.

(** ** The book-keeping of a game *)

Lemma status_is_OK_run v s r s' :
  status_is_OK v s = (r, s') ->
  s' = s /\
  ((r = Ret (ok_body v) /\ (is_dict v = true \/ truthy v = false)) \/
   (r = Raise AttributeError /\ truthy v = true /\ is_dict v = false)).
Proof.
  unfold status_is_OK.
  destruct v as [ | b | z | str | l | d]; simpl;
    try (intros H; inversion H; subst; auto; fail).
  - destruct b; intros H; inversion H; subst; auto.
  - destruct (z =? 0); intros H; inversion H; subst; auto.
  - destruct (String.eqb str ""); intros H; inversion H; subst; auto.
  - destruct l; intros H; inversion H; subst; auto.
  - destruct d; intros H; inversion H; subst; auto.
Qed.

Lemma ok_body_dict v : ok_body v = true -> is_dict v = true.
Proof. destruct v; simpl; auto. Qed.

Lemma book_result_run response score multiplier s r s' :
  book_result response score multiplier s = (r, s') ->
  same_world s s' /\
  ((ok_body response = false /\ stats s' = stats s /\ log s' = log s /\
    (r = Ret false \/
     (r = Raise AttributeError /\ truthy response = true /\
      is_dict response = false)))
   \/
   (ok_body response = true /\
    Total_Games (stats s') = Total_Games (stats s) + 1 /\
    Last_Score (stats s') = Some score /\
    Multiplier (stats s') = Some multiplier /\
    Last_Update (stats s') = Last_Update (stats s) /\
    match data_of response with
    | None =>
        r = Ret true /\ log s' = log s /\
        Total_Points (stats s') = Total_Points (stats s) /\
        Energy (stats s') = Energy (stats s)
    | Some (PDict d) =>
        r = Ret true /\ log s' = Print (GameCompleted score) :: log s /\
        Total_Points (stats s') = Total_Points (stats s) + score /\
        Energy (stats s') =
          match dict_get "userCurrentEnergy" d with
          | Some e => e
          | None => Energy (stats s)
          end
    | Some _ =>
        r = Raise AttributeError /\ log s' = log s /\
        Total_Points (stats s') = Total_Points (stats s) /\
        Energy (stats s') = Energy (stats s)
    end)).
Proof.
  unfold book_result. intros H. run H.
  - apply status_is_OK_run in E. destruct E as [-> [[E D] | [E _]]];
      [ | discriminate].
    inversion E; subst a; clear E.
    destruct (ok_body response) eqn:Ok.
    + apply ok_body_dict in Ok as Dict.
      destruct response as [ | | | | | d]; try discriminate.
      unfold has_data, data_of in *.
      destruct (dict_get "data" d) as [dv | ] eqn:Dv.
      * unfold bind, modify, gets, py_getitem in H. simpl in H.
        rewrite Dv in H. simpl in H.
        destruct dv; simpl in H; inversion H; subst;
          (split; [repeat split | right; repeat split; auto]).
      * unfold bind, modify, ret in H. simpl in H. inversion H; subst.
        split; [repeat split | right; repeat split; auto].
    + inversion H; subst. split; [repeat split | left; auto].
  - apply status_is_OK_run in E. destruct E as [-> [[E D] | [E [T D]]]];
      [discriminate | ].
    inversion E; subst.
    split; [repeat split | left; repeat split; auto].
    destruct response; simpl in *; auto; discriminate.
  - apply status_is_OK_run in E. destruct E as [_ [[E _] | [E _]]]; discriminate.
Qed.

(** ** Counting the games of a log *)

Lemma sumZ_app l1 l2 : sumZ (l1 ++ l2) = sumZ l1 + sumZ l2.
Proof. induction l1; simpl; lia. Qed.

Lemma games_in_app l1 l2 : games_in (l1 ++ l2) = games_in l1 + games_in l2.
Proof.
  unfold games_in. rewrite filter_app, length_app. lia.
Qed.

Lemma points_in_app l1 l2 : points_in (l1 ++ l2) = points_in l1 + points_in l2.
Proof.
  unfold points_in. now rewrite filter_app, map_app, sumZ_app.
Qed.

Lemma booked_refl s : booked s s.
Proof.
  constructor; auto; try lia. exists []. cbn. repeat split; lia.
Qed.

Lemma booked_trans a b c : booked a b -> booked b c -> booked a c.
Proof.
  intros [] []. constructor; try congruence; try lia.
  destruct b_log0 as (n1 & L1 & G1 & P1), b_log1 as (n2 & L2 & G2 & P2).
  exists (n2 ++ n1). rewrite games_in_app, points_in_app. repeat split.
  - rewrite L2, L1. apply app_assoc.
  - lia.
  - lia.
Qed.

Lemma no_submit_accepted ev : no_submit ev -> accepted ev = false.
Proof.
  destruct ev as [t req out | | | | ]; simpl; auto.
  intros H. destruct out; auto.
  destruct (String.eqb_spec (req_endpoint req) playGameGetReward); tauto.
Qed.

Lemma accepted_credited ev : accepted ev = false -> credited ev = false.
Proof.
  destruct ev as [t req out | | | | ]; simpl; auto.
  destruct out; auto. intros ->. reflexivity.
Qed.

Lemma filter_none {A} (f : A -> bool) l :
  Forall (fun x => f x = false) l -> filter f l = [].
Proof.
  induction 1 as [| x l H F IH]; simpl; auto. now rewrite H.
Qed.

Lemma no_submit_games new : Forall no_submit new -> games_in new = 0.
Proof.
  intros F. unfold games_in. rewrite filter_none; auto.
  eapply Forall_impl; [ | exact F]. apply no_submit_accepted.
Qed.

Lemma no_submit_points new : Forall no_submit new -> points_in new = 0.
Proof.
  intros F. unfold points_in. rewrite filter_none; auto.
  eapply Forall_impl; [ | exact F].
  intros. now apply accepted_credited, no_submit_accepted.
Qed.

Lemma quiet_booked s s' : quiet s s' -> booked s s'.
Proof.
  intros []. constructor; auto.
  destruct q_log0 as (new & L & F). exists new.
  rewrite no_submit_games, no_submit_points; auto.
  destruct q_counters0 as (G & _ & _ & P). repeat split; auto; lia.
Qed.

Lemma booked_quiet {A} (c : M A) : preserves quiet c -> preserves booked c.
Proof. apply preserves_weaken. apply quiet_booked. Qed.

(** Filtering for accepted submissions only looks at the play endpoint. *)
Lemma accepted_calls l :
  filter accepted l = filter accepted (calls playGameGetReward l).
Proof.
  induction l as [| ev l IH]; simpl; auto.
  destruct ev as [t req out | | | | ]; simpl; auto.
  destruct (String.eqb (req_endpoint req) playGameGetReward) eqn:E; simpl.
  - rewrite E. destruct out; simpl; auto. destruct (ok_body body); simpl; congruence.
  - destruct out; simpl; auto.
Qed.

Lemma credited_calls l :
  filter credited l = filter credited (calls playGameGetReward l).
Proof.
  induction l as [| ev l IH]; simpl; auto.
  destruct ev as [t req out | | | | ]; simpl; auto.
  destruct (String.eqb (req_endpoint req) playGameGetReward) eqn:E; simpl.
  - rewrite E. destruct out; simpl; auto.
    destruct (ok_body body && data_is_dict body); simpl; congruence.
  - destruct out; simpl; auto.
Qed.

Lemma answered_401_accepted olds :
  Forall answered_401 olds -> Forall (fun ev => accepted ev = false) olds.
Proof.
  apply Forall_impl. intros ev (t & req & ->). reflexivity.
Qed.

(** What one submission does: the chain of its requests, and the counters. *)
Lemma submit_run fuel game_id score multiplier s r s' :
  submit fuel game_id score multiplier s = (r, s') ->
  exists new last olds,
    log s' = new ++ log s /\
    calls playGameGetReward new = last ++ olds /\
    Forall answered_401 olds /\
    (List.length (last ++ olds) <= 3)%nat /\
    (user_id s' = user_id s /\ data_txt s' = data_txt s /\
     server s' = server s /\ token_file_writable s' = token_file_writable s /\
     clock s' = clock s) /\
    ((Forall (fun ev => accepted ev = false) last /\
      (last = [] \/ exists t req out, last = [Http t req out] /\
                                      out <> HttpError 401) /\
      stats s' = stats s /\ r <> Ret true)
     \/
     (exists t req v,
         last = [Http t req (Json v)] /\ ok_body v = true /\
         req_endpoint req = playGameGetReward /\
         req_payload req =
           Some (submit_payload (user_id s) game_id score multiplier) /\
         Total_Games (stats s') = Total_Games (stats s) + 1 /\
         Total_Points (stats s') =
           Total_Points (stats s) + (if data_is_dict v then score else 0) /\
         (r = Ret true \/ r = Raise AttributeError))).
Proof.
  unfold submit. intros H.
  run H; [ | inversion E | inversion E ]. inversion E; subst a s0; clear E.
  assert (Hpl : payload_of "post" None
                  (Some (submit_payload (user_id s) game_id score multiplier))
                = Some (submit_payload (user_id s) game_id score multiplier))
    by reflexivity.
  run H.
  2:{ exfalso. eapply request_no_raise; eauto. }
  - (* the gateway returned [a] *)
    pose proof (gw_request _ _ _ _ _ _ _ _ _ E) as [].
    apply request_chain in E; [ | discriminate].
    destruct E as (new1 & last & olds & L1 & C1 & F1 & B1 & End1).
    rewrite Hpl in End1.
    apply book_result_run in H.
    destruct H as [(_ & _ & U2 & _ & W2 & D2 & S2 & _ & K2) H].
    assert (Frame : user_id s' = user_id s /\ data_txt s' = data_txt s /\
                    server s' = server s /\
                    token_file_writable s' = token_file_writable s /\
                    clock s' = clock s)
      by (repeat split; congruence).
    assert (Len : (List.length (last ++ olds) <= 3)%nat) by lia.
    destruct H as [(Ok & St & Lg & Hr) | (Ok & TG & _ & _ & _ & Hd)].
    + exists new1, last, olds. repeat split; try tauto; try congruence.
      left. repeat split; try congruence.
      * destruct End1 as [[-> _] | (t & req & out & -> & N & Ep & Pl & Hr')];
          auto.
        constructor; auto. simpl. destruct out; auto.
        inversion Hr'; subst. rewrite Ok. apply andb_false_r.
      * destruct End1 as [[-> _] | (t & req & out & -> & N & _)];
          [now left | right; exists t, req, out; auto].
      * destruct Hr as [-> | [-> _]]; discriminate.
    + destruct End1 as [[_ [? | Hr']] | (t & req & out & -> & N & Ep & Pl & Hr')];
        try discriminate.
      { inversion Hr'; subst. discriminate. }
      destruct out as [v | code | ];
        try (inversion Hr'; subst; discriminate).
      inversion Hr'; subst a.
      assert (Pts : exists new2,
                 log s' = new2 ++ log s0 /\ calls playGameGetReward new2 = [] /\
                 Total_Points (stats s') =
                   Total_Points (stats s0) +
                   (if data_is_dict v then score else 0) /\
                 (r = Ret true \/ r = Raise AttributeError)).
      { unfold data_is_dict. destruct (data_of v) as [dv | ].
        - destruct dv; destruct Hd as (-> & Lg & TP & _);
            first [ exists []; repeat split; auto; lia
                  | exists [Print (GameCompleted score)];
                    repeat split; auto ].
        - destruct Hd as (-> & Lg & TP & _).
          exists []; repeat split; auto; lia. }
      destruct Pts as (new2 & L2 & C2 & TP & Hr).
      exists (new2 ++ new1), [Http t req (Json v)], olds.
      rewrite calls_app, C2, C1. repeat split; try tauto.
      * rewrite L2, L1. apply app_assoc.
      * right. exists t, req, v. rewrite <- gf_stats0.
        repeat split; auto.
  - (* the gateway ran away *)
    subst r. pose proof (gw_request _ _ _ _ _ _ _ _ _ E) as [].
    apply request_chain in E; [ | discriminate].
    destruct E as (new1 & last & olds & L1 & C1 & F1 & B1 & End1).
    exists new1, last, olds. repeat split; auto; try lia.
    left. repeat split; auto; try discriminate.
    + destruct End1 as [[-> _] | (t & req & out & _ & _ & _ & _ & ?)];
        [auto | discriminate].
    + destruct End1 as [[-> _] | (t & req & out & _ & _ & _ & _ & ?)];
        [auto | discriminate].
Qed.

Lemma answered_401_credited olds :
  Forall answered_401 olds -> Forall (fun ev => credited ev = false) olds.
Proof.
  apply Forall_impl. intros ev (t & req & ->). reflexivity.
Qed.

Lemma booked_submit fuel game_id score multiplier :
  preserves booked (submit fuel game_id score multiplier).
Proof.
  intros s r s' H. apply submit_run in H.
  destruct H as (new & last & olds & L & C & F & _ & Fr & H).
  destruct Fr as (U & D & S & W & K).
  constructor; auto; try lia.
  exists new. split; auto.
  unfold games_in, points_in.
  rewrite accepted_calls, credited_calls, C, !filter_app.
  rewrite (filter_none accepted olds), (filter_none credited olds), !app_nil_r
    by auto using answered_401_accepted, answered_401_credited.
  destruct H as [(NA & _ & St & _) | (t & req & v & -> & Ok & Ep & Pl & TG & TP & _)].
  - rewrite (filter_none accepted last), (filter_none credited last); auto.
    + rewrite St. cbn. lia.
    + eapply Forall_impl; [ | exact NA]. apply accepted_credited.
  - cbn [filter accepted credited]. rewrite Ep, Ok. cbn [String.eqb andb].
    rewrite String.eqb_refl. cbn [andb List.length].
    split; [lia | ].
    rewrite TP. destruct (data_is_dict v); cbn [map sumZ fold_right]; [ | lia].
    unfold score_of. rewrite Pl. cbn. lia.
Qed.

Lemma booked_play_game fuel game_id score multiplier :
  preserves booked (play_game fuel game_id score multiplier).
Proof.
  unfold play_game. pres booked_refl booked_trans.
  - apply booked_quiet, quiet_print.
  - apply booked_quiet, quiet_playtime.
  - apply booked_submit.
Qed.

Lemma booked_loop_body fuel score wait_time :
  preserves booked (loop_body fuel score wait_time).
Proof.
  unfold loop_body. pres booked_refl booked_trans;
    try apply booked_play_game;
    apply booked_quiet;
    auto using quiet_update_energy, quiet_update_display, quiet_energy_le0,
      quiet_print, quiet_wait_for_energy, quiet_cooldown;
    apply quiet_sleep; lia.
Qed.

Lemma booked_iteration fuel score wait_time :
  preserves booked (iteration fuel score wait_time).
Proof.
  unfold iteration. pres booked_refl booked_trans.
  - apply booked_loop_body.
  - apply booked_quiet, quiet_print.
  - apply booked_quiet, quiet_sleep; lia.
Qed.

Lemma booked_main_loop fuel draws : preserves booked (main_loop fuel draws).
Proof.
  unfold main_loop. pres booked_refl booked_trans. apply booked_iteration.
Qed.

(** ** From process start *)

Lemma load_token_run s r s' :
  _load_token s = (r, s') -> s' = with_log (Opened token_path :: log s) s.
Proof.
  unfold _load_token, try_except, json_load_token_file, bind, emit, modify,
    gets. simpl.
  destruct (token_file s) as [ | | | v]; simpl;
    try (intros H; inversion H; reflexivity).
  destruct v; simpl; intros H; inversion H; reflexivity.
Qed.

Lemma with_stats_same s : with_stats (stats s) s = s.
Proof. destruct s; reflexivity. Qed.

Lemma quiet_init fuel s r s' :
  stats s = init_stats -> TokoplayAPI_init fuel s = (r, s') -> quiet s s'.
Proof.
  intros St H. unfold TokoplayAPI_init in H.
  run H;
    [ | apply load_token_run in E; subst; now apply quiet_emit
      | apply load_token_run in E; subst; now apply quiet_emit ].
  apply load_token_run in E. subst s0.
  set (s1 := with_log _ s) in *.
  assert (quiet s s1) as Q by now apply quiet_emit.
  eapply quiet_trans; [exact Q | ].
  assert (St1 : stats s1 = init_stats) by exact St.
  clearbody s1. clear Q St s.
  run H; [ | inversion E | inversion E ]. inversion E; subst; clear E.
  set (s2 := with_token a s1) in *.
  assert (quiet s1 s2) as Q.
  { constructor; simpl; auto using same_counters_refl; try lia. exists []; auto. }
  eapply quiet_trans; [exact Q | ].
  assert (St2 : stats s2 = init_stats) by exact St1.
  clearbody s2. clear Q St1 s1.
  run_as H u s0 E.
  2:{ exfalso. unfold _initialize_headers, bind, gets, modify in E.
      destruct (truthy (token s2)); discriminate. }
  2:{ exfalso. unfold _initialize_headers, bind, gets, modify in E.
      destruct (truthy (token s2)); discriminate. }
  assert (quiet s2 s0 /\ stats s0 = init_stats) as [Q St0].
  { unfold _initialize_headers, bind, gets, modify in E.
    destruct (truthy (token s2)); inversion E; subst; split; auto;
      constructor; simpl; auto using same_counters_refl; try lia;
      exists []; auto. }
  eapply quiet_trans; [exact Q | ]. clear Q E St2 s2.
  run H; [ | inversion E | inversion E ]. inversion E; subst; clear E.
  rewrite <- St0, with_stats_same in H.
  run H.
  - inversion H; subst. eapply quiet_update_energy; eauto.
  - inversion H; subst. eapply quiet_update_energy; eauto.
  - eapply quiet_update_energy; eauto.
Qed.

Lemma booked_main fuel draws s r s' :
  stats s = init_stats -> main fuel draws s = (r, s') -> booked s s'.
Proof.
  intros St H. unfold main in H.
  assert (B : forall r1 s1,
             (TokoplayAPI_init fuel ;; main_loop fuel draws) s = (r1, s1) ->
             booked s s1).
  { intros r1 s1 E. run E.
    - eapply booked_trans.
      + apply quiet_booked. eapply quiet_init; eauto.
      + eapply booked_main_loop; eauto.
    - apply quiet_booked. eapply quiet_init; eauto.
    - apply quiet_booked. eapply quiet_init; eauto. }
  run H; eauto.
  eapply booked_trans; [eapply B; eauto | ].
  eapply booked_quiet; [apply quiet_print | eauto].
Qed.

(** * The session counters (C2) *)

Lemma credited_accepted ev : credited ev = true -> accepted ev = true.
Proof.
  destruct (accepted ev) eqn:E; auto.
  intros H. now rewrite accepted_credited in H.
Qed.

Lemma all_credited l :
  Forall (fun ev => accepted ev = true -> credited ev = true) l ->
  filter credited l = filter accepted l.
Proof.
  induction 1 as [| ev l H F IH]; simpl; auto.
  destruct (accepted ev) eqn:A.
  - rewrite H by reflexivity. now rewrite IH.
  - now rewrite (accepted_credited _ A).
Qed.

(** C2, as the code has it.  After a session of any length, Total Games is
    the number of submissions the server answered with status OK, and Total
    Points is the sum of the scores of those among them whose answer carries
    a "data" object; when each of these answers carries one, that is the sum
    of all the submitted scores. *)
Theorem session_counters uid file writable data srv fuel draws r s' :
  main fuel draws (process_start uid file writable data srv) = (r, s') ->
  Total_Games (stats s') = games_in (log s') /\
  Total_Points (stats s') = points_in (log s') /\
  (Forall (fun ev => accepted ev = true -> credited ev = true) (log s') ->
   Total_Points (stats s') = all_scores_in (log s')).
Proof.
  intros H. apply booked_main in H; [ | reflexivity].
  destruct H. destruct b_log0 as (new & L & G & P).
  cbn in L, G, P. rewrite app_nil_r in L. subst new.
  repeat split; auto.
  intros F. rewrite P. unfold points_in, all_scores_in.
  now rewrite all_credited.
Qed.

Lemma session_counters_witness :
  let s' := snd (main 6 [(185, 5%nat); (170, 6%nat)] plain_start) in
  Total_Games (stats s') = 2 /\
  Total_Points (stats s') = 355 /\
  games_in (log s') = 2 /\
  all_scores_in (log s') = 355.
Proof.
  intros s'.
  destruct (session_counters (PInt 7) (stored_token "tok") true
              (Some "user=%7B%7D") plain_server 6
              [(185, 5%nat); (170, 6%nat)]
              (fst (main 6 [(185, 5%nat); (170, 6%nat)] plain_start)) s')
    as (G & P & A).
  - apply surjective_pairing.
  - rewrite G. split; [vm_compute; reflexivity | ].
    rewrite A.
    + repeat split; vm_compute; reflexivity.
    + subst s'. vm_compute.
      repeat (constructor; [intros; try reflexivity; discriminate | ]).
      constructor.
Defined.

(** One game, accepted without a "data" member: the game is counted, its
    score is not. *)
Lemma points_not_credited :
  let s' := snd (main 6 [(185, 5%nat)] terse_start) in
  fst (main 6 [(185, 5%nat)] terse_start) = Ret tt /\
  map score_of (calls playGameGetReward (log s')) = [185] /\
  Forall (fun ev => accepted ev = true) (calls playGameGetReward (log s')) /\
  Total_Games (stats s') = 1 /\
  Total_Points (stats s') = 0 /\
  Total_Points (stats s') <> 185.
Proof.
  vm_compute. repeat split; try discriminate.
  repeat constructor.
Qed.

(** * One pass through the loop *)

Lemma bind_quiet_cases {A B} (c : M A) (k : A -> M B) s r s' :
  preserves quiet c ->
  bind c k s = (r, s') ->
  (quiet s s' /\ forall b, r <> Ret b) \/
  (exists a s1, quiet s s1 /\ k a s1 = (r, s')).
Proof.
  intros Hc H. run H.
  - right. exists a, s0. split; auto. eapply Hc; eauto.
  - left. subst. split; [eapply Hc; eauto | discriminate].
  - left. subst. split; [eapply Hc; eauto | discriminate].
Qed.

Lemma backoff_run m s r s' :
  (print m ;; sleep 30) s = (r, s') -> r = Ret tt /\ s' = backoff m s.
Proof. intros H. inversion H. auto. Qed.

Lemma quiet_backoff m s : quiet s (backoff m s).
Proof.
  constructor; simpl; auto using same_counters_refl; try lia.
  exists [Sleep 30; Print m]. repeat constructor.
Qed.

(** A game either gets to its submission, after a quiet playtime, or ends
    before without a result. *)
Lemma play_game_cases fuel game_id score multiplier s r s' :
  play_game fuel game_id score multiplier s = (r, s') ->
  (quiet s s' /\ forall b, r <> Ret b) \/
  (exists s1, quiet s s1 /\
              submit fuel game_id score multiplier s1 = (r, s')).
Proof.
  unfold play_game. intros H.
  apply bind_quiet_cases in H; [ | apply quiet_print].
  destruct H as [H | (u & s1 & Q1 & H)]; [now left | ].
  apply bind_quiet_cases in H; [ | apply quiet_playtime].
  destruct H as [[Q2 H] | (u2 & s2 & Q2 & H)].
  - left. split; auto. eapply quiet_trans; eauto.
  - right. exists s2. split; auto. eapply quiet_trans; eauto.
Qed.

Lemma loop_body_cases fuel score wait_time s r s' :
  loop_body fuel score wait_time s = (r, s') ->
  quiet s s' \/
  (exists s1 rp s2,
      quiet s s1 /\ submit fuel 1 score "1" s1 = (rp, s2) /\
      ((rp = Ret true /\ cooldown wait_time s2 = (r, s')) \/
       (rp = Ret false /\ r = Ret tt /\ s' = backoff GamePlayFailed s2) \/
       (exists e, rp = Raise e /\ r = Raise e /\ s' = s2) \/
       (rp = Diverge /\ r = Diverge /\ s' = s2))).
Proof.
  unfold loop_body. intros H.
  apply bind_quiet_cases in H; [ | apply quiet_update_energy].
  destruct H as [[H _] | (u1 & s1 & Q1 & H)]; [now left | ].
  apply bind_quiet_cases in H; [ | apply quiet_update_display].
  destruct H as [[H _] | (u2 & s2 & Q2 & H)];
    [left; eapply quiet_trans; eauto | ].
  apply bind_quiet_cases in H; [ | apply quiet_energy_le0].
  destruct H as [[H _] | (depleted & s3 & Q3 & H)];
    [left; eauto using quiet_trans | ].
  apply bind_quiet_cases in H.
  2:{ destruct depleted; pres quiet_refl quiet_trans;
        auto using quiet_print, quiet_wait_for_energy, quiet_energy_le0. }
  assert (Q : forall x, quiet s3 x -> quiet s x) by eauto using quiet_trans.
  destruct H as [[H _] | (skip & s4 & Q4 & H)]; [left; auto | ].
  destruct skip.
  { inversion H; subst. left; auto. }
  assert (Q' : forall x, quiet s4 x -> quiet s x) by eauto using quiet_trans.
  clear Q Q1 Q2 Q3 Q4 s1 s2 s3.
  run_as H won s5 E.
  - apply play_game_cases in E.
    destruct E as [[_ E] | (s1 & Q1 & E)]; [now elim (E won) | ].
    right. exists s1, (Ret won), s5.
    split; [eauto using quiet_trans | split; [exact E | ]].
    destruct won; [left; auto | right; left].
    apply backoff_run in H. tauto.
  - apply play_game_cases in E. subst r.
    destruct E as [[E _] | (s1 & Q1 & E)]; [left; auto | ].
    right. exists s1, (Raise e), s'.
    split; [eauto using quiet_trans | split; [exact E | ]].
    right. right. left. eauto.
  - apply play_game_cases in E. subst r.
    destruct E as [[E _] | (s1 & Q1 & E)]; [left; auto | ].
    right. exists s1, Diverge, s'.
    split; [eauto using quiet_trans | split; [exact E | ]].
    right. right. right. auto.
Qed.

Lemma iteration_cases fuel score wait_time s r s' :
  iteration fuel score wait_time s = (r, s') ->
  quiet s s' \/
  (exists s1 rp s2,
      quiet s s1 /\ submit fuel 1 score "1" s1 = (rp, s2) /\
      ((rp = Ret true /\ cooldown wait_time s2 = (r, s')) \/
       (rp = Ret false /\ r = Ret tt /\ s' = backoff GamePlayFailed s2) \/
       (exists e, rp = Raise e /\ r = Ret tt /\
                  s' = backoff (GameError e) s2) \/
       (rp = Diverge /\ r = Diverge /\ s' = s2))).
Proof.
  unfold iteration. intros H. run_as H u s1 E.
  - subst r. apply loop_body_cases in E.
    destruct E as [E | (s1 & rp & s2 & Q & Sub & C)]; [now left | ].
    right. exists s1, rp, s2. split; [exact Q | split; [exact Sub | ]].
    destruct C as [C | [C | [(e & _ & C & _) | (_ & C & _)]]];
      try discriminate; auto.
  - apply backoff_run in H. destruct H as [-> ->].
    apply loop_body_cases in E.
    destruct E as [E | (s2 & rp & s3 & Q & Sub & C)].
    + left. eapply quiet_trans; [exact E | apply quiet_backoff].
    + destruct C as [[-> C] | [(_ & C & _) | [(e' & -> & C & ->) | (_ & C & _)]]];
        try discriminate.
      * exfalso. unfold cooldown in C.
        revert C. generalize (range wait_time), s3.
        induction l as [| x l IH]; intros s4 C; [inversion C | ].
        simpl in C. run C; [eapply IH; eauto | inversion E | inversion E].
      * inversion C; subst e'.
        right. exists s2, (Raise e), s3.
        split; [exact Q | split; [exact Sub | ]].
        right. right. left. eauto.
  - subst r. apply loop_body_cases in E.
    destruct E as [E | (s1 & rp & s2 & Q & Sub & C)]; [now left | ].
    right. exists s1, rp, s2. split; [exact Q | split; [exact Sub | ]].
    destruct C as [[-> C] | [(_ & C & _) | [(e & _ & C & _) | (-> & _ & ->)]]];
      try discriminate; auto.
    right. right. right. auto.
Qed.

(** * At most one submission per game (C5) *)

Lemma no_submit_calls new :
  Forall no_submit new -> calls playGameGetReward new = [].
Proof.
  intros F. apply filter_none. eapply Forall_impl; [ | exact F].
  intros [t req out | | | | ]; simpl; auto.
  intros H. now destruct (String.eqb_spec (req_endpoint req) playGameGetReward).
Qed.

Lemma single_submission_quiet new :
  Forall no_submit new -> single_submission new.
Proof.
  intros F. exists [], []. rewrite no_submit_calls by auto.
  repeat split; auto.
Qed.

Lemma single_submission_around before new after :
  Forall no_submit before -> Forall no_submit after ->
  single_submission new -> single_submission (after ++ new ++ before).
Proof.
  intros Fb Fa (last & olds & C & H). exists last, olds.
  rewrite !calls_app, (no_submit_calls before), (no_submit_calls after),
    app_nil_r by auto.
  simpl. auto.
Qed.

Lemma submit_single fuel game_id score multiplier s r s' :
  submit fuel game_id score multiplier s = (r, s') ->
  exists new, log s' = new ++ log s /\ single_submission new /\
              (r = Ret true -> games_in new = 1).
Proof.
  intros H. pose proof (booked_submit _ _ _ _ _ _ _ H) as [].
  apply submit_run in H.
  destruct H as (new & last & olds & L & C & F & Len & _ & H).
  exists new. split; auto. split.
  - exists last, olds. repeat split; auto.
    destruct H as [(_ & H & _) | (t & req & v & -> & _)]; auto.
    right. exists t, req, (Json v). split; auto. discriminate.
  - intros ->.
    destruct H as [(_ & _ & _ & H) | (t & req & v & _ & _ & _ & _ & TG & _)];
      [congruence | ].
    destruct b_log0 as (new' & L' & G' & _).
    rewrite L in L'. apply app_inv_tail in L'. subst new'. lia.
Qed.

Lemma cooldown_events n s r s' :
  cooldown n s = (r, s') ->
  exists new, log s' = new ++ log s /\ Forall no_submit new.
Proof. intros H. apply quiet_cooldown in H. now destruct H. Qed.

(** C5.  In one pass through [play_game], and in the whole pass through the
    loop around it, the play endpoint is asked at most three times, each
    time but the last because the answer before was a 401, and never again
    after an answer that is not a 401.  A pass in which the submission was
    attempted and not accepted ends with a message and the sleep of thirty
    seconds. *)
Theorem submit_at_most_once fuel score wait_time :
  (forall game_id multiplier s r s',
      play_game fuel game_id score multiplier s = (r, s') ->
      exists new, log s' = new ++ log s /\ single_submission new) /\
  (forall s r s',
      iteration fuel score wait_time s = (r, s') ->
      exists new,
        log s' = new ++ log s /\ single_submission new /\
        (calls playGameGetReward new <> [] -> r <> Diverge ->
         games_in new = 0 ->
         exists m older, new = Sleep 30 :: Print m :: older)).
Proof.
  split.
  - intros game_id multiplier s r s' H. apply play_game_cases in H.
    destruct H as [[[] _] | (s1 & [] & H)].
    + destruct q_log0 as (new & L & F). exists new.
      auto using single_submission_quiet.
    + destruct q_log0 as (new0 & L0 & F0).
      apply submit_single in H. destruct H as (new & L & S & _).
      exists (new ++ new0). split.
      * rewrite L, L0. apply app_assoc.
      * apply (single_submission_around new0 new []); auto.
  - intros s r s' H. apply iteration_cases in H.
    destruct H as [[] | (s1 & rp & s2 & [] & Sub & C)].
    + destruct q_log0 as (new & L & F). exists new.
      split; auto. split; [auto using single_submission_quiet | ].
      intros N. now rewrite no_submit_calls in N.
    + destruct q_log0 as (new0 & L0 & F0).
      apply submit_single in Sub. destruct Sub as (new & L & S & G).
      destruct C as [[-> C] | [(-> & -> & ->) | [(e & -> & -> & ->) | (-> & -> & ->)]]].
      * apply cooldown_events in C. destruct C as (new1 & L1 & F1).
        exists (new1 ++ new ++ new0). split; [ | split].
        -- rewrite L1, L, L0. now rewrite <- !app_assoc.
        -- apply single_submission_around; auto.
        -- intros _ _. rewrite !games_in_app, G by reflexivity.
           rewrite (no_submit_games new0), (no_submit_games new1) by auto.
           lia.
      * exists ([Sleep 30; Print GamePlayFailed] ++ new ++ new0).
        split; [ | split].
        -- simpl. rewrite L, L0. now rewrite <- !app_assoc.
        -- apply single_submission_around; auto. repeat constructor.
        -- intros _ _ _. simpl. eauto.
      * exists ([Sleep 30; Print (GameError e)] ++ new ++ new0).
        split; [ | split].
        -- simpl. rewrite L, L0. now rewrite <- !app_assoc.
        -- apply single_submission_around; auto. repeat constructor.
        -- intros _ _ _. simpl. eauto.
      * exists (new ++ new0). split; [ | split].
        -- rewrite L, L0. apply app_assoc.
        -- apply (single_submission_around new0 new []); auto.
        -- intros _ N. now elim N.
Qed.

Lemma submit_at_most_once_witness :
  (exists new,
      log (snd (play_game 6 1 185 "1" (running "stale" renewing_server)))
      = new ++ [] /\ single_submission new) /\
  (exists m older,
      log (snd (iteration 6 185 5%nat (running "tok" failing_server)))
      = Sleep 30 :: Print m :: older).
Proof.
  destruct (submit_at_most_once 6 185 5%nat) as [A B]. split.
  - apply (A 1 "1" (running "stale" renewing_server)
             (fst (play_game 6 1 185 "1" (running "stale" renewing_server)))).
    apply surjective_pairing.
  - destruct (B (running "tok" failing_server) _ _ (surjective_pairing _))
      as (new & L & _ & Back).
    change (log (running "tok" failing_server)) with (@nil event) in L.
    rewrite app_nil_r in L. subst new.
    destruct Back as (m & older & E).
    + vm_compute. discriminate.
    + vm_compute. discriminate.
    + vm_compute. reflexivity.
    + exists m, older. exact E.
Defined.

(** * The credential store (C7, C8) *)

(** What [_load_token] does, by what is on disk. *)
Lemma load_token_result s :
  fst (_load_token s) =
    match token_file s with
    | Missing | NotJson => Ret PNone
    | Undecodable => Raise UnicodeDecodeError
    | JsonText (PDict d) =>
        Ret (match dict_get "token" d with Some t => t | None => PNone end)
    | JsonText _ => Raise AttributeError
    end.
Proof.
  unfold _load_token, try_except, json_load_token_file, bind, emit, modify,
    gets. simpl.
  destruct (token_file s) as [ | | | v]; simpl; auto.
  destruct v; reflexivity.
Qed.

(** C7 fails on the code: a token file that holds a JSON document which is
    not an object (here the empty array) makes [data.get('token')] raise
    AttributeError, which [except (FileNotFoundError, json.JSONDecodeError)]
    lets through. *)
Theorem load_token_raises uid writable data srv :
  fst (_load_token (process_start uid (JsonText (PList [])) writable data srv))
  = Raise AttributeError.
Proof. reflexivity. Qed.

(** The error is not handled further up either: construction of the client
    fails and [main] ends with its critical-error message. *)
Lemma load_token_raises_in_main uid writable data srv fuel draws :
  let s' := snd (main fuel draws
                   (process_start uid (JsonText (PList [])) writable data srv))
  in log s' = [Print (CriticalError AttributeError); Opened token_path] /\
     sent s' = 0%nat.
Proof. split; reflexivity. Qed.

(** C8.  When [_load_token] returns a credential, saving it back leaves the
    token file mapping "token" to the same value, and loading again returns
    it again. *)
Theorem save_load_round_trip s t s1 r s2 :
  _load_token s = (Ret t, s1) ->
  t <> PNone ->
  _save_token t s1 = (r, s2) ->
  (exists d, token_file s2 = JsonText (PDict d) /\
             dict_get "token" d = Some t) /\
  fst (_load_token s2) = Ret t.
Proof.
  intros Hl Ht Hs.
  pose proof (load_token_result s) as R. rewrite Hl in R. simpl in R.
  apply load_token_run in Hl. subst s1.
  assert (exists d, token_file s2 = JsonText (PDict d) /\
                    dict_get "token" d = Some t) as (d & F & G).
  { unfold _save_token, try_except, json_dump_token_file, bind, emit, modify,
      gets in Hs. simpl in Hs.
    destruct (token_file_writable s).
    - inversion Hs; subst. simpl. eexists. split; reflexivity.
    - inversion Hs; subst. simpl.
      destruct (token_file s) as [ | | | v]; try discriminate;
        try (inversion R; congruence).
      destruct v as [ | | | | | d]; try discriminate.
      exists d. split; auto.
      destruct (dict_get "token" d); inversion R; congruence. }
  split; [eauto | ].
  rewrite load_token_result, F, G. reflexivity.
Qed.

Lemma save_load_round_trip_witness :
  let s := process_start (PInt 7)
             (JsonText (PDict [("token", PStr "tok"); ("note", PInt 1)]))
             true None plain_server in
  let s1 := snd (_load_token s) in
  let s2 := snd (_save_token (PStr "tok") s1) in
  token_file s2 = JsonText (PDict [("token", PStr "tok")]) /\
  fst (_load_token s2) = Ret (PStr "tok").
Proof.
  intros s s1 s2.
  destruct (save_load_round_trip s (PStr "tok") s1
              (fst (_save_token (PStr "tok") s1)) s2) as [_ H].
  - reflexivity.
  - discriminate.
  - reflexivity.
  - split; [reflexivity | exact H].
Defined.

(** * The gateway, one step at a time *)

Lemma send_supported method endpoint params data s :
  supported method ->
  send method endpoint params data s
  = exchange (lower method) endpoint (payload_of method params data) s.
Proof.
  unfold send, payload_of. intros [-> | ->]; reflexivity.
Qed.

Lemma send_supported_fun method endpoint params data :
  supported method ->
  send method endpoint params data
  = exchange (lower method) endpoint (payload_of method params data).
Proof.
  unfold send, payload_of. intros [-> | ->]; reflexivity.
Qed.

Lemma exchange_eq method endpoint payload s :
  exchange method endpoint payload s
  = (match answer method endpoint payload s with
     | Json body => Ret body
     | HttpError code => Raise (HTTPError code)
     | TransportError => Raise RequestException
     end, after_exchange method endpoint payload s).
Proof.
  unfold exchange, bind, gets, modify, emit, answer, after_exchange. cbn.
  destruct (server s (sent s) _); reflexivity.
Qed.

Lemma request_max fuel method endpoint params data rc s :
  3 <= rc ->
  _request (S fuel) method endpoint params data rc s
  = (Ret PNone, with_log (Print MaxRetries :: log s) s).
Proof.
  intros H. cbn [_request]. destruct (Z.leb_spec 3 rc); [reflexivity | lia].
Qed.

Lemma request_401 fuel method endpoint params data rc s :
  truthy (token s) = true -> rc < 3 -> supported method ->
  answer (lower method) endpoint (payload_of method params data) s
  = HttpError 401 ->
  _request (S fuel) method endpoint params data rc s
  = (update_token fuel ;;
     _request fuel method endpoint params data (rc + 1))
      (after_exchange (lower method) endpoint
         (payload_of method params data) s).
Proof.
  intros T Hrc Hm A. cbn [_request].
  destruct (Z.leb_spec 3 rc); [lia | ].
  unfold bind at 1. cbn [gets]. rewrite T. cbn [negb].
  unfold bind at 1. cbn [ret]. unfold try_except.
  rewrite send_supported, exchange_eq, A by assumption.
  reflexivity.
Qed.

Lemma request_settled fuel method endpoint params data rc s :
  truthy (token s) = true -> rc < 3 -> supported method ->
  answer (lower method) endpoint (payload_of method params data) s
  <> HttpError 401 ->
  _request (S fuel) method endpoint params data rc s
  = (Ret (body_of
            (answer (lower method) endpoint
               (payload_of method params data) s)),
     settled
       (answer (lower method) endpoint (payload_of method params data) s)
       (after_exchange (lower method) endpoint
          (payload_of method params data) s)).
Proof.
  intros T Hrc Hm A. cbn [_request].
  destruct (Z.leb_spec 3 rc); [lia | ].
  unfold bind at 1. cbn [gets]. rewrite T. cbn [negb].
  unfold bind at 1. cbn [ret]. unfold try_except.
  rewrite send_supported, exchange_eq by assumption.
  destruct (answer (lower method) endpoint (payload_of method params data) s)
    as [v | code | ]; try reflexivity.
  destruct (Z.eqb_spec code 401); [congruence | reflexivity].
Qed.

Lemma update_token_S fuel :
  update_token (S fuel)
  = try_except
      (emit (Opened "data.txt") ;;
       content <- gets data_txt ;;
       init_data_raw <- match content with
                        | Some text => ret (strip text)
                        | None => raise FileNotFoundError
                        end ;;
       response <- _request fuel "get" getToken
                     (Some [("initDataRaw", PStr init_data_raw);
                            ("platform", PStr "TOKO")])
                     None 0 ;;
       install_token response)
      (fun e => print (TokenUpdateFailed e) ;; ret false).
Proof. reflexivity. Qed.

Lemma status_is_OK_not_ok v s :
  ok_body v = false ->
  status_is_OK v s = (Ret false, s) \/
  (status_is_OK v s = (Raise AttributeError, s) /\
   truthy v = true /\ is_dict v = false).
Proof.
  intros Ok. destruct (status_is_OK v s) as [r s'] eqn:E.
  apply status_is_OK_run in E. destruct E as [-> [[-> _] | [-> H]]].
  - left. now rewrite Ok.
  - right. auto.
Qed.

Lemma book_result_failed v score multiplier s :
  ok_body v = false -> is_dict v = true \/ truthy v = false ->
  book_result v score multiplier s = (Ret false, s).
Proof.
  intros Ok D. unfold book_result, bind.
  destruct (status_is_OK_not_ok v s Ok) as [-> | [_ [T N]]]; auto.
  destruct D; congruence.
Qed.

(** * An answer whose status is not "OK" (C9) *)

(** The three operations, given what the gateway handed back. *)
Lemma update_token_on_not_ok fuel s text v s1 :
  data_txt s = Some text ->
  _request fuel "get" getToken (token_params text) None 0
    (with_log (Opened "data.txt" :: log s) s) = (Ret v, s1) ->
  ok_body v = false ->
  exists s', update_token (S fuel) s = (Ret false, s') /\ untouched s1 s'.
Proof.
  intros D R Ok. unfold token_params in *. rewrite update_token_S.
  unfold try_except, bind at 1 2 3. cbn [emit modify gets data_txt with_log].
  rewrite D. cbn [ret]. unfold bind at 1. rewrite R.
  unfold install_token, bind at 1.
  destruct (status_is_OK_not_ok v s1 Ok) as [-> | [-> _]].
  - eexists. split; [reflexivity | ]. repeat split.
  - eexists. split; [reflexivity | ]. repeat split.
Qed.

Lemma update_energy_on_not_ok fuel s v s1 :
  _request fuel "get" getUserGameInfo (energy_params (user_id s)) None 0 s
  = (Ret v, s1) ->
  ok_body v = false ->
  exists s', update_energy fuel s = (Ret false, s') /\ untouched s1 s'.
Proof.
  intros R Ok. unfold energy_params in *.
  unfold update_energy, try_except, bind at 1 2. cbn [gets]. rewrite R.
  unfold bind at 1.
  destruct (status_is_OK_not_ok v s1 Ok) as [-> | [-> _]].
  - eexists. split; [reflexivity | ]. repeat split.
  - eexists. split; [reflexivity | ]. repeat split.
Qed.

Lemma submit_on_not_ok fuel game_id score multiplier s v s1 :
  _request fuel "post" playGameGetReward None
    (Some (submit_payload (user_id s) game_id score multiplier)) 0 s
  = (Ret v, s1) ->
  ok_body v = false ->
  exists r,
    submit fuel game_id score multiplier s = (r, s1) /\
    r <> Ret true /\
    (is_dict v = true \/ truthy v = false -> r = Ret false).
Proof.
  intros R Ok. unfold submit, bind at 1 2. cbn [gets]. rewrite R.
  unfold book_result, bind at 1.
  destruct (status_is_OK_not_ok v s1 Ok) as [-> | [-> [Tv Dv]]].
  - eexists. split; [reflexivity | ]. split; [discriminate | auto].
  - eexists. split; [reflexivity | ]. split; [discriminate | ].
    intros [? | ?]; congruence.
Qed.

Lemma untouched_gateway e s s1 s' :
  gw_frame e s s1 -> untouched s1 s' -> stats s' = stats s.
Proof. intros [] (_ & _ & _ & St). congruence. Qed.

(** C9.  Whenever the gateway hands an operation a body whose status is not
    "OK", the operation reports failure and applies none of its updates:
    [update_token] and [update_energy] return False and leave the token,
    the authorization header, the token file and the statistics as the
    gateway left them, [play_game] returns False (or, for a body that is
    not an object, fails with the AttributeError of [response.get]) in the
    very state the gateway left.  The gateway hands back the body of the
    answer whenever the transport succeeds; with a credential held, the
    answer to the first request is handed back at once. *)
Theorem not_ok_is_failure fuel v :
  ok_body v = false ->
  (forall s text s1,
      data_txt s = Some text ->
      _request fuel "get" getToken (token_params text) None 0
        (with_log (Opened "data.txt" :: log s) s) = (Ret v, s1) ->
      exists s', update_token (S fuel) s = (Ret false, s') /\
                 untouched s1 s' /\ stats s' = stats s) /\
  (forall s s1,
      _request fuel "get" getUserGameInfo (energy_params (user_id s)) None 0 s
      = (Ret v, s1) ->
      exists s', update_energy fuel s = (Ret false, s') /\
                 untouched s1 s' /\ stats s' = stats s) /\
  (forall game_id score multiplier s0 s s1,
      (print (StartingGame score multiplier) ;; playtime fuel) s0
      = (Ret tt, s) ->
      _request fuel "post" playGameGetReward None
        (Some (submit_payload (user_id s) game_id score multiplier)) 0 s
      = (Ret v, s1) ->
      exists r,
        play_game fuel game_id score multiplier s0 = (r, s1) /\
        r <> Ret true /\ stats s1 = stats s /\
        (is_dict v = true \/ truthy v = false -> r = Ret false)) /\
  (forall s method endpoint params data,
      truthy (token s) = true -> supported method ->
      answer (lower method) endpoint (payload_of method params data) s
      = Json v ->
      _request (S fuel) method endpoint params data 0 s
      = (Ret v,
         after_exchange (lower method) endpoint
           (payload_of method params data) s)).
Proof.
  intros Ok. split; [ | split; [ | split]].
  - intros s text s1 D R.
    destruct (update_token_on_not_ok fuel s text v s1 D R Ok) as (s' & E & U).
    exists s'. split; [exact E | ]. split; [exact U | ].
    apply gw_request in R. eapply untouched_gateway in U; [ | exact R].
    exact U.
  - intros s s1 R.
    destruct (update_energy_on_not_ok fuel s v s1 R Ok) as (s' & E & U).
    exists s'. split; [exact E | ]. split; [exact U | ].
    apply gw_request in R. eapply untouched_gateway; eauto.
  - intros game_id score multiplier s0 s s1 P R.
    destruct (submit_on_not_ok fuel game_id score multiplier s v s1 R Ok)
      as (r & E & N & F).
    exists r. split; [ | split; [exact N | split; [ | exact F]]].
    + unfold play_game. run P; try discriminate.
      unfold bind. rewrite E0, P. exact E.
    + apply gw_request in R. now destruct R.
  - intros s method endpoint params data T Hm A.
    rewrite request_settled; auto; try lia; rewrite A; [reflexivity | ].
    discriminate.
Qed.

Lemma not_ok_is_failure_witness :
  let s0 := running "tok" refusing_server in
  let s := snd ((print (StartingGame 185 "1") ;; playtime 1) s0) in
  fst (update_token 2 s) = Ret false /\
  fst (update_energy 1 s) = Ret false /\
  fst (play_game 1 1 185 "1" s0) = Ret false /\
  stats (snd (play_game 1 1 185 "1" s0)) = stats s.
Proof.
  intros s0 s.
  destruct (not_ok_is_failure 1 (PDict [("status", PStr "ERROR")]))
    as (A & B & C & _).
  - reflexivity.
  - destruct (A s "user=%7B%7D"
                (snd (_request 1 "get" getToken (token_params "user=%7B%7D")
                        None 0 (with_log (Opened "data.txt" :: log s) s))))
      as (s' & E & _).
    + vm_compute. reflexivity.
    + vm_compute. reflexivity.
    + destruct (B s (snd (_request 1 "get" getUserGameInfo
                            (energy_params (user_id s)) None 0 s)))
        as (s'' & E' & _); [vm_compute; reflexivity | ].
      destruct (C 1 185 "1" s0 s
                  (snd (_request 1 "post" playGameGetReward None
                          (Some (submit_payload (user_id s) 1 185 "1")) 0 s)))
        as (r & E3 & _ & St & F).
      * vm_compute. reflexivity.
      * vm_compute. reflexivity.
      * rewrite E, E', E3. cbn [fst snd].
        split; [reflexivity | ]. split; [reflexivity | ].
        split; [apply F; now left | exact St].
Defined.

(** * A failed game leaves the counters alone (C10) *)

(** C10.  A pass through [play_game] that returns False leaves Total Games,
    Last Score, Multiplier and Total Points as they were.  It returns False
    whenever the gateway hands back nothing or a body whose status is not
    "OK"; the statistics then are what the refreshes during the playtime
    left, so only Energy and Last Update can differ from before. *)
Theorem failed_game_keeps_counters fuel game_id score multiplier :
  (forall s s',
      play_game fuel game_id score multiplier s = (Ret false, s') ->
      same_counters (stats s) (stats s')) /\
  (forall s s1 response s2,
      (print (StartingGame score multiplier) ;; playtime fuel) s
      = (Ret tt, s1) ->
      _request fuel "post" playGameGetReward None
        (Some (submit_payload (user_id s1) game_id score multiplier)) 0 s1
      = (Ret response, s2) ->
      ok_body response = false ->
      is_dict response = true \/ truthy response = false ->
      play_game fuel game_id score multiplier s = (Ret false, s2) /\
      stats s2 = stats s1 /\
      same_counters (stats s) (stats s2)).
Proof.
  assert (P1 : forall s s',
             play_game fuel game_id score multiplier s = (Ret false, s') ->
             same_counters (stats s) (stats s')).
  { intros s s' H. apply play_game_cases in H.
    destruct H as [[_ H] | (s1 & [] & H)]; [now elim (H false) | ].
    apply submit_run in H.
    destruct H as (new & last & olds & _ & _ & _ & _ & _ & H).
    destruct H as [(_ & _ & St & _) | (t & req & v & _ & _ & _ & _ & _ & _ & H)].
    - now rewrite St.
    - destruct H; discriminate. }
  split; [exact P1 | ].
  intros s s1 response s2 P R Ok D.
  assert (E : play_game fuel game_id score multiplier s = (Ret false, s2)).
  { unfold play_game. run P; try discriminate.
    unfold bind at 1. rewrite E. unfold bind at 1. rewrite P.
    unfold submit, bind at 1 2. cbn [gets]. rewrite R.
    now apply book_result_failed. }
  split; [exact E | ]. split; [ | now apply P1].
  apply gw_request in R. now destruct R.
Qed.

Lemma failed_game_keeps_counters_witness :
  let s := running "tok" failing_server in
  let s' := snd (play_game 1 1 185 "1" s) in
  fst (play_game 1 1 185 "1" s) = Ret false /\
  Energy (stats s') = PInt 5 /\
  Total_Games (stats s') = 0 /\ Last_Score (stats s') = None /\
  Multiplier (stats s') = None /\ Total_Points (stats s') = 0.
Proof.
  intros s s'.
  destruct (failed_game_keeps_counters 1 1 185 "1") as [A B].
  destruct (B s (snd ((print (StartingGame 185 "1") ;; playtime 1) s))
              PNone s') as (E & _ & _).
  - vm_compute. reflexivity.
  - vm_compute. reflexivity.
  - reflexivity.
  - right. reflexivity.
  - destruct (A s s' E) as (G & L & M & P).
    rewrite E. split; [reflexivity | ].
    split; [vm_compute; reflexivity | ]. auto.
Defined.

(** * Re-authentication without a bound (C4) *)

Lemma send_401 method endpoint params data s r s' :
  supported method ->
  (forall k req, server s k req = HttpError 401) ->
  send method endpoint params data s = (r, s') ->
  r = Raise (HTTPError 401) /\ data_txt s' = data_txt s /\
  token s' = token s /\ server s' = server s /\
  refreshes (log s') = refreshes (log s).
Proof.
  intros Hm A. unfold send.
  assert (X : forall m payload,
             exchange m endpoint payload s = (r, s') ->
             r = Raise (HTTPError 401) /\ data_txt s' = data_txt s /\
             token s' = token s /\ server s' = server s /\
             refreshes (log s') = refreshes (log s)).
  { intros m payload H. apply exchange_run in H. cbv zeta in H.
    destruct H as [-> ->]. rewrite A. repeat split. }
  destruct Hm as [-> | ->].
  - rewrite String.eqb_refl. apply X.
  - change (String.eqb "post" "get") with false. cbv iota.
    rewrite String.eqb_refl. apply X.
Qed.

Lemma bind_diverges {A B} (P : Client -> Prop) (c : M A) (k : A -> M B)
    s r s' :
  (forall r1 s1, c s = (r1, s1) -> r1 = Diverge /\ P s1) ->
  bind c k s = (r, s') -> r = Diverge /\ P s'.
Proof.
  intros Hc H. run H.
  - apply Hc in E. destruct E; discriminate.
  - apply Hc in E. destruct E; discriminate.
  - apply Hc in E. subst. tauto.
Qed.

Lemma try_diverges {A} (P : Client -> Prop) (c : M A) (h : exn -> M A)
    s r s' :
  (forall r1 s1, c s = (r1, s1) -> r1 = Diverge /\ P s1) ->
  try_except c h s = (r, s') -> r = Diverge /\ P s'.
Proof.
  intros Hc H. run H.
  - apply Hc in E. destruct E; discriminate.
  - apply Hc in E. destruct E; discriminate.
  - apply Hc in E. subst. tauto.
Qed.

(** From a hopeless state neither gateway function comes back, whatever the
    depth allowed, and the number of refreshes begun grows with the depth. *)
Lemma runaway fuel :
  (forall s method endpoint params data rc r s',
      hopeless s -> rc < 3 -> supported method ->
      _request fuel method endpoint params data rc s = (r, s') ->
      r = Diverge /\
      (refreshes (log s) + Nat.div2 fuel <= refreshes (log s'))%nat)
  /\
  (forall s r s',
      hopeless s ->
      update_token fuel s = (r, s') ->
      r = Diverge /\
      (refreshes (log s) + Nat.div2 (S fuel) <= refreshes (log s'))%nat).
Proof.
  induction fuel as [| fuel [IHr IHu]].
  - split; intros; match goal with H : _ = (_, _) |- _ => inversion H end;
      subst; cbn; split; auto; lia.
  - split.
    + intros s method endpoint params data rc r s' I Hrc Hm H.
      cbn [_request] in H.
      destruct (Z.leb_spec 3 rc); [lia | ].
      run H; [ | inversion E | inversion E ].
      inversion E; subst; clear E.
      destruct (truthy (token s0)) eqn:T; cbn [negb] in H.
      * destruct I as [D [F | A]]; [congruence | ].
        run_as H u s1 E; [ | inversion E | inversion E ].
        inversion E; subst; clear E.
        run_as H v s2 E.
        -- apply (send_401 _ _ _ _ _ _ _ Hm A) in E.
           destruct E as [E _]. discriminate.
        -- apply (send_401 _ _ _ _ _ _ _ Hm A) in E.
           destruct E as (E & D2 & T2 & S2 & R2).
           inversion E; subst e. change (401 =? 401) with true in H.
           cbv iota in H.
           assert (I2 : hopeless s2).
           { split; [now rewrite D2 | right; now rewrite S2]. }
           rewrite <- R2.
           eapply (bind_diverges
                     (fun x => (refreshes (log s2) + Nat.div2 (S fuel)
                                <= refreshes (log x))%nat));
             [ | exact H].
           intros r1 s3 E3. now apply IHu.
        -- apply (send_401 _ _ _ _ _ _ _ Hm A) in E.
           destruct E as [E _]. discriminate.
      * eapply (bind_diverges
                  (fun x => (refreshes (log s0) + Nat.div2 (S fuel)
                             <= refreshes (log x))%nat));
          [ | exact H].
        intros r1 s1 H1.
        eapply (bind_diverges
                  (fun x => (refreshes (log s0) + Nat.div2 (S fuel)
                             <= refreshes (log x))%nat));
          [ | exact H1].
        intros r2 s2 H2. now apply IHu.
    + intros s r s' I H. cbn [update_token] in H.
      destruct I as [[text D] I].
      eapply (try_diverges
                (fun x => (refreshes (log s) + Nat.div2 (S (S fuel))
                           <= refreshes (log x))%nat));
        [ | exact H].
      intros r1 s1 H1.
      run_as H1 u s2 E; [ | inversion E | inversion E ].
      inversion E; subst; clear E.
      run_as H1 c s3 E; [ | inversion E | inversion E ].
      inversion E; subst; clear E. cbn [data_txt with_log] in H1.
      rewrite D in H1.
      run_as H1 c s3 E; [ | inversion E | inversion E ].
      inversion E; subst; clear E.
      eapply (bind_diverges
                (fun x => (refreshes (log s) + Nat.div2 (S (S fuel))
                           <= refreshes (log x))%nat));
        [ | exact H1].
      intros r2 s2 H2.
      apply IHr in H2; [ | | lia | now left ].
      * destruct H2 as [-> H2]. split; auto.
        change (refreshes (log (with_log (Opened "data.txt" :: log s) s)))
          with (S (refreshes (log s))) in H2.
        cbn [Nat.div2]. lia.
      * split; [exists text; exact D | exact I].
Qed.

Lemma update_energy_runaway fuel s r s' :
  hopeless s ->
  update_energy fuel s = (r, s') ->
  r = Diverge /\ (refreshes (log s) + Nat.div2 fuel <= refreshes (log s'))%nat.
Proof.
  intros I H. unfold update_energy in H.
  eapply (try_diverges
            (fun x => (refreshes (log s) + Nat.div2 fuel
                       <= refreshes (log x))%nat));
    [ | exact H].
  intros r1 s1 H1.
  run_as H1 u s2 E; [ | inversion E | inversion E ].
  inversion E; subst; clear E.
  eapply (bind_diverges
            (fun x => (refreshes (log s2) + Nat.div2 fuel
                       <= refreshes (log x))%nat));
    [ | exact H1].
  intros r2 s3 H2.
  destruct (runaway fuel) as [R _].
  eapply R; eauto; [lia | now left].
Qed.

(** C4 fails on the code.  With no credential held and [data.txt] readable,
    the first call into the gateway ([update_energy] in [__init__]) never
    comes back, whatever depth of recursion is allowed: [_request] calls
    [update_token] before it sends anything, and [update_token] calls
    [_request] with a fresh retry count while the token is still missing.
    The number of refreshes begun is at least half the depth allowed, so no
    bound of three holds, and the whole of [main] is stuck in it. *)
Theorem reauth_without_bound uid file writable text srv fuel draws :
  let s := process_start uid file writable (Some text) srv in
  fst (update_energy fuel s) = Diverge /\
  (Nat.div2 fuel <= refreshes (log (snd (update_energy fuel s))))%nat /\
  fst (main fuel draws (process_start uid Missing writable (Some text) srv))
  = Diverge.
Proof.
  intros s.
  assert (I : hopeless s) by (split; [exists text; reflexivity | now left]).
  destruct (update_energy fuel s) as [r s'] eqn:E.
  apply update_energy_runaway in E; auto. destruct E as [-> E].
  split; [reflexivity | ]. split; [exact E | ].
  set (s0 := process_start uid Missing writable (Some text) srv).
  destruct (main fuel draws s0) as [rm sm] eqn:H. cbn [fst].
  unfold main in H.
  eapply (try_diverges (fun _ => True)) in H; [tauto | ].
  intros r1 s1 H1.
  eapply (bind_diverges (fun _ => True)); [ | exact H1].
  intros r2 s2 H2. unfold TokoplayAPI_init in H2.
  pose proof (load_token_result s0) as R.
  run_as H2 tok s3 E0; rewrite E0 in R; try discriminate.
  inversion R; subst tok; clear R.
  apply load_token_run in E0. subst s3.
  run_as H2 u s4 E1; [ | inversion E1 | inversion E1 ].
  inversion E1; subst; clear E1.
  run_as H2 u s5 E1; try discriminate.
  inversion E1; subst; clear E1.
  run_as H2 u s6 E1; [ | inversion E1 | inversion E1 ].
  inversion E1; subst; clear E1.
  eapply (bind_diverges (fun _ => True)); [ | exact H2].
  intros r3 s7 H3. apply update_energy_runaway in H3; [tauto | ].
  split; [exists text; reflexivity | now left].
Qed.

(** The same with a credential that is held and rejected by a server that
    answers 401 to the token exchange too. *)
Lemma reauth_without_bound_rejected fuel :
  let s := running "stale" rejecting_server in
  fst (update_energy fuel s) = Diverge /\
  (Nat.div2 fuel <= refreshes (log (snd (update_energy fuel s))))%nat.
Proof.
  intros s.
  assert (I : hopeless s).
  { split; [eexists; reflexivity | right; reflexivity]. }
  destruct (update_energy fuel s) as [r s'] eqn:E.
  apply update_energy_runaway in E; [ | exact I]. destruct E as [-> E].
  split; [reflexivity | exact E].
Qed.

(** * One 401, one refresh, one retry (C3) *)

Lemma install_token_run v s r s' :
  install_token v s = (r, s') ->
  r <> Diverge /\
  server s' = server s /\ sent s' = sent s /\ data_txt s' = data_txt s /\
  refreshes (log s') = refreshes (log s) /\
  (token s' = token s \/ issued_token v = Some (token s')).
Proof.
  unfold install_token, issued_token. intros H. run_as H ok s1 E.
  - apply status_is_OK_run in E. destruct E as [-> [[E D] | [E _]]];
      [ | discriminate].
    inversion E; subst ok; clear E.
    destruct (ok_body v) eqn:Ok.
    + apply ok_body_dict in Ok. destruct v as [ | | | | | d]; try discriminate.
      unfold data_of.
      unfold bind, py_getitem, modify, _save_token, json_dump_token_file,
        try_except, bind, emit, modify, gets, print, emit, modify in H.
      destruct (dict_get "data" d) as [dv | ]; cbn in H.
      * destruct dv as [ | | | | | dd]; cbn in H;
          try (inversion H; subst; repeat split; auto; discriminate).
        destruct (dict_get "token" dd) as [t | ]; cbn in H;
          try (inversion H; subst; repeat split; auto; discriminate).
        destruct (token_file_writable s); cbn in H;
          inversion H; subst; cbn; repeat split; auto; discriminate.
      * inversion H; subst; repeat split; auto; discriminate.
    + inversion H; subst. repeat split; auto; discriminate.
  - apply status_is_OK_run in E. destruct E as [-> _]. subst.
    repeat split; auto; discriminate.
  - apply status_is_OK_run in E. destruct E as [_ [[E _] | [E _]]]; discriminate.
Qed.

Lemma settled_facts out s :
  token (settled out s) = token s /\ server (settled out s) = server s /\
  sent (settled out s) = sent s /\ data_txt (settled out s) = data_txt s /\
  refreshes (log (settled out s)) = refreshes (log s) /\
  authorization (settled out s) = authorization s /\
  clock (settled out s) = clock s.
Proof. destruct out; repeat split. Qed.

Lemma update_token_once fuel s r s' :
  credentials_hold s -> exchange_accepted s ->
  update_token (S (S fuel)) s = (r, s') ->
  (exists b, r = Ret b) /\ credentials_hold s' /\
  (sent s' <= S (sent s))%nat /\
  refreshes (log s') = S (refreshes (log s)).
Proof.
  intros [T Iss] X H. rewrite update_token_S in H.
  set (Q := fun x : Client =>
              credentials_hold x /\ (sent x <= S (sent s))%nat /\
              refreshes (log x) = S (refreshes (log s))).
  assert (B : forall rb sb,
             (emit (Opened "data.txt") ;;
              content <- gets data_txt ;;
              init_data_raw <- match content with
                               | Some text => ret (strip text)
                               | None => raise FileNotFoundError
                               end ;;
              response <- _request (S fuel) "get" getToken
                            (Some [("initDataRaw", PStr init_data_raw);
                                   ("platform", PStr "TOKO")])
                            None 0 ;;
              install_token response) s = (rb, sb) ->
             rb <> Diverge /\ Q sb).
  { intros rb sb H1.
    run_as H1 u s1 E; [ | inversion E | inversion E ].
    inversion E; subst; clear E.
    run_as H1 c s2 E; [ | inversion E | inversion E ].
    inversion E; subst; clear E. cbn [data_txt with_log] in H1.
    destruct (data_txt s) as [text | ] eqn:D.
    - run_as H1 c s2 E; [ | inversion E | inversion E ].
      inversion E; subst; clear E.
      specialize (X text D).
      unfold bind at 1 in H1.
      rewrite request_settled in H1; [ | exact T | lia | now left | exact X ].
      change (answer (lower "get") getToken
                (payload_of "get"
                   (Some [("initDataRaw", PStr (strip text));
                          ("platform", PStr "TOKO")]) None)
                (with_log (Opened "data.txt" :: log s) s))
        with (answer "get" getToken (token_params text) s) in H1.
      set (out := answer "get" getToken (token_params text) s) in *.
      apply install_token_run in H1.
      destruct H1 as (ND & Sv & Sn & Dt & Rf & Tk).
      destruct (settled_facts out
                  (after_exchange (lower "get") getToken
                     (payload_of "get"
                        (Some [("initDataRaw", PStr (strip text));
                               ("platform", PStr "TOKO")]) None)
                     (with_log (Opened "data.txt" :: log s) s)))
        as (T2 & S2 & N2 & D2 & R2 & _).
      split; [exact ND | ]. repeat split.
      + destruct Tk as [Tk | Tk].
        * rewrite Tk, T2. exact T.
        * destruct out as [v | | ] eqn:Out; try discriminate.
          eapply Iss; [ | exact Tk]. exact Out.
      + rewrite Sv, S2. exact Iss.
      + rewrite Sn, N2. cbn. lia.
      + rewrite Rf, R2. reflexivity.
    - run_as H1 c s2 E; try discriminate. inversion E; subst.
      split; [discriminate | ]. repeat split; auto. }
  run_as H b s1 E.
  - apply B in E. subst. destruct E as [_ E]. split; eauto.
  - apply B in E. destruct E as [_ (C & N & R)].
    inversion H; subst. split; eauto.
  - apply B in E. destruct E as [E _]. congruence.
Qed.

Lemma refreshes_app l1 l2 :
  refreshes (l1 ++ l2) = (refreshes l1 + refreshes l2)%nat.
Proof. unfold refreshes. now rewrite filter_app, length_app. Qed.

(** One turn of the 401 handler: the request that was refused, one completed
    refresh, and the same call again with the next retry count. *)
Lemma retry_step fuel method e params data rc s r s' :
  credentials_hold s -> supported method -> rc < 3 ->
  answer (lower method) e (payload_of method params data) s = HttpError 401 ->
  exchange_accepted
    (after_exchange (lower method) e (payload_of method params data) s) ->
  _request (S (S (S fuel))) method e params data rc s = (r, s') ->
  exists s1 refresh,
    credentials_hold s1 /\ server s1 = server s /\ data_txt s1 = data_txt s /\
    clock s1 = clock s /\
    (sent s < sent s1)%nat /\
    log s1 = refresh
             ++ Http (clock s)
                  (mkRequest (lower method) e (authorization s)
                     (payload_of method params data))
                  (HttpError 401)
             :: log s /\
    refreshes refresh = 1%nat /\
    Forall (gw_event (clock s) getToken) refresh /\
    _request (S (S fuel)) method e params data (rc + 1) s1 = (r, s').
Proof.
  intros C Hm Hrc A X H.
  rewrite request_401 in H by (auto; apply C).
  set (s0 := after_exchange (lower method) e
               (payload_of method params data) s) in *.
  assert (C0 : credentials_hold s0) by exact C.
  run_as H b s1 U.
  - pose proof (gw_update_token _ _ _ _ U) as [].
    apply update_token_once in U; auto.
    destruct U as (_ & C1 & N1 & R1).
    destruct gf_log0 as (refresh & L & F).
    exists s1, refresh. repeat split; auto; try apply C1.
    + rewrite L. unfold s0, after_exchange.
      fold (answer (lower method) e (payload_of method params data) s).
      now rewrite A.
    + rewrite L, refreshes_app in R1. lia.
  - exfalso. eapply update_token_no_raise; eauto.
  - apply update_token_once in U; auto.
    destruct U as ((b & U) & _). discriminate.
Qed.

(** C3.  For a call made while a credential is held: if its first answer is
    a 401 and no later request is answered so, the log shows the refused
    request, then exactly one token refresh, then the same call once more,
    whose answer decides the result, and nothing but a console message
    after it.  If every request to the call's endpoint is answered 401 while
    token exchanges are not, the call is made three times, with three
    refreshes, and ends with the max-retries message and None. *)
Theorem one_refresh_one_retry fuel method e params data s r s' :
  credentials_hold s -> supported method ->
  (answer (lower method) e (payload_of method params data) s = HttpError 401 ->
   (forall k req, (sent s < k)%nat -> server s k req <> HttpError 401) ->
   _request (S (S (S fuel))) method e params data 0 s = (r, s') ->
   exists refresh auth2 out2 tail,
     log s' = tail
              ++ Http (clock s)
                   (mkRequest (lower method) e auth2
                      (payload_of method params data)) out2
              :: refresh
              ++ Http (clock s)
                   (mkRequest (lower method) e (authorization s)
                      (payload_of method params data)) (HttpError 401)
              :: log s /\
     refreshes refresh = 1%nat /\
     Forall (gw_event (clock s) getToken) refresh /\
     out2 <> HttpError 401 /\ r = Ret (body_of out2) /\
     Forall is_print tail) /\
  (e <> getToken ->
   (forall k req, req_endpoint req = e -> server s k req = HttpError 401) ->
   (forall k req, req_endpoint req = getToken ->
                  server s k req <> HttpError 401) ->
   _request (S (S (S (S (S fuel))))) method e params data 0 s = (r, s') ->
   r = Ret PNone /\
   exists new,
     log s' = Print MaxRetries :: new ++ log s /\
     refreshes new = 3%nat /\
     List.length (calls e new) = 3%nat /\
     Forall answered_401 (calls e new)).
Proof.
  intros C Hm. split.
  - intros A Later H.
    apply retry_step in H; auto; try lia.
    2:{ intros text _. apply Later. cbn. lia. }
    destruct H as (s1 & refresh & C1 & Sv & Dt & Ck & Sn & L & R & F & H).
    assert (A2 : answer (lower method) e (payload_of method params data) s1
                 <> HttpError 401).
    { unfold answer. rewrite Sv. now apply Later. }
    rewrite request_settled in H by (auto; try apply C1; lia).
    inversion H; subst r s'; clear H.
    set (out2 := answer (lower method) e (payload_of method params data) s1)
      in *.
    exists refresh, (authorization s1), out2.
    exists (match out2 with
            | Json _ => []
            | HttpError code => [Print (HttpErrorMsg code)]
            | TransportError => [Print (RequestErrorMsg RequestException)]
            end).
    repeat split; auto.
    + unfold settled, after_exchange.
      fold (answer (lower method) e (payload_of method params data) s1).
      fold out2. destruct out2; cbn; rewrite L, Ck; reflexivity.
    + destruct out2; repeat constructor.
  - intros Ne All Tok H.
    assert (Step : forall fuel' rc s0 r0 s0',
               credentials_hold s0 -> server s0 = server s -> rc < 3 ->
               _request (S (S (S fuel'))) method e params data rc s0
               = (r0, s0') ->
               exists s1 new,
                 credentials_hold s1 /\ server s1 = server s /\
                 log s1 = new ++ log s0 /\ refreshes new = 1%nat /\
                 List.length (calls e new) = 1%nat /\
                 Forall answered_401 (calls e new) /\
                 _request (S (S fuel')) method e params data (rc + 1) s1
                 = (r0, s0')).
    { intros fuel' rc s0 r0 s0' C0 Sv0 Hrc H0.
      apply retry_step in H0; auto.
      - destruct H0 as (s1 & refresh & C1 & Sv1 & _ & _ & _ & L & R & F & H0).
        exists s1, (refresh ++ [Http (clock s0)
                                  (mkRequest (lower method) e
                                     (authorization s0)
                                     (payload_of method params data))
                                  (HttpError 401)]).
        rewrite calls_app, (calls_gw_token e _ _ Ne F), refreshes_app, R.
        cbn [app calls filter to_endpoint req_endpoint].
        rewrite String.eqb_refl.
        split; [exact C1 | ]. split; [congruence | ].
        split; [rewrite L, <- app_assoc; reflexivity | ].
        split; [reflexivity | ]. split; [reflexivity | ].
        split; [ | exact H0]. repeat constructor. red. eauto.
      - unfold answer. rewrite Sv0. now apply All.
      - intros text _. unfold answer. cbn [server after_exchange with_log
                                             with_sent].
        rewrite Sv0. now apply Tok. }
    apply Step in H; auto; try lia.
    destruct H as (s1 & n1 & C1 & Sv1 & L1 & R1 & K1 & F1 & H).
    apply Step in H; auto; try lia.
    destruct H as (s2 & n2 & C2 & Sv2 & L2 & R2 & K2 & F2 & H).
    apply Step in H; auto; try lia.
    destruct H as (s3 & n3 & C3 & Sv3 & L3 & R3 & K3 & F3 & H).
    rewrite request_max in H by lia. inversion H; subst r s'; clear H.
    split; auto. exists (n3 ++ n2 ++ n1).
    rewrite !calls_app, !refreshes_app, !length_app, R1, R2, R3, K1, K2, K3.
    repeat split; auto.
    + cbn. rewrite L3, L2, L1, <- !app_assoc. reflexivity.
    + rewrite !Forall_app. auto.
Qed.

Lemma plain_server_tokens k req v t :
  plain_server k req = Json v -> issued_token v = Some t -> truthy t = true.
Proof.
  unfold plain_server.
  destruct (String.eqb (req_endpoint req) getUserGameInfo);
    [ | destruct (String.eqb (req_endpoint req) playGameGetReward)];
    intros H; inversion H; subst; cbn; intros I; inversion I; reflexivity.
Qed.

Lemma plain_server_no_401 k req : plain_server k req <> HttpError 401.
Proof.
  unfold plain_server.
  destruct (String.eqb (req_endpoint req) getUserGameInfo);
    [ | destruct (String.eqb (req_endpoint req) playGameGetReward)];
    discriminate.
Qed.

Lemma one_refresh_one_retry_witness :
  (exists refresh auth2 out2 tail,
      log (snd (_request 3 "get" getUserGameInfo (energy_params (PInt 7))
                  None 0 (running "tok" expiring_server)))
      = tail
        ++ Http 0 (mkRequest "get" getUserGameInfo auth2
                     (energy_params (PInt 7))) out2
        :: refresh
        ++ [Http 0 (mkRequest "get" getUserGameInfo (Some (PStr "tok"))
                      (energy_params (PInt 7))) (HttpError 401)] /\
      refreshes refresh = 1%nat /\ out2 <> HttpError 401) /\
  fst (_request 5 "get" getUserGameInfo (energy_params (PInt 7)) None 0
         (running "tok" stubborn_server)) = Ret PNone /\
  hd_error (log (snd (_request 5 "get" getUserGameInfo
                        (energy_params (PInt 7)) None 0
                        (running "tok" stubborn_server))))
  = Some (Print MaxRetries).
Proof.
  split.
  - destruct (one_refresh_one_retry 0 "get" getUserGameInfo
                (energy_params (PInt 7)) None
                (running "tok" expiring_server)
                (fst (_request 3 "get" getUserGameInfo
                        (energy_params (PInt 7)) None 0
                        (running "tok" expiring_server)))
                (snd (_request 3 "get" getUserGameInfo
                        (energy_params (PInt 7)) None 0
                        (running "tok" expiring_server))))
      as [P1 _].
    + split; [reflexivity | ].
      intros [ | k] req v t; cbn [server running expiring_server];
        [discriminate | apply plain_server_tokens].
    + now left.
    + destruct P1 as (refresh & auth2 & out2 & tail & L & R & _ & N & _).
      * reflexivity.
      * intros [ | k] req Hk; [lia | ].
        cbn [server running expiring_server]. apply plain_server_no_401.
      * apply surjective_pairing.
      * exists refresh, auth2, out2, tail. auto.
  - destruct (one_refresh_one_retry 0 "get" getUserGameInfo
                (energy_params (PInt 7)) None
                (running "tok" stubborn_server)
                (fst (_request 5 "get" getUserGameInfo
                        (energy_params (PInt 7)) None 0
                        (running "tok" stubborn_server)))
                (snd (_request 5 "get" getUserGameInfo
                        (energy_params (PInt 7)) None 0
                        (running "tok" stubborn_server))))
      as [_ P2].
    + split; [reflexivity | ].
      intros k req v t. cbn [server running]. unfold stubborn_server.
      destruct (String.eqb (req_endpoint req) getToken); [ | discriminate].
      intros H; inversion H; subst; cbn; intros I; inversion I; reflexivity.
    + now left.
    + destruct P2 as (R & new & L & _).
      * discriminate.
      * intros k req E. cbn [server running]. unfold stubborn_server.
        rewrite E. reflexivity.
      * intros k req E. cbn [server running]. unfold stubborn_server.
        rewrite E. discriminate.
      * apply surjective_pairing.
      * split; [exact R | ]. rewrite L. reflexivity.
Defined.

(** * Waiting for energy (C6) *)

Lemma poll_frame_refl s : poll_frame s s.
Proof. constructor; auto. exists []. auto. Qed.

Lemma poll_frame_trans a b c :
  poll_frame a b -> poll_frame b c -> poll_frame a c.
Proof.
  intros [] []. constructor; try congruence.
  destruct pf_log0 as (n1 & L1 & F1), pf_log1 as (n2 & L2 & F2).
  exists (n2 ++ n1). split.
  - rewrite L2, L1. apply app_assoc.
  - apply Forall_app. split; auto. rewrite <- pf_clock0. exact F2.
Qed.

Lemma gw_frame_poll s s' : gw_frame getUserGameInfo s s' -> poll_frame s s'.
Proof. intros []. constructor; auto. Qed.

Lemma poll_update_energy fuel : preserves poll_frame (update_energy fuel).
Proof.
  unfold update_energy. pres poll_frame_refl poll_frame_trans.
  - eapply preserves_weaken; [ | apply gw_request]. apply gw_frame_poll.
  - apply preserves_modify. intros s. constructor; auto. exists []. auto.
  - apply preserves_modify. intros s. constructor; auto.
    exists [Print (EnergyUpdateFailed e)]. split; auto.
    repeat constructor.
Qed.

(** A call that still has retries left and comes back has sent a request to
    its endpoint. *)
Lemma request_sends fuel method e params data rc s r s' :
  rc < 3 -> supported method ->
  _request fuel method e params data rc s = (r, s') ->
  r <> Diverge ->
  exists new req out,
    log s' = new ++ log s /\ req_endpoint req = e /\
    In (Http (clock s) req out) new.
Proof.
  intros Hrc Hm H ND. destruct fuel as [| fuel].
  { inversion H; subst. now elim ND. }
  cbn [_request] in H. destruct (Z.leb_spec 3 rc); [lia | ].
  run_as H tok s0 E; [ | inversion E | inversion E ].
  inversion E; subst; clear E.
  run_as H u s1 E.
  2:{ exfalso. destruct (negb (truthy (token s0))); [ | discriminate].
      run_as E b s2 E2; try discriminate.
      eapply update_token_no_raise; eauto. }
  2:{ now elim ND. }
  assert (G1 : gw_frame e s0 s1).
  { destruct (negb (truthy (token s0))).
    - run_as E b s2 E2; try discriminate. inversion E; subst.
      apply gw_frame_token. eapply gw_update_token; eauto.
    - inversion E; subst. apply gw_frame_refl. }
  destruct G1. destruct gf_log0 as (new1 & L1 & _).
  rewrite send_supported_fun in H by assumption.
  set (m := lower method) in *. set (pl := payload_of method params data) in *.
  assert (Ex : log (after_exchange m e pl s1)
               = [Http (clock s0) (mkRequest m e (authorization s1) pl)
                    (answer m e pl s1)] ++ new1 ++ log s0).
  { unfold after_exchange, answer. cbn. now rewrite L1, gf_clock0. }
  run_as H v s2 E2.
  - rewrite exchange_eq in E2. inversion E2; subst.
    exists ([Http (clock s0) (mkRequest m e (authorization s1) pl)
               (answer m e pl s1)] ++ new1),
      (mkRequest m e (authorization s1) pl), (answer m e pl s1).
    split; [rewrite Ex, app_assoc; reflexivity | ].
    split; [reflexivity | ]. left. reflexivity.
  - rewrite exchange_eq in E2. inversion E2; subst s2.
    assert (G2 : gw_frame e (after_exchange m e pl s1) s').
    { revert H. generalize (after_exchange m e pl s1). intros x H.
      assert (P : preserves (gw_frame e)
                    (match e0 with
                     | HTTPError status_code =>
                         if status_code =? 401 then
                           update_token fuel ;;
                           _request fuel method e params data (rc + 1)
                         else print (HttpErrorMsg status_code) ;; ret PNone
                     | _ => print (RequestErrorMsg e0) ;; ret PNone
                     end)).
      { pres (gw_frame_refl e) (gw_frame_trans e);
          try apply gw_print; try apply gw_request.
        eapply preserves_weaken; [ | apply gw_update_token].
        apply gw_frame_token. }
      eapply P; eauto. }
    destruct G2. destruct gf_log0 as (new2 & L2 & _).
    exists (new2
            ++ [Http (clock s0) (mkRequest m e (authorization s1) pl)
                  (answer m e pl s1)] ++ new1),
      (mkRequest m e (authorization s1) pl), (answer m e pl s1).
    split; [rewrite L2, Ex, !app_assoc; reflexivity | ].
    split; [reflexivity | ].
    apply in_or_app. right. left. reflexivity.
  - rewrite exchange_eq in E2. inversion E2.
    destruct (answer m e pl s1); discriminate.
Qed.

Lemma update_energy_sends fuel s r s' :
  update_energy fuel s = (r, s') ->
  r <> Diverge ->
  exists new req out,
    log s' = new ++ log s /\ req_endpoint req = getUserGameInfo /\
    In (Http (clock s) req out) new.
Proof.
  intros H ND. unfold update_energy in H.
  assert (B : forall rb sb,
             (uid <- gets user_id ;;
              response <- _request fuel "get" getUserGameInfo
                            (Some [("userId", uid); ("gameId", PInt 1);
                                   ("platform", PStr "TOKO")]) None 0 ;;
              ok <- status_is_OK response ;;
              if ok then
                d <- py_getitem response "data" ;;
                e <- py_get d "userCurrentEnergy" (PInt 0) ;;
                now <- gets clock ;;
                modify (fun s => with_stats (set_energy e now (stats s)) s) ;;
                ret true
              else ret false) s = (rb, sb) ->
             rb <> Diverge ->
             exists new req out,
               log sb = new ++ log s /\ req_endpoint req = getUserGameInfo /\
               In (Http (clock s) req out) new).
  { intros rb sb H1 ND1.
    run_as H1 uid s1 E; [ | inversion E | inversion E ].
    inversion E; subst; clear E.
    run_as H1 resp s2 E.
    - apply request_sends in E; [ | lia | now left | discriminate].
      destruct E as (new & req & out & L & Ep & I).
      assert (L2 : log sb = log s2).
      { assert (P : preserves (fun a b => log b = log a)
                      (ok <- status_is_OK resp ;;
                       if ok then
                         d <- py_getitem resp "data" ;;
                         e <- py_get d "userCurrentEnergy" (PInt 0) ;;
                         now <- gets clock ;;
                         modify (fun s =>
                           with_stats (set_energy e now (stats s)) s) ;;
                         ret true
                       else ret false)).
        { assert (Rf : forall x : Client, log x = log x) by reflexivity.
          assert (Tr : forall a b c : Client,
                     log b = log a -> log c = log b -> log c = log a)
            by (intros; congruence).
          pres Rf Tr. apply preserves_modify. reflexivity. }
        eapply P; eauto. }
      exists new, req, out. rewrite L2. auto.
    - exfalso. eapply request_no_raise; eauto.
    - subst. now elim ND1. }
  run_as H b s1 E.
  - subst. eapply B; eauto.
  - apply B in E; [ | discriminate].
    destruct E as (new & req & out & L & Ep & I).
    inversion H; subst.
    exists (Print (EnergyUpdateFailed e) :: new), req, out. cbn.
    rewrite L. auto.
  - subst. now elim ND.
Qed.

Lemma sleep_run n s r s' :
  sleep n s = (r, s') ->
  r = Ret tt /\ s' = with_log (Sleep n :: log s) (with_clock (clock s + n) s).
Proof. intros H. inversion H. auto. Qed.

Lemma energy_gt0_run s r s' :
  energy_gt0 s = (r, s') ->
  s' = s /\
  match py_gt0 (Energy (stats s)) with
  | Some b => r = Ret b
  | None => r = Raise TypeError
  end.
Proof.
  unfold energy_gt0, bind, gets. destruct (py_gt0 (Energy (stats s)));
    intros H; inversion H; auto.
Qed.

Lemma energy_le0_run s r s' :
  energy_le0 s = (r, s') ->
  s' = s /\
  match py_le0 (Energy (stats s)) with
  | Some b => r = Ret b
  | None => r = Raise TypeError
  end.
Proof.
  unfold energy_le0, bind, gets. destruct (py_le0 (Energy (stats s)));
    intros H; inversion H; auto.
Qed.

Lemma poll_time_of_gw t0 t new :
  t0 < t -> (t - t0) mod 300 = 0 ->
  Forall (gw_event t getUserGameInfo) new -> Forall (poll_time t0) new.
Proof.
  intros Lt Md. apply Forall_impl. intros [t' req out | | | | ]; simpl; auto.
  intros [-> _]. auto.
Qed.

Lemma wait_run fuel t0 ticks :
  forall completed s r s',
    clock s = t0 + completed -> 0 <= completed ->
    wait_for_energy fuel ticks completed s = (r, s') ->
    clock s <= clock s' <= clock s + Z.of_nat ticks /\
    exists new,
      log s' = new ++ log s /\
      Forall (poll_time t0) new /\
      (r <> Diverge ->
       forall k, completed < 300 * k -> t0 + 300 * k <= clock s' ->
                 exists req out,
                   req_endpoint req = getUserGameInfo /\
                   In (Http (t0 + 300 * k) req out) new) /\
      (r = Ret tt ->
       clock s' = clock s + Z.of_nat ticks \/
       exists older,
         new = Print EnergyRecharged :: older /\
         py_gt0 (Energy (stats s')) = Some true /\
         (clock s' - t0) mod 300 = 0).
Proof.
  induction ticks as [| ticks IH]; intros completed s r s' Ck Pos H.
  - inversion H; subst. split; [cbn; lia | ].
    exists []. repeat split; auto.
    + intros _ k Hk Hle. lia.
    + intros _. left. cbn. lia.
  - cbn [wait_for_energy] in H.
    run_as H u s1 E; [ | inversion E | inversion E ].
    apply sleep_run in E. destruct E as [_ ->].
    set (s1 := with_log (Sleep 1 :: log s) (with_clock (clock s + 1) s)) in *.
    assert (Ck1 : clock s1 = t0 + (completed + 1)) by (cbn; lia).
    assert (L1 : log s1 = [Sleep 1] ++ log s) by reflexivity.
    assert (Rec : forall s2 new2,
               clock s2 = clock s1 -> log s2 = new2 ++ log s1 ->
               Forall (poll_time t0) new2 ->
               (forall k, completed < 300 * k -> 300 * k <= completed + 1 ->
                          exists req out,
                            req_endpoint req = getUserGameInfo /\
                            In (Http (t0 + 300 * k) req out) new2) ->
               wait_for_energy fuel ticks (completed + 1) s2 = (r, s') ->
               clock s <= clock s' <= clock s + Z.of_nat (S ticks) /\
               exists new,
                 log s' = new ++ log s /\
                 Forall (poll_time t0) new /\
                 (r <> Diverge ->
                  forall k, completed < 300 * k -> t0 + 300 * k <= clock s' ->
                            exists req out,
                              req_endpoint req = getUserGameInfo /\
                              In (Http (t0 + 300 * k) req out) new) /\
                 (r = Ret tt ->
                  clock s' = clock s + Z.of_nat (S ticks) \/
                  exists older,
                    new = Print EnergyRecharged :: older /\
                    py_gt0 (Energy (stats s')) = Some true /\
                    (clock s' - t0) mod 300 = 0)).
    { intros s2 new2 Ck2 L2 F2 Here H2.
      apply IH in H2; [ | lia | lia].
      destruct H2 as (Bd & new & L & F & Polls & Exit).
      split; [lia | ].
      exists (new ++ new2 ++ [Sleep 1]).
      split; [rewrite L, L2, L1, <- !app_assoc; reflexivity | ].
      split; [rewrite !Forall_app; repeat split; auto; repeat constructor | ].
      split.
      - intros ND k Hk Hle.
        destruct (Z_lt_le_dec (completed + 1) (300 * k)) as [Hlt | Hge].
        + destruct (Polls ND k Hlt Hle) as (req & out & Ep & I).
          exists req, out. split; auto. apply in_or_app. now left.
        + destruct (Here k Hk Hge) as (req & out & Ep & I).
          exists req, out. split; auto.
          apply in_or_app. right. apply in_or_app. now left.
      - intros Hr. destruct (Exit Hr) as [Full | (older & -> & G & Md)].
        + left. lia.
        + right. eexists. split; [reflexivity | auto]. }
    destruct (Z.eqb_spec ((completed + 1) mod 300) 0) as [Md | Md].
    + (* a poll *)
      run_as H updated s2 E.
      * pose proof (poll_update_energy _ _ _ _ E) as [Ck2 (newU & LU & FU)].
        assert (FP : Forall (poll_time t0) newU).
        { eapply poll_time_of_gw; [ | | exact FU]; rewrite Ck1.
          - lia.
          - replace (t0 + (completed + 1) - t0) with (completed + 1) by lia.
            exact Md. }
        assert (Here : forall k,
                   completed < 300 * k -> 300 * k <= completed + 1 ->
                   exists req out,
                     req_endpoint req = getUserGameInfo /\
                     In (Http (t0 + 300 * k) req out) newU).
        { intros k Hk Hle.
          apply update_energy_sends in E; [ | discriminate].
          destruct E as (new & req & out & L & Ep & I).
          rewrite LU in L. apply app_inv_tail in L. subst new.
          exists req, out. split; auto.
          replace (t0 + 300 * k) with (clock s1) by lia. exact I. }
        run_as H recharged s3 E3.
        -- assert (s3 = s2 /\
                   (recharged = true ->
                    py_gt0 (Energy (stats s2)) = Some true)) as [-> G].
           { destruct updated.
             - apply energy_gt0_run in E3. destruct E3 as [-> E3].
               split; auto.
               destruct (py_gt0 (Energy (stats s2))); inversion E3.
               now intros ->.
             - inversion E3; subst. split; auto. discriminate. }
           destruct recharged.
           ++ apply print_run in H. destruct H as [-> ->].
              split; [cbn; lia | ].
              exists (Print EnergyRecharged :: newU ++ [Sleep 1]).
              split; [cbn; rewrite LU, L1, <- app_assoc; reflexivity | ].
              split; [constructor; [exact I
                                   | rewrite Forall_app; split; auto;
                                     repeat constructor] | ].
              split.
              ** intros _ k Hk Hle. cbn [clock with_log] in Hle.
                 destruct (Here k Hk) as (req & out & Ep & I'); [lia | ].
                 exists req, out. split; auto.
                 right. apply in_or_app. now left.
              ** intros _. right. eexists. split; [reflexivity | ].
                 split; [now apply G | ].
                 cbn [clock with_log]. rewrite Ck2, Ck1.
                 replace (t0 + (completed + 1) - t0) with (completed + 1)
                   by lia.
                 exact Md.
           ++ eapply Rec; eauto.
        -- subst r.
           assert (s' = s2) as ->.
           { destruct updated; [ | discriminate].
             apply energy_gt0_run in E3. tauto. }
           split; [lia | ].
           exists (newU ++ [Sleep 1]).
           split; [rewrite LU, L1, <- app_assoc; reflexivity | ].
           split; [rewrite Forall_app; split; auto; repeat constructor | ].
           split; [ | discriminate].
           intros _ k Hk Hle.
           destruct (Here k Hk) as (req & out & Ep & I'); [lia | ].
           exists req, out. split; auto. apply in_or_app. now left.
        -- exfalso. destruct updated; [ | discriminate].
           apply energy_gt0_run in E3. destruct E3 as [_ E3].
           destruct (py_gt0 (Energy (stats s2))); discriminate.
      * pose proof (poll_update_energy _ _ _ _ E) as [Ck2 (newU & LU & FU)].
        subst r. split; [lia | ].
        exists (newU ++ [Sleep 1]).
        split; [rewrite LU, L1, <- app_assoc; reflexivity | ].
        split; [ | split; [ | discriminate]].
        -- rewrite Forall_app. split; [ | repeat constructor].
           eapply poll_time_of_gw; [ | | exact FU]; rewrite Ck1; [lia | ].
           replace (t0 + (completed + 1) - t0) with (completed + 1) by lia.
           exact Md.
        -- intros _ k Hk Hle.
           apply update_energy_sends in E; [ | discriminate].
           destruct E as (new & req & out & L & Ep & I).
           rewrite LU in L. apply app_inv_tail in L. subst new.
           exists req, out. split; auto.
           apply in_or_app. left.
           replace (t0 + 300 * k) with (clock s1) by lia. exact I.
      * pose proof (poll_update_energy _ _ _ _ E) as [Ck2 (newU & LU & FU)].
        subst r. split; [lia | ].
        exists (newU ++ [Sleep 1]).
        split; [rewrite LU, L1, <- app_assoc; reflexivity | ].
        split; [ | split; [intros ND; now elim ND | discriminate]].
        rewrite Forall_app. split; [ | repeat constructor].
        eapply poll_time_of_gw; [ | | exact FU]; rewrite Ck1; [lia | ].
        replace (t0 + (completed + 1) - t0) with (completed + 1) by lia.
        exact Md.
    + (* no poll on this tick *)
      apply (Rec s1 []); auto.
      intros k Hk Hle. exfalso. apply Md.
      replace (completed + 1) with (300 * k) by lia.
      rewrite Z.mul_comm. apply Z_mod_mult.
Qed.

(** ** Runs that come back *)

Lemma safe_ret {A} (a : A) : safe (ret a).
Proof. intros s r s' C H. inversion H; subst. split; [discriminate | auto]. Qed.

Lemma safe_raise {A} (e : exn) : safe (@raise A e).
Proof. intros s r s' C H. inversion H; subst. split; [discriminate | auto]. Qed.

Lemma safe_gets {A} (f : Client -> A) : safe (gets f).
Proof. intros s r s' C H. inversion H; subst. split; [discriminate | auto]. Qed.

Lemma safe_modify (f : Client -> Client) :
  (forall s, token (f s) = token s /\ server (f s) = server s) ->
  safe (modify f).
Proof.
  intros Hf s r s' [[T I] X] H. inversion H; subst.
  destruct (Hf s) as [Ht Hs].
  split; [discriminate | ]. unfold cooperative, credentials_hold.
  rewrite Ht, Hs. auto.
Qed.

Lemma safe_bind {A B} (c : M A) (k : A -> M B) :
  safe c -> (forall a, safe (k a)) -> safe (bind c k).
Proof.
  intros Hc Hk s r s' C H. run H.
  - apply Hc in E; auto. destruct E as [_ C1]. eapply Hk; eauto.
  - apply Hc in E; auto. subst. split; [discriminate | tauto].
  - apply Hc in E; auto. destruct E as [E _]. now elim E.
Qed.

Lemma safe_try {A} (c : M A) (h : exn -> M A) :
  safe c -> (forall e, safe (h e)) -> safe (try_except c h).
Proof.
  intros Hc Hh s r s' C H. run H.
  - apply Hc in E; auto. subst. split; [discriminate | tauto].
  - apply Hc in E; auto. destruct E as [_ C1]. eapply Hh; eauto.
  - apply Hc in E; auto. destruct E as [E _]. now elim E.
Qed.

Lemma safe_for_each {A} (xs : list A) (body : A -> M unit) :
  (forall x, safe (body x)) -> safe (for_each xs body).
Proof.
  intros Hb. induction xs as [| x xs IH]; simpl.
  - apply safe_ret.
  - apply safe_bind; auto.
Qed.

Lemma safe_py_get v k d : safe (py_get v k d).
Proof. destruct v; simpl; try apply safe_raise. apply safe_ret. Qed.

Lemma safe_py_getitem v k : safe (py_getitem v k).
Proof.
  destruct v; simpl; try apply safe_raise.
  destruct (dict_get k d); [apply safe_ret | apply safe_raise].
Qed.

Lemma safe_status_is_OK v : safe (status_is_OK v).
Proof.
  unfold status_is_OK. destruct (truthy v).
  - apply safe_bind; [apply safe_py_get | intro; apply safe_ret].
  - apply safe_ret.
Qed.

Lemma safe_emit ev : safe (emit ev).
Proof. apply safe_modify. intros s. split; reflexivity. Qed.

Ltac safety :=
  repeat
    match goal with
    | |- safe (bind _ _) => apply safe_bind; [ | intros ? ]
    | |- safe (try_except _ _) => apply safe_try; [ | intros ? ]
    | |- safe (ret _) => apply safe_ret
    | |- safe (raise _) => apply safe_raise
    | |- safe (gets _) => apply safe_gets
    | |- safe (py_get _ _ _) => apply safe_py_get
    | |- safe (py_getitem _ _) => apply safe_py_getitem
    | |- safe (status_is_OK _) => apply safe_status_is_OK
    | |- safe (print _) => apply safe_emit
    | |- safe (emit _) => apply safe_emit
    | |- safe update_display => unfold update_display
    | |- safe (sleep _) => unfold sleep
    | |- safe (for_each _ _) => apply safe_for_each; intros ?
    | |- safe (modify _) =>
        apply safe_modify; intros ?; split; reflexivity
    | |- safe (if ?b then _ else _) => destruct b
    | |- safe (match ?x with _ => _ end) => destruct x
    end.

Lemma request_returns n :
  forall rc fuel method e params data,
    3 - rc <= Z.of_nat n -> (n + 2 <= fuel)%nat -> supported method ->
    safe (_request fuel method e params data rc).
Proof.
  induction n as [| n IH];
    intros rc fuel method e params data Hn Hf Hm s r s' C H.
  - destruct fuel as [| fuel]; [lia | ].
    rewrite request_max in H by lia. inversion H; subst.
    split; [discriminate | exact C].
  - destruct fuel as [| [| [| fuel]]]; try lia.
    destruct (Z_lt_le_dec rc 3) as [Hrc | Hrc].
    2:{ rewrite request_max in H by lia. inversion H; subst.
        split; [discriminate | exact C]. }
    destruct C as [C X].
    destruct (answer (lower method) e (payload_of method params data) s)
      as [v | code | ] eqn:A.
    + rewrite request_settled in H; auto; [ | apply C | congruence].
      inversion H; subst. rewrite A. split; [discriminate | split; auto].
    + destruct (Z.eq_dec code 401) as [-> | Ne].
      * apply retry_step in H; auto.
        2:{ intros text _. apply X. reflexivity. }
        destruct H as (s1 & _ & C1 & Sv & _ & _ & _ & _ & _ & _ & H).
        apply IH in H; auto; try lia.
        split; auto. now rewrite Sv.
      * rewrite request_settled in H; auto; [ | apply C | congruence].
        inversion H; subst. rewrite A. split; [discriminate | split; auto].
    + rewrite request_settled in H; auto; [ | apply C | congruence].
      inversion H; subst. rewrite A. split; [discriminate | split; auto].
Qed.

Lemma safe_update_energy fuel : (5 <= fuel)%nat -> safe (update_energy fuel).
Proof.
  intros Hf. unfold update_energy. safety.
  apply (request_returns 3); [lia | lia | now left].
Qed.

Lemma safe_wait_for_energy fuel ticks completed :
  (5 <= fuel)%nat -> safe (wait_for_energy fuel ticks completed).
Proof.
  intros Hf. revert completed.
  induction ticks as [| ticks IH]; intros completed; cbn [wait_for_energy].
  - apply safe_ret.
  - safety; auto using safe_update_energy.
    unfold energy_gt0. safety.
Qed.

Lemma safe_submit fuel game_id score multiplier :
  (5 <= fuel)%nat -> safe (submit fuel game_id score multiplier).
Proof.
  intros Hf. unfold submit, book_result. safety.
  apply (request_returns 3); [lia | lia | now right].
Qed.

(** Against a cooperative server a pass through the loop, and so any number
    of passes, comes back. *)
Lemma safe_iteration fuel score wait_time :
  (5 <= fuel)%nat -> safe (iteration fuel score wait_time).
Proof.
  intros Hf. unfold iteration, loop_body, play_game, playtime, cooldown.
  safety; auto using safe_update_energy, safe_wait_for_energy, safe_submit;
    unfold energy_le0; safety.
Qed.

Lemma safe_main_loop fuel draws :
  (5 <= fuel)%nat -> safe (main_loop fuel draws).
Proof.
  intros Hf. unfold main_loop. safety. now apply safe_iteration.
Qed.

(** C6.  The wait entered at time [clock s] is left within [max_wait] =
    10800 seconds of sleep, however it ends.  Every request made during it
    is made a positive multiple of 300 seconds after its start, and unless
    a refresh runs away there is a FetchState request at each such instant
    up to the end of the wait.  The wait ends normally either when the
    10800 seconds are over or at a poll instant, by [break], with an energy
    above 0; a poll that reports success and an energy above 0 ends it on
    the spot.  With a cooperative server and a recursion depth of 5 allowed
    the wait does not hang. *)
Theorem wait_for_energy_bounded fuel :
  (forall s r s',
      wait_for_energy fuel (Z.to_nat max_wait) 0 s = (r, s') ->
      clock s <= clock s' <= clock s + max_wait /\
      (cooperative s -> (5 <= fuel)%nat -> r <> Diverge) /\
      exists new,
        log s' = new ++ log s /\
        Forall (poll_time (clock s)) new /\
        (r <> Diverge ->
         forall k, 0 < k -> clock s + 300 * k <= clock s' ->
                   exists req out,
                     req_endpoint req = getUserGameInfo /\
                     In (Http (clock s + 300 * k) req out) new) /\
        (r = Ret tt ->
         clock s' = clock s + max_wait \/
         exists older,
           new = Print EnergyRecharged :: older /\
           py_gt0 (Energy (stats s')) = Some true /\
           (clock s' - clock s) mod 300 = 0)) /\
  (forall ticks completed s s1,
      (completed + 1) mod 300 = 0 ->
      update_energy fuel (after_sleep 1 s) = (Ret true, s1) ->
      py_gt0 (Energy (stats s1)) = Some true ->
      wait_for_energy fuel (S ticks) completed s
      = (Ret tt, with_log (Print EnergyRecharged :: log s1) s1)).
Proof.
  split.
  - intros s r s' H.
    assert (Z.of_nat (Z.to_nat max_wait) = max_wait) as Mx
        by (apply Z2Nat.id; unfold max_wait; lia).
    split; [ | split].
    + apply (wait_run fuel (clock s)) in H; [ | lia | lia].
      rewrite Mx in H. tauto.
    + intros C Hf. eapply safe_wait_for_energy; eauto.
    + apply (wait_run fuel (clock s)) in H; [ | lia | lia].
      rewrite Mx in H. destruct H as (_ & new & L & F & Polls & Exit).
      exists new. repeat split; auto.
      intros ND k Hk Hle. apply Polls; auto. lia.
  - intros ticks completed s s1 Md U G.
    cbn [wait_for_energy]. unfold bind at 1.
    change (sleep 1 s) with (@Ret unit tt, after_sleep 1 s). cbv iota.
    rewrite Md. cbn [Z.eqb]. unfold bind at 1. rewrite U.
    unfold bind at 1, energy_gt0, bind at 1, gets. rewrite G.
    reflexivity.
Qed.

Lemma plain_server_cooperative tok :
  truthy (PStr tok) = true -> cooperative (running tok plain_server).
Proof.
  intros T. split; [split; [exact T | ] | ].
  - intros k req v t. apply plain_server_tokens.
  - intros k req _. apply plain_server_no_401.
Qed.

Lemma wait_for_energy_bounded_witness :
  let s := running "tok" plain_server in
  let s' := snd (wait_for_energy 5 (Z.to_nat max_wait) 0 s) in
  fst (wait_for_energy 5 (Z.to_nat max_wait) 0 s) <> Diverge /\
  0 <= clock s' <= 10800.
Proof.
  intros s s'.
  destruct (wait_for_energy_bounded 5) as [W _].
  destruct (W s (fst (wait_for_energy 5 (Z.to_nat max_wait) 0 s)) s')
    as (Bd & Term & _).
  - apply surjective_pairing.
  - split; [ | exact Bd].
    apply Term; [ | lia]. now apply plain_server_cooperative.
Defined.

(** The same run, computed: the first poll, 300 seconds in, finds energy and
    ends the wait. *)
Lemma wait_ends_at_first_recharge :
  let s' := snd (wait_for_energy 5 (Z.to_nat max_wait) 0
                   (running "tok" plain_server)) in
  clock s' = 300 /\ Energy (stats s') = PInt 5 /\
  hd_error (log s') = Some (Print EnergyRecharged).
Proof. vm_compute. repeat split. Qed.

(** * Play or wait (C1) *)

Lemma booked_grows s s' : booked s s' -> exists new, log s' = new ++ log s.
Proof. intros []. destruct b_log0 as (new & L & _). eauto. Qed.

(** C1.  In a pass through the loop whose energy refresh came back with an
    integer energy [e], what follows the refresh and the redrawing of the
    status table is the start of a game exactly when [0 < e], and the
    announcement of the wait for energy exactly when [e <= 0]. *)
Theorem play_iff_energy fuel score wait_time s b s1 e r s' :
  update_energy fuel s = (Ret b, s1) ->
  Energy (stats s1) = PInt e ->
  iteration fuel score wait_time s = (r, s') ->
  exists rest,
    rev (log s') = rev (log s1) ++ Display (stats s1) :: rest /\
    (0 < e <-> hd_error rest = Some (Print (StartingGame score "1"))) /\
    (e <= 0 <-> hd_error rest = Some (Print EnergyDepleted)).
Proof.
  intros U En H.
  assert (Body : forall rb sb,
             loop_body fuel score wait_time s = (rb, sb) ->
             exists new,
               log sb = new
                        ++ Print (if 0 <? e then StartingGame score "1"
                                  else EnergyDepleted)
                        :: Display (stats s1) :: log s1).
  { intros rb sb B. unfold loop_body in B.
    run_as B u s2 E; rewrite U in E; try discriminate.
    inversion E; subst u s2; clear E.
    run_as B u s2 E; try discriminate.
    inversion E; subst u s2; clear E.
    set (sd := with_log (Display (stats s1) :: log s1) s1) in *.
    run_as B depleted s3 E;
      apply energy_le0_run in E; destruct E as [-> E];
      change (Energy (stats sd)) with (Energy (stats s1)) in E;
      rewrite En in E; cbn [py_le0] in E; try discriminate.
    inversion E; subst depleted; clear E.
    destruct (Z.leb_spec e 0) as [Le | Gt].
    - destruct (Z.ltb_spec 0 e); [lia | ].
      assert (P : preserves booked
                    (bind
                       (wait_for_energy fuel (Z.to_nat max_wait) 0 ;;
                        energy_le0)
                       (fun skip =>
                          if skip then ret tt
                          else
                            won <- play_game fuel 1 score "1" ;;
                            if won then cooldown wait_time
                            else print GamePlayFailed ;; sleep 30))).
      { pres booked_refl booked_trans; try apply booked_play_game;
          apply booked_quiet;
          auto using quiet_wait_for_energy, quiet_energy_le0, quiet_print,
            quiet_cooldown; apply quiet_sleep; lia. }
      set (sp := with_log (Print EnergyDepleted :: log sd) sd).
      assert (B2 : bind
                     (wait_for_energy fuel (Z.to_nat max_wait) 0 ;;
                      energy_le0)
                     (fun skip =>
                        if skip then ret tt
                        else
                          won <- play_game fuel 1 score "1" ;;
                          if won then cooldown wait_time
                          else print GamePlayFailed ;; sleep 30) sp
                   = (rb, sb)).
      { rewrite <- B. unfold bind. cbn [print emit modify].
        fold sp. destruct (wait_for_energy fuel (Z.to_nat max_wait) 0 sp)
          as [[[] | | ] x]; reflexivity. }
      apply P, booked_grows in B2. destruct B2 as (new & L).
      exists new. exact L.
    - destruct (Z.ltb_spec 0 e); [ | lia].
      cbn [ret bind] in B.
      assert (P : preserves booked
                    (bind (playtime fuel ;; submit fuel 1 score "1")
                       (fun won =>
                          if won then cooldown wait_time
                          else print GamePlayFailed ;; sleep 30))).
      { pres booked_refl booked_trans; try apply booked_submit;
          apply booked_quiet;
          auto using quiet_playtime, quiet_print, quiet_cooldown;
          apply quiet_sleep; lia. }
      set (sp := with_log (Print (StartingGame score "1") :: log sd) sd).
      assert (B2 : bind (playtime fuel ;; submit fuel 1 score "1")
                     (fun won =>
                        if won then cooldown wait_time
                        else print GamePlayFailed ;; sleep 30) sp
                   = (rb, sb)).
      { rewrite <- B. unfold play_game, bind. cbn [print emit modify ret].
        fold sp. reflexivity. }
      apply P, booked_grows in B2. destruct B2 as (new & L).
      exists new. exact L. }
  assert (Log : exists new,
             log s' = new
                      ++ Print (if 0 <? e then StartingGame score "1"
                                else EnergyDepleted)
                      :: Display (stats s1) :: log s1).
  { unfold iteration in H. run_as H u s2 E.
    - apply Body in E. exact E.
    - apply Body in E. destruct E as (new & L).
      apply backoff_run in H. destruct H as [_ ->].
      exists (Sleep 30 :: Print (GameError e0) :: new).
      cbn. now rewrite L.
    - apply Body in E. exact E. }
  destruct Log as (new & L).
  exists (Print (if 0 <? e then StartingGame score "1" else EnergyDepleted)
          :: rev new).
  split.
  - rewrite L, rev_app_distr. cbn [rev]. rewrite <- !app_assoc. reflexivity.
  - cbn [hd_error]. destruct (Z.ltb_spec 0 e); split; split; intros;
      try reflexivity; try lia; discriminate.
Qed.

Lemma play_iff_energy_witness :
  (exists rest,
      rev (log (snd (iteration 5 185 5%nat (running "tok" plain_server))))
      = rev (log (snd (update_energy 5 (running "tok" plain_server))))
        ++ Display (stats (snd (update_energy 5 (running "tok" plain_server))))
        :: rest /\
      hd_error rest = Some (Print (StartingGame 185 "1"))) /\
  (exists rest,
      rev (log (snd (iteration 5 185 5%nat (running "tok" drained_server))))
      = rev (log (snd (update_energy 5 (running "tok" drained_server))))
        ++ Display (stats (snd (update_energy 5 (running "tok" drained_server))))
        :: rest /\
      hd_error rest = Some (Print EnergyDepleted)).
Proof.
  split.
  - destruct (play_iff_energy 5 185 5%nat (running "tok" plain_server) true
                (snd (update_energy 5 (running "tok" plain_server))) 5
                (fst (iteration 5 185 5%nat (running "tok" plain_server)))
                (snd (iteration 5 185 5%nat (running "tok" plain_server))))
      as (rest & L & P & _).
    + vm_compute. reflexivity.
    + vm_compute. reflexivity.
    + apply surjective_pairing.
    + exists rest. split; [exact L | ]. apply P. lia.
  - destruct (play_iff_energy 5 185 5%nat (running "tok" drained_server) true
                (snd (update_energy 5 (running "tok" drained_server))) 0
                (fst (iteration 5 185 5%nat (running "tok" drained_server)))
                (snd (iteration 5 185 5%nat (running "tok" drained_server))))
      as (rest & L & _ & W).
    + vm_compute. reflexivity.
    + vm_compute. reflexivity.
    + apply surjective_pairing.
    + exists rest. split; [exact L | ]. apply W. lia.
Defined.

(** * Further properties of the code *)

(** ** Nothing raises past the handlers *)

Lemma no_raise_for_each {A} (xs : list A) (body : A -> M unit) :
  (forall x s, no_raise (fst (body x s))) ->
  forall s, no_raise (fst (for_each xs body s)).
Proof.
  intros Hb. induction xs as [| x xs IH]; intros s; cbn [for_each].
  - exact I.
  - unfold bind. specialize (Hb x s).
    destruct (body x s) as [[u | e | ] s1]; cbn [fst] in *; auto.
Qed.

Lemma no_raise_handled {A} (c : M A) (h : exn -> M A) s :
  (forall e s1, no_raise (fst (h e s1))) ->
  no_raise (fst (try_except c h s)).
Proof.
  intros Hh. unfold try_except.
  destruct (c s) as [[a | e | ] s1]; cbn [fst]; auto. exact I. exact I.
Qed.

(** No exception leaves the gateway, the energy refresh, a pass through the
    loop, the loop, or [main]: each ends with a value (or is stuck in the
    runaway recursion of the gateway). *)
Theorem no_exception_escapes fuel s :
  (forall method endpoint params data rc,
      no_raise (fst (_request fuel method endpoint params data rc s))) /\
  no_raise (fst (update_token fuel s)) /\
  no_raise (fst (update_energy fuel s)) /\
  (forall score wait_time, no_raise (fst (iteration fuel score wait_time s))) /\
  (forall draws, no_raise (fst (main_loop fuel draws s))) /\
  (forall draws, no_raise (fst (main fuel draws s))).
Proof.
  assert (It : forall score wait_time x,
             no_raise (fst (iteration fuel score wait_time x))).
  { intros score wait_time x. unfold iteration.
    apply no_raise_handled. intros e s1. exact I. }
  repeat split.
  - intros method endpoint params data rc.
    destruct (_request fuel method endpoint params data rc s)
      as [[v | e | ] s1] eqn:E; cbn; auto.
    eapply request_no_raise; eauto.
  - destruct (update_token fuel s) as [[v | e | ] s1] eqn:E; cbn; auto.
    eapply update_token_no_raise; eauto.
  - unfold update_energy. apply no_raise_handled. intros e s1. exact I.
  - intros score wait_time. apply It.
  - intros draws. unfold main_loop. apply no_raise_for_each.
    intros x x0. apply It.
  - intros draws. unfold main. apply no_raise_handled. intros e s1. exact I.
Qed.

(** ** The gateway *)

(** A call into the gateway does not sleep and leaves the statistics, the
    user id, [data.txt] and the server alone; the requests it makes are
    stamped with the time of the call and go to its own endpoint or to the
    token endpoint, and it logs nothing else but console output and the
    opening of files. *)
Theorem gateway_frame fuel method e params data rc s :
  gw_frame e s (snd (_request fuel method e params data rc s)) /\
  gw_frame getToken s (snd (update_token fuel s)).
Proof.
  split.
  - eapply gw_request. apply surjective_pairing.
  - eapply gw_update_token. apply surjective_pairing.
Qed.

(** With a credential held, a call with a method other than get or post
    (in any letter case) sends nothing: the ValueError is caught, reported
    on the console, and the call returns None. *)
Theorem unsupported_method_sends_nothing fuel method e params data rc s :
  truthy (token s) = true -> rc < 3 ->
  lower method <> "get" -> lower method <> "post" ->
  _request (S fuel) method e params data rc s
  = (Ret PNone, with_log (Print (RequestErrorMsg ValueError) :: log s) s).
Proof.
  intros T Hrc Hg Hp. cbn [_request].
  destruct (Z.leb_spec 3 rc); [lia | ].
  unfold bind at 1. cbn [gets]. rewrite T. cbn [negb].
  unfold bind at 1. cbn [ret]. unfold try_except, send.
  destruct (String.eqb_spec (lower method) "get"); [contradiction | ].
  destruct (String.eqb_spec (lower method) "post"); [contradiction | ].
  reflexivity.
Qed.

Lemma unsupported_method_sends_nothing_witness :
  _request 1 "PUT" getUserGameInfo None None 0 (running "tok" plain_server)
  = (Ret PNone,
     with_log [Print (RequestErrorMsg ValueError)]
       (running "tok" plain_server)).
Proof.
  apply (unsupported_method_sends_nothing 0 "PUT" getUserGameInfo None None 0
           (running "tok" plain_server)).
  - reflexivity.
  - lia.
  - discriminate.
  - discriminate.
Defined.

Lemma send_lower method method' e params data :
  lower method = lower method' ->
  send method e params data = send method' e params data.
Proof. intros H. unfold send. now rewrite H. Qed.

(** The method is compared in lower case only: two spellings of a method
    that agree up to letter case make the same call. *)
Theorem method_case_is_ignored fuel :
  forall method method' e params data rc,
    lower method = lower method' ->
    _request fuel method e params data rc
    = _request fuel method' e params data rc.
Proof.
  induction fuel as [| fuel IH]; intros method method' e params data rc H.
  - reflexivity.
  - cbn [_request].
    rewrite (send_lower method method' e params data H).
    rewrite (IH method method' e params data (rc + 1) H).
    reflexivity.
Qed.

Lemma method_case_is_ignored_witness :
  _request 3 "GET" getUserGameInfo (energy_params (PInt 7)) None 0
  = _request 3 "get" getUserGameInfo (energy_params (PInt 7)) None 0.
Proof.
  apply (method_case_is_ignored 3 "GET" "get"). reflexivity.
Defined.

(** With a credential held, an HTTP error other than 401 or a transport
    error ends the call after that one request: it is reported on the
    console and the call returns None, without a token refresh and without
    a retry. *)
Theorem other_failures_are_not_retried fuel method e params data rc s :
  truthy (token s) = true -> rc < 3 -> supported method ->
  answer (lower method) e (payload_of method params data) s <> HttpError 401 ->
  (forall v,
      answer (lower method) e (payload_of method params data) s <> Json v) ->
  exists m,
    _request (S fuel) method e params data rc s
    = (Ret PNone,
       with_log
         (Print m
          :: Http (clock s)
               (mkRequest (lower method) e (authorization s)
                  (payload_of method params data))
               (answer (lower method) e (payload_of method params data) s)
          :: log s)
         (with_sent (S (sent s)) s)).
Proof.
  intros T Hrc Hm N NJ.
  rewrite request_settled by assumption.
  unfold settled, after_exchange, body_of.
  fold (answer (lower method) e (payload_of method params data) s).
  destruct (answer (lower method) e (payload_of method params data) s)
    as [v | code | ] eqn:A.
  - now elim (NJ v).
  - exists (HttpErrorMsg code). reflexivity.
  - exists (RequestErrorMsg RequestException). reflexivity.
Qed.

Lemma other_failures_are_not_retried_witness :
  exists m,
    _request 1 "post" playGameGetReward None
      (Some (submit_payload (PInt 7) 1 185 "1")) 0
      (running "tok" failing_server)
    = (Ret PNone,
       with_log
         [Print m;
          Http 0 (mkRequest "post" playGameGetReward (Some (PStr "tok"))
                    (Some (submit_payload (PInt 7) 1 185 "1")))
            (HttpError 500)]
         (with_sent 1 (running "tok" failing_server))).
Proof.
  apply (other_failures_are_not_retried 0 "post" playGameGetReward None
           (Some (submit_payload (PInt 7) 1 185 "1")) 0
           (running "tok" failing_server)).
  - reflexivity.
  - lia.
  - now right.
  - discriminate.
  - discriminate.
Defined.

(** ** Refreshing the token *)

Lemma status_is_OK_ok v s :
  ok_body v = true -> status_is_OK v s = (Ret true, s).
Proof.
  intros Ok. destruct (status_is_OK v s) as [r s'] eqn:E.
  apply status_is_OK_run in E. destruct E as [-> [[-> _] | [_ [_ D]]]].
  - now rewrite Ok.
  - apply ok_body_dict in Ok. congruence.
Qed.

Lemma install_token_issued v t s :
  issued_token v = Some t ->
  install_token v s = (Ret (token_file_writable s), installed t s).
Proof.
  unfold issued_token. intros H.
  destruct (ok_body v) eqn:Ok; [ | discriminate].
  unfold install_token, bind at 1. rewrite (status_is_OK_ok v s Ok).
  destruct v as [ | | | | | d]; try discriminate. unfold data_of in H.
  unfold bind, py_getitem, modify, _save_token, json_dump_token_file,
    try_except, bind, emit, modify, gets, print, emit, modify, installed.
  destruct (dict_get "data" d) as [[ | | | | | dd] | ]; try discriminate.
  cbn. rewrite H. cbn.
  destruct (token_file_writable s); reflexivity.
Qed.

Lemma install_token_none v s :
  issued_token v = None ->
  exists r, install_token v s = (r, s) /\
            (r = Ret false \/ exists e, r = Raise e).
Proof.
  unfold issued_token. intros H.
  destruct (ok_body v) eqn:Ok.
  - unfold install_token, bind at 1. rewrite (status_is_OK_ok v s Ok).
    destruct v as [ | | | | | d]; try discriminate. unfold data_of in H.
    unfold bind, py_getitem.
    destruct (dict_get "data" d) as [[ | | | | | dd] | ]; cbn;
      try (eexists; split; [reflexivity | right; eexists; reflexivity]).
    rewrite H. eexists; split; [reflexivity | right; eexists; reflexivity].
  - unfold install_token, bind at 1.
    destruct (status_is_OK_not_ok v s Ok) as [-> | [-> _]];
      eexists; (split; [reflexivity | ]);
      [left; reflexivity | right; eexists; reflexivity].
Qed.

(** Without a readable [data.txt] a refresh sends nothing: it reports the
    failure and returns False, and nothing but the log has changed. *)
Theorem update_token_without_data fuel s :
  data_txt s = None ->
  update_token (S fuel) s
  = (Ret false,
     with_log (Print (TokenUpdateFailed FileNotFoundError)
               :: Opened "data.txt" :: log s) s).
Proof.
  intros D. rewrite update_token_S.
  unfold try_except, bind at 1 2 3. cbn [emit modify gets data_txt with_log].
  rewrite D. reflexivity.
Qed.

Lemma update_token_without_data_witness :
  let s := process_start (PInt 7) Missing true None plain_server in
  update_token 1 s
  = (Ret false,
     with_log [Print (TokenUpdateFailed FileNotFoundError); Opened "data.txt"]
       s).
Proof.
  intros s. apply (update_token_without_data 0 s). reflexivity.
Defined.

Lemma update_token_after_answer fuel s text v s1 :
  data_txt s = Some text ->
  _request fuel "get" getToken (token_params text) None 0
    (with_log (Opened "data.txt" :: log s) s) = (Ret v, s1) ->
  update_token (S fuel) s
  = try_except (install_token v)
      (fun e => print (TokenUpdateFailed e) ;; ret false) s1.
Proof.
  intros D R. unfold token_params in *. rewrite update_token_S.
  unfold try_except, bind at 1 2 3. cbn [emit modify gets data_txt with_log].
  rewrite D. cbn [ret]. unfold bind at 1. rewrite R. reflexivity.
Qed.

(** What a refresh does with the answer the gateway hands back.  If the
    answer hands out a token, the token and the authorization header are
    replaced by it and the token file is written; the refresh returns True
    exactly when the file could be written, and keeps the new token in
    memory even when it could not.  If the answer hands out no token (its
    status is not "OK", or it lacks "data" or "token"), the refresh returns
    False and leaves token, header, file and statistics as they were. *)
Theorem update_token_on_answer fuel s text v s1 :
  data_txt s = Some text ->
  _request fuel "get" getToken (token_params text) None 0
    (with_log (Opened "data.txt" :: log s) s) = (Ret v, s1) ->
  (forall t, issued_token v = Some t ->
             update_token (S fuel) s
             = (Ret (token_file_writable s1), installed t s1)) /\
  (issued_token v = None ->
   exists s', update_token (S fuel) s = (Ret false, s') /\ untouched s1 s').
Proof.
  intros D R. rewrite (update_token_after_answer fuel s text v s1 D R).
  unfold try_except. split.
  - intros t H. rewrite (install_token_issued v t s1 H). reflexivity.
  - intros H. destruct (install_token_none v s1 H) as (r & -> & [-> | [e ->]]).
    + eexists. split; [reflexivity | repeat split].
    + eexists. split; [reflexivity | repeat split].
Qed.

Lemma update_token_on_answer_witness :
  let s := running "old" plain_server in
  fst (update_token 2 s) = Ret true /\
  token (snd (update_token 2 s)) = PStr "fresh" /\
  authorization (snd (update_token 2 s)) = Some (PStr "fresh") /\
  token_file (snd (update_token 2 s)) = stored_token "fresh".
Proof.
  intros s.
  destruct (update_token_on_answer 1 s "user=%7B%7D" (token_body "fresh")
              (snd (_request 1 "get" getToken (token_params "user=%7B%7D")
                      None 0 (with_log (Opened "data.txt" :: log s) s))))
    as [A _].
  - reflexivity.
  - vm_compute. reflexivity.
  - rewrite (A (PStr "fresh") eq_refl). vm_compute. repeat split.
Defined.

(** A refresh that returns True has put the new token in all three places:
    the token held, the authorization header and the token file agree, and
    the success was announced on the console. *)
Theorem update_token_true fuel s s' :
  update_token fuel s = (Ret true, s') ->
  token_file s' = JsonText (PDict [("token", token s')]) /\
  authorization s' = Some (token s') /\
  hd_error (log s') = Some (Print TokenUpdated).
Proof.
  intros H. destruct fuel as [| fuel]; [inversion H | ].
  rewrite update_token_S in H. run_as H b s1 E.
  2:{ inversion H. }
  2:{ discriminate. }
  inversion H; subst b; clear H.
  run_as E u s2 E1; try discriminate. inversion E1; subst; clear E1.
  run_as E c s3 E1; try discriminate. inversion E1; subst; clear E1.
  run_as E c s3 E1; try discriminate.
  run_as E v s4 E2; try discriminate.
  destruct (issued_token v) as [t | ] eqn:I.
  - rewrite (install_token_issued v t s4 I) in E.
    inversion E as [[W S']]. unfold installed. rewrite W. cbn. auto.
  - destruct (install_token_none v s4 I) as (r & R & [-> | [e ->]]);
      rewrite R in E; discriminate.
Qed.

Lemma update_token_true_witness :
  let s' := snd (update_token 2 (running "old" plain_server)) in
  token_file s' = JsonText (PDict [("token", token s')]) /\
  authorization s' = Some (token s') /\
  hd_error (log s') = Some (Print TokenUpdated).
Proof.
  intros s'.
  apply (update_token_true 2 (running "old" plain_server) s').
  vm_compute. reflexivity.
Defined.

(** ** The credential store, written then read *)

(** A token that was saved is the token that is loaded: when the file can
    be written, [_save_token] returns True and [_load_token] then returns
    the very value saved (None included); when it cannot, [_save_token]
    reports the failure, returns False and leaves the file as it was. *)
Theorem load_after_save t s :
  (token_file_writable s = true ->
   fst (_save_token t s) = Ret true /\
   fst (_load_token (snd (_save_token t s))) = Ret t) /\
  (token_file_writable s = false ->
   fst (_save_token t s) = Ret false /\
   token_file (snd (_save_token t s)) = token_file s /\
   hd_error (log (snd (_save_token t s)))
   = Some (Print (SaveTokenFailed PermissionError))).
Proof.
  split; intros W; rewrite load_token_result ||  idtac;
    unfold _save_token, try_except, json_dump_token_file, bind, emit, modify,
      gets, print, emit, modify; cbn; rewrite W; cbn; repeat split.
Qed.

Lemma load_after_save_witness :
  let s := running "old" plain_server in
  fst (_load_token (snd (_save_token (PStr "new") s))) = Ret (PStr "new").
Proof.
  intros s.
  destruct (load_after_save (PStr "new") s) as [A _].
  apply A. reflexivity.
Defined.

(** ** Refreshing the energy *)

Lemma update_energy_after_answer fuel s v s1 :
  _request fuel "get" getUserGameInfo (energy_params (user_id s)) None 0 s
  = (Ret v, s1) ->
  ok_body v = true ->
  update_energy fuel s
  = try_except
      (d <- py_getitem v "data" ;;
       e <- py_get d "userCurrentEnergy" (PInt 0) ;;
       now <- gets clock ;;
       modify (fun s => with_stats (set_energy e now (stats s)) s) ;;
       ret true)
      (fun e => print (EnergyUpdateFailed e) ;; ret false) s1.
Proof.
  intros R Ok. unfold energy_params in *.
  unfold update_energy, try_except, bind at 1 2. cbn [gets]. rewrite R.
  unfold bind at 1. rewrite (status_is_OK_ok v s1 Ok). reflexivity.
Qed.

(** What a refresh of the energy does with an answer whose status is "OK".
    If the answer has a "data" object, Energy becomes its
    "userCurrentEnergy" (0 when the member is missing, and whatever value
    is there, number or not), Last Update becomes the time of the call, the
    other statistics stay, and the refresh returns True.  If "data" is
    missing or is not an object, the refresh reports the failure on the
    console and returns False with the statistics as they were. *)
Theorem update_energy_on_ok fuel s v s1 :
  _request fuel "get" getUserGameInfo (energy_params (user_id s)) None 0 s
  = (Ret v, s1) ->
  ok_body v = true ->
  (forall e, reported_energy v = Some e ->
             update_energy fuel s
             = (Ret true, with_stats (set_energy e (clock s) (stats s)) s1)) /\
  (reported_energy v = None ->
   exists x, update_energy fuel s
             = (Ret false,
                with_log (Print (EnergyUpdateFailed x) :: log s1) s1) /\
             stats s1 = stats s).
Proof.
  intros R Ok. rewrite (update_energy_after_answer fuel s v s1 R Ok).
  apply gw_request in R. destruct R as [Ck St _ _ _ _ _ _].
  apply ok_body_dict in Ok. destruct v as [ | | | | | d]; try discriminate.
  unfold reported_energy, data_of, try_except, bind, py_getitem.
  destruct (dict_get "data" d) as [[ | | | | | dd] | ]; cbn;
    (split; [intros e H; try discriminate | intros H; try discriminate]);
    try (eexists; split; [reflexivity | exact St]).
  inversion H; subst e. rewrite Ck, St. reflexivity.
Qed.

Lemma update_energy_on_ok_witness :
  let s := running "tok" plain_server in
  Energy (stats (snd (update_energy 1 s))) = PInt 5 /\
  Last_Update (stats (snd (update_energy 1 s))) = Some 0 /\
  fst (update_energy 1 s) = Ret true.
Proof.
  intros s.
  destruct (update_energy_on_ok 1 s (energy_body 5)
              (snd (_request 1 "get" getUserGameInfo
                      (energy_params (user_id s)) None 0 s))) as [A _].
  - vm_compute. reflexivity.
  - reflexivity.
  - rewrite (A (PInt 5) eq_refl). repeat split.
Defined.

(** An energy that is not a number stops the pass before any game: when
    the refresh at the head of the pass leaves a value in Energy that
    cannot be compared with 0, the comparison raises TypeError, the pass
    reports a game error, sleeps thirty seconds and ends; nothing is
    submitted. *)
Theorem nonnumeric_energy_is_a_game_error fuel score wait_time s b s1 :
  update_energy fuel s = (Ret b, s1) ->
  py_le0 (Energy (stats s1)) = None ->
  iteration fuel score wait_time s
  = (Ret tt,
     backoff (GameError TypeError)
       (with_log (Display (stats s1) :: log s1) s1)).
Proof.
  intros U N. unfold iteration, try_except, loop_body, bind at 1.
  rewrite U. unfold bind at 1.
  change (update_display s1)
    with (@Ret unit tt, with_log (Display (stats s1) :: log s1) s1).
  cbv iota. unfold bind at 1, energy_le0, bind at 1, gets.
  cbn [stats with_log]. rewrite N. reflexivity.
Qed.

Lemma nonnumeric_energy_is_a_game_error_witness :
  let s := running "tok" vague_server in
  let s' := snd (iteration 1 185 7 s) in
  fst (iteration 1 185 7 s) = Ret tt /\
  hd_error (log s') = Some (Sleep 30) /\
  clock s' = 30 /\
  calls playGameGetReward (log s') = [].
Proof.
  intros s.
  rewrite (nonnumeric_energy_is_a_game_error 1 185 7 s true
             (snd (update_energy 1 s))).
  - vm_compute. repeat split.
  - vm_compute. reflexivity.
  - reflexivity.
Defined.

(** ** The time a game and a pass take *)

Lemma displays_app l1 l2 : displays (l1 ++ l2) = (displays l1 + displays l2)%nat.
Proof. unfold displays. now rewrite filter_app, length_app. Qed.

Lemma displays_gw t e new : Forall (gw_event t e) new -> displays new = 0%nat.
Proof.
  induction 1 as [| ev new H _ IH]; [reflexivity | ].
  destruct ev; simpl in H; try contradiction; exact IH.
Qed.

Lemma on_time_gw t new :
  Forall (gw_event t playGameGetReward) new -> Forall (on_time t) new.
Proof.
  apply Forall_impl. intros [t' req out | | | | ]; simpl; auto.
  intros [-> _] _. reflexivity.
Qed.

Lemma on_time_poll t t' new :
  Forall (gw_event t' getUserGameInfo) new -> Forall (on_time t) new.
Proof.
  apply Forall_impl. intros [t0 req out | | | | ]; simpl; auto.
  intros [_ [-> | ->]]; discriminate.
Qed.

Lemma update_energy_no_raise fuel s e s' :
  update_energy fuel s <> (Raise e, s').
Proof.
  intros H. unfold update_energy in H. run_as H b s1 E.
  - discriminate.
  - inversion H.
  - discriminate.
Qed.

(** The sixty ticks of the progress bar, for any list of tick numbers. *)
Lemma playtime_run fuel t xs :
  forall s r s',
    for_each xs (fun i =>
      sleep 1 ;;
      if i mod 5 =? 0 then update_energy fuel ;; update_display
      else ret tt) s = (r, s') ->
    r <> Diverge ->
    r = Ret tt /\
    clock s' = clock s + Z.of_nat (List.length xs) /\
    exists new,
      log s' = new ++ log s /\
      displays new
      = List.length (filter (fun i => i mod 5 =? 0) xs) /\
      Forall (on_time t) new.
Proof.
  induction xs as [| x xs IH]; intros s r s' H ND.
  - inversion H; subst. split; [reflexivity | ]. split; [cbn; lia | ].
    exists []. repeat split. constructor.
  - cbn [for_each] in H. run_as H u s1 E.
    + assert (clock s1 = clock s + 1 /\
              exists new,
                log s1 = new ++ log s /\
                displays new = (if x mod 5 =? 0 then 1%nat else 0%nat) /\
                Forall (on_time t) new) as (C1 & new1 & L1 & D1 & T1).
      { run_as E u1 s2 E1; try discriminate.
        apply sleep_run in E1. destruct E1 as [_ ->].
        destruct (x mod 5 =? 0).
        - run_as E b s3 E2; try discriminate.
          apply poll_update_energy in E2.
          destruct E2 as [C2 (new2 & L2 & F2)].
          inversion E; subst s1. cbn [clock log with_log] in *.
          split; [exact C2 | ].
          exists (Display (stats s3) :: new2 ++ [Sleep 1]).
          split; [rewrite L2; cbn [app]; rewrite <- app_assoc; reflexivity | ].
          split.
          + change (displays (Display (stats s3) :: new2 ++ [Sleep 1]))
              with (S (displays (new2 ++ [Sleep 1]))).
            rewrite displays_app, (displays_gw _ _ _ F2). reflexivity.
          + constructor; [exact I | ]. apply Forall_app. split.
            * eapply on_time_poll; eauto.
            * repeat constructor.
        - inversion E; subst s1. cbn [clock log with_log with_clock].
          split; [reflexivity | ]. exists [Sleep 1].
          repeat split. repeat constructor. }
      destruct (IH _ _ _ H ND) as (-> & C2 & new2 & L2 & D2 & T2).
      split; [reflexivity | ]. split.
      * rewrite C2, C1. cbn [List.length]. lia.
      * exists (new2 ++ new1). split; [rewrite L2, L1; apply app_assoc | ].
        split.
        -- rewrite displays_app, D2, D1. cbn [filter].
           destruct (x mod 5 =? 0); cbn [List.length]; lia.
        -- apply Forall_app. auto.
    + exfalso. run_as E u1 s2 E1; try discriminate.
      destruct (x mod 5 =? 0); [ | discriminate].
      run_as E b s3 E2; try discriminate.
      inversion E2; subst. eapply update_energy_no_raise; eauto.
    + subst r. now elim ND.
Qed.

Lemma book_result_log response score multiplier s r s' :
  book_result response score multiplier s = (r, s') ->
  clock s' = clock s /\
  exists new, log s' = new ++ log s /\ displays new = 0%nat /\
              forall t, Forall (on_time t) new.
Proof.
  intros H. apply book_result_run in H.
  destruct H as [(_ & _ & _ & _ & _ & _ & _ & _ & Ck) H]. split; [exact Ck | ].
  destruct H as [(_ & _ & L & _) | (_ & _ & _ & _ & _ & H)].
  - exists []. repeat split; auto.
  - destruct (data_of response) as [[ | | | | | d] | ];
      try (destruct H as (_ & L & _); exists []; repeat split; auto; fail).
    destruct H as (_ & L & _). exists [Print (GameCompleted score)].
    repeat split; auto. intros t. repeat constructor.
Qed.

Lemma play_game_run fuel game_id score multiplier s r s' :
  play_game fuel game_id score multiplier s = (r, s') ->
  r <> Diverge ->
  clock s' = clock s + 60 /\
  exists new,
    log s' = new ++ log s /\
    displays new = 12%nat /\
    Forall (on_time (clock s + 60)) new.
Proof.
  intros H ND. unfold play_game in H.
  run_as H u s0 E0; try discriminate. inversion E0; subst u s0; clear E0.
  run_as H u s1 E1.
  - unfold playtime in E1.
    apply (playtime_run fuel (clock s + 60)) in E1; [ | discriminate].
    destruct E1 as (_ & C1 & new1 & L1 & D1 & T1).
    cbn [clock log with_log] in C1, L1.
    change (Z.of_nat (List.length (range 60))) with 60 in C1.
    change (List.length (filter (fun i => i mod 5 =? 0) (range 60)))
      with 12%nat in D1.
    unfold submit in H.
    run_as H uid s2 E2; try discriminate. inversion E2; subst uid s2; clear E2.
    assert (forall rr, (rr, s') = (r, s') -> rr = r) as Same
        by (intros rr X; now inversion X).
    run_as H v s2 E2.
    + apply gw_request in E2. destruct E2 as [C2 _ _ _ _ _ _ (new2 & L2 & F2)].
      apply book_result_log in H. destruct H as [C3 (new3 & L3 & D3 & T3)].
      split; [lia | ].
      exists (new3 ++ new2 ++ new1 ++ [Print (StartingGame score multiplier)]).
      split; [rewrite L3, L2, L1, <- !app_assoc; reflexivity | ].
      split.
      * rewrite !displays_app, D3, D1, (displays_gw _ _ _ F2). reflexivity.
      * rewrite C1 in F2. apply on_time_gw in F2.
        repeat (apply Forall_app; split); auto. repeat constructor.
    + exfalso. eapply request_no_raise; eauto.
    + subst r. now elim ND.
  - exfalso. unfold playtime in E1.
    apply (playtime_run fuel 0) in E1; [ | discriminate].
    destruct E1 as [E1 _]. discriminate.
  - subst r. now elim ND.
Qed.

(** A game takes its minute.  Unless the gateway runs away, [play_game]
    ends sixty seconds of sleep after it began, whatever the server
    answered; the status table was redrawn twelve times on the way, and
    every request to the play endpoint was sent at the end of the minute,
    none before. *)
Theorem play_game_takes_a_minute fuel game_id score multiplier s r s' :
  play_game fuel game_id score multiplier s = (r, s') ->
  r <> Diverge ->
  clock s' = clock s + 60 /\
  exists new,
    log s' = new ++ log s /\
    displays new = 12%nat /\
    Forall (on_time (clock s + 60)) new.
Proof. apply play_game_run. Qed.

Lemma play_game_takes_a_minute_witness :
  let s := running "tok" plain_server in
  let s' := snd (play_game 1 1 185 "1" s) in
  clock s' = 60 /\
  exists new,
    log s' = new ++ [] /\ displays new = 12%nat /\ Forall (on_time 60) new.
Proof.
  intros s s'.
  apply (play_game_takes_a_minute 1 1 185 "1" s
           (fst (play_game 1 1 185 "1" s)) s').
  - apply surjective_pairing.
  - vm_compute. discriminate.
Defined.

Lemma wait_min fuel ticks completed s r s' :
  wait_for_energy fuel (S ticks) completed s = (r, s') ->
  clock s + 1 <= clock s'.
Proof.
  intros H. cbn [wait_for_energy] in H. cbv zeta in H.
  assert (forall x, quiet (after_sleep 1 s) x -> clock s + 1 <= clock x) as Q.
  { intros x [_ _ _ _ _ C _]. exact C. }
  run_as H u s1 E1.
  - apply sleep_run in E1. destruct E1 as [_ ->].
    apply Q. clear Q.
    destruct ((completed + 1) mod 300 =? 0).
    + assert (preserves quiet
                (updated <- update_energy fuel ;;
                 recharged <- (if updated then energy_gt0 else ret false) ;;
                 if recharged then print EnergyRecharged
                 else wait_for_energy fuel ticks (completed + 1))) as P.
      { pres quiet_refl quiet_trans;
          auto using quiet_update_energy, quiet_energy_gt0, quiet_print,
            quiet_wait_for_energy. }
      exact (P _ _ _ H).
    + eapply quiet_wait_for_energy; eauto.
  - inversion E1.
  - inversion E1.
Qed.

Lemma wait_lasts fuel s s' :
  wait_for_energy fuel (Z.to_nat max_wait) 0 s = (Ret tt, s') ->
  clock s + 300 <= clock s'.
Proof.
  intros H.
  assert (exists n, Z.to_nat max_wait = S n) as [n Hn]
      by (exists (Nat.pred (Z.to_nat max_wait)); vm_compute; reflexivity).
  pose proof H as H1. rewrite Hn in H1. apply wait_min in H1.
  apply (wait_run fuel (clock s)) in H; [ | lia | lia].
  destruct H as (_ & new & _ & _ & _ & Exit).
  destruct (Exit eq_refl) as [C | (older & _ & _ & Md)].
  - rewrite C, Z2Nat.id; unfold max_wait; lia.
  - pose proof (Z_div_mod_eq_full (clock s' - clock s) 300). lia.
Qed.

Lemma loop_body_time fuel score wait_time s s' :
  loop_body fuel score wait_time s = (Ret tt, s') ->
  clock s + 30 <= clock s'.
Proof.
  unfold loop_body. intros H.
  run_as H u1 s1 E1; try discriminate.
  apply quiet_update_energy in E1. destruct E1 as [_ _ _ _ _ C1 _].
  run_as H u2 s2 E2; try discriminate.
  apply quiet_update_display in E2. destruct E2 as [_ _ _ _ _ C2 _].
  run_as H depleted s3 E3; try discriminate.
  apply energy_le0_run in E3. destruct E3 as [-> _].
  run_as H skip s4 E4; try discriminate.
  assert (clock s2 <= clock s4 /\
          (skip = true -> clock s2 + 300 <= clock s4)) as [C4 Sk].
  { destruct depleted.
    - run_as E4 u5 s5 E5; try discriminate.
      inversion E5; subst u5 s5; clear E5.
      run_as E4 u6 s6 E6; try discriminate. destruct u6.
      apply wait_lasts in E6. cbn [clock with_log] in E6.
      apply energy_le0_run in E4. destruct E4 as [-> _]. lia.
    - inversion E4; subst. split; [lia | discriminate]. }
  destruct skip.
  - inversion H; subst. specialize (Sk eq_refl). lia.
  - run_as H won s5 E5; try discriminate.
    apply play_game_run in E5; [ | discriminate]. destruct E5 as [C5 _].
    destruct won.
    + apply quiet_cooldown in H. destruct H as [_ _ _ _ _ C6 _]. lia.
    + apply backoff_run in H. destruct H as [_ ->].
      cbn [backoff clock with_log with_clock]. lia.
Qed.

Lemma iteration_time fuel score wait_time s r s' :
  iteration fuel score wait_time s = (r, s') ->
  (r = Ret tt /\ clock s + 30 <= clock s') \/ r = Diverge.
Proof.
  unfold iteration. intros H. run_as H u s1 E.
  - subst r. destruct u. left. split; [reflexivity | ].
    eapply loop_body_time; eauto.
  - apply booked_loop_body in E. destruct E as [_ _ _ _ C _].
    apply backoff_run in H. destruct H as [-> ->]. left.
    split; [reflexivity | ]. cbn [backoff clock with_log with_clock]. lia.
  - now right.
Qed.

(** The bot is paced.  A pass through the loop that comes back has spent
    at least thirty seconds asleep, whatever the server answered and
    however the pass ended (a game and its pause, a wait for energy, or an
    error); so [n] passes take at least thirty times [n] seconds. *)
Theorem passes_take_time fuel draws :
  forall s r s',
    main_loop fuel draws s = (r, s') ->
    r <> Diverge ->
    r = Ret tt /\ clock s + 30 * Z.of_nat (List.length draws) <= clock s'.
Proof.
  unfold main_loop.
  induction draws as [| d draws IH]; intros s r s' H ND.
  - inversion H; subst. split; [reflexivity | cbn; lia].
  - cbn [for_each] in H. run_as H u s1 E.
    + apply iteration_time in E. destruct E as [[_ C] | E]; [ | discriminate].
      destruct (IH _ _ _ H ND) as [-> C2]. split; [reflexivity | ].
      cbn [List.length]. lia.
    + apply iteration_time in E. destruct E as [[E _] | E]; discriminate.
    + subst r. now elim ND.
Qed.

Lemma passes_take_time_witness :
  let s := running "tok" plain_server in
  let s' := snd (main_loop 1 [(185, 7%nat); (190, 5%nat)] s) in
  fst (main_loop 1 [(185, 7%nat); (190, 5%nat)] s) = Ret tt /\
  60 <= clock s'.
Proof.
  intros s s'.
  destruct (passes_take_time 1 [(185, 7%nat); (190, 5%nat)] s
              (fst (main_loop 1 [(185, 7%nat); (190, 5%nat)] s)) s')
    as [R C].
  - apply surjective_pairing.
  - vm_compute. discriminate.
  - split; [exact R | exact C].
Defined.

(** ** [main] comes back *)

Lemma safe_initialize_headers : safe _initialize_headers.
Proof. unfold _initialize_headers. safety. Qed.

Lemma init_returns fuel s d t r s' :
  (5 <= fuel)%nat ->
  token_file s = JsonText (PDict d) -> dict_get "token" d = Some t ->
  truthy t = true ->
  (forall k req v t',
      server s k req = Json v -> issued_token v = Some t' ->
      truthy t' = true) ->
  (forall k req,
      req_endpoint req = getToken -> server s k req <> HttpError 401) ->
  TokoplayAPI_init fuel s = (r, s') ->
  r <> Diverge /\ cooperative s'.
Proof.
  intros Hf F G T Iss Ex H. unfold TokoplayAPI_init in H.
  pose proof (load_token_result s) as L. rewrite F, G in L.
  destruct (_load_token s) as [r0 s0] eqn:E0. cbn [fst] in L. subst r0.
  pose proof (load_token_run _ _ _ E0) as X. subst s0.
  unfold bind at 1 in H. rewrite E0 in H.
  unfold bind at 1 in H. cbn [modify] in H.
  assert (safe (_initialize_headers ;;
                modify (with_stats init_stats) ;;
                update_energy fuel ;; ret tt)) as Sf.
  { safety; auto using safe_initialize_headers, safe_update_energy. }
  eapply Sf; [ | exact H].
  split; [split; [exact T | exact Iss] | exact Ex].
Qed.

(** With a token in the token file that Python takes for true, a server
    that does not answer the token exchange with a 401 and hands out no
    empty token, and room for five nested calls, [main] comes back from any
    number of passes through its loop, and comes back normally: whatever
    else the server answers, nothing runs away and nothing is raised. *)
Theorem main_comes_back fuel draws s d t :
  (5 <= fuel)%nat ->
  token_file s = JsonText (PDict d) -> dict_get "token" d = Some t ->
  truthy t = true ->
  (forall k req v t',
      server s k req = Json v -> issued_token v = Some t' ->
      truthy t' = true) ->
  (forall k req,
      req_endpoint req = getToken -> server s k req <> HttpError 401) ->
  fst (main fuel draws s) = Ret tt.
Proof.
  intros Hf F G T Iss Ex.
  destruct (main fuel draws s) as [r s'] eqn:H. cbn [fst].
  unfold main in H. run_as H u s1 E.
  - subst r. now destruct u.
  - inversion H. reflexivity.
  - exfalso. run_as E u s1 E1.
    + eapply init_returns in E1; eauto. destruct E1 as [_ C].
      eapply safe_main_loop in E; eauto. now destruct E.
    + discriminate.
    + eapply init_returns in E1; eauto. now destruct E1.
Qed.

Lemma main_comes_back_witness :
  fst (main 5 [(185, 7%nat)] plain_start) = Ret tt.
Proof.
  apply (main_comes_back 5 [(185, 7%nat)] plain_start
           [("token", PStr "tok")] (PStr "tok")).
  - lia.
  - reflexivity.
  - reflexivity.
  - reflexivity.
  - intros k req v t'. apply plain_server_tokens.
  - intros k req _. apply plain_server_no_401.
Defined.

(** ** The header and the token file follow the token *)

Lemma same_credentials_refl s : same_credentials s s.
Proof. repeat split. Qed.

Lemma same_credentials_trans a b c :
  same_credentials a b -> same_credentials b c -> same_credentials a c.
Proof. unfold same_credentials. intuition congruence. Qed.

Lemma sc_emit ev : preserves same_credentials (emit ev).
Proof. apply preserves_modify. intros s. repeat split. Qed.

Lemma sc_print m : preserves same_credentials (print m).
Proof. apply sc_emit. Qed.

Lemma sc_exchange method e payload :
  preserves same_credentials (exchange method e payload).
Proof.
  intros s r s' H. rewrite exchange_eq in H. inversion H. repeat split.
Qed.

Lemma sc_send method e params data :
  preserves same_credentials (send method e params data).
Proof.
  unfold send.
  destruct (String.eqb (lower method) "get"); [apply sc_exchange | ].
  destruct (String.eqb (lower method) "post"); [apply sc_exchange | ].
  apply preserves_raise, same_credentials_refl.
Qed.

Lemma sc_sleep n : preserves same_credentials (sleep n).
Proof. intros s r s' H. inversion H. repeat split. Qed.

Lemma sc_update_display : preserves same_credentials update_display.
Proof. intros s r s' H. inversion H. repeat split. Qed.

Lemma sc_energy_le0 : preserves same_credentials energy_le0.
Proof.
  intros s r s' H. apply energy_le0_run in H. destruct H as [-> _].
  apply same_credentials_refl.
Qed.

Lemma sc_energy_gt0 : preserves same_credentials energy_gt0.
Proof.
  intros s r s' H. apply energy_gt0_run in H. destruct H as [-> _].
  apply same_credentials_refl.
Qed.

Lemma sc_book_result v score multiplier :
  preserves same_credentials (book_result v score multiplier).
Proof.
  intros s r s' H. apply book_result_run in H.
  destruct H as [(T & A & _ & F & W & _) _]. repeat split; auto.
Qed.

Section Invariant.
Variable P : Client -> Prop.
Hypothesis P_frame : forall s s', same_credentials s s' -> P s -> P s'.
Hypothesis P_installed : forall t s, P s -> P (installed t s).

Lemma keeps_refl s : keeps P s s.
Proof. intros H. exact H. Qed.

Lemma keeps_trans a b c : keeps P a b -> keeps P b c -> keeps P a c.
Proof. unfold keeps. auto. Qed.

Lemma keeps_same {A} (c : M A) :
  preserves same_credentials c -> preserves (keeps P) c.
Proof.
  apply preserves_weaken. intros s s' H Hp. eapply P_frame; eauto.
Qed.

Lemma keeps_install_token v : preserves (keeps P) (install_token v).
Proof.
  intros s r s' H. destruct (issued_token v) as [t | ] eqn:I.
  - rewrite (install_token_issued v t s I) in H. inversion H.
    intros Hp. now apply P_installed.
  - destruct (install_token_none v s I) as (r0 & R & _).
    rewrite R in H. inversion H. apply keeps_refl.
Qed.

Lemma keeps_gateway fuel :
  preserves (keeps P) (update_token fuel) /\
  (forall method e params data retry_count,
      preserves (keeps P) (_request fuel method e params data retry_count)).
Proof.
  induction fuel as [| fuel [IHu IHr]].
  - split; intros; apply preserves_diverge, keeps_refl.
  - split.
    + rewrite update_token_S.
      pres keeps_refl keeps_trans;
        try apply IHr; try apply keeps_install_token;
        apply keeps_same, sc_emit.
    + intros method e params data rc. cbn [_request].
      pres keeps_refl keeps_trans;
        try apply IHr; try apply IHu;
        apply keeps_same; try apply sc_emit; apply sc_send.
Qed.

Lemma keeps_update_energy fuel : preserves (keeps P) (update_energy fuel).
Proof.
  unfold update_energy.
  pres keeps_refl keeps_trans; try apply keeps_gateway;
    apply keeps_same; try apply sc_emit.
  apply preserves_modify. intros s. repeat split.
Qed.

Lemma keeps_wait_for_energy fuel ticks :
  forall completed, preserves (keeps P) (wait_for_energy fuel ticks completed).
Proof.
  induction ticks as [| ticks IH]; intros completed; cbn [wait_for_energy].
  - apply preserves_ret, keeps_refl.
  - pres keeps_refl keeps_trans;
      try apply IH; try apply keeps_update_energy;
      apply keeps_same;
      auto using sc_sleep, sc_energy_gt0, sc_emit, sc_print.
Qed.

Lemma keeps_play_game fuel game_id score multiplier :
  preserves (keeps P) (play_game fuel game_id score multiplier).
Proof.
  unfold play_game, playtime, submit.
  pres keeps_refl keeps_trans;
    try apply keeps_update_energy; try apply keeps_gateway;
    apply keeps_same;
    auto using sc_sleep, sc_update_display, sc_emit, sc_print, sc_book_result.
Qed.

Lemma keeps_iteration fuel score wait_time :
  preserves (keeps P) (iteration fuel score wait_time).
Proof.
  unfold iteration, loop_body, cooldown.
  pres keeps_refl keeps_trans;
    try apply keeps_update_energy; try apply keeps_wait_for_energy;
    try apply keeps_play_game;
    apply keeps_same;
    auto using sc_sleep, sc_update_display, sc_emit, sc_print, sc_energy_le0.
Qed.

Lemma keeps_main_loop fuel draws : preserves (keeps P) (main_loop fuel draws).
Proof.
  unfold main_loop. pres keeps_refl keeps_trans. apply keeps_iteration.
Qed.
End Invariant.

Lemma in_sync_frame s s' : same_credentials s s' -> in_sync s -> in_sync s'.
Proof. unfold in_sync. intros (-> & -> & _). auto. Qed.

Lemma in_sync_installed t s : in_sync s -> in_sync (installed t s).
Proof.
  intros _. unfold in_sync, installed.
  destruct (token_file_writable s); reflexivity.
Qed.

Lemma in_sync_initialize_headers s r s' :
  _initialize_headers s = (r, s') -> in_sync s'.
Proof.
  unfold _initialize_headers, bind, gets, modify, in_sync.
  destruct (truthy (token s)) eqn:T; intros H; inversion H; cbn; auto.
Qed.

Lemma in_sync_init fuel s r s' :
  in_sync s -> TokoplayAPI_init fuel s = (r, s') -> in_sync s'.
Proof.
  intros I H. unfold TokoplayAPI_init in H.
  run_as H tok s0 E0;
    try (apply load_token_run in E0; subst; exact I).
  run_as H u1 s1 E1; try discriminate.
  run_as H u2 s2 E2.
  - apply in_sync_initialize_headers in E2.
    assert (preserves (keeps in_sync)
              (modify (with_stats init_stats) ;;
               update_energy fuel ;; ret tt)) as K.
    { pres (keeps_refl in_sync) (keeps_trans in_sync).
      - apply preserves_modify. intros x Hx. exact Hx.
      - apply (keeps_update_energy in_sync in_sync_frame in_sync_installed). }
    eapply K; eauto.
  - subst. eapply in_sync_initialize_headers; eauto.
  - subst. eapply in_sync_initialize_headers; eauto.
Qed.

(** The authorization header follows the token.  If the header agrees
    with the token held before a call (it is the token, or is absent when
    the token is one Python takes for false), it agrees after it: after a
    call of the gateway, a token refresh, an energy refresh, any number of
    passes through the loop, and after [main], whose construction of the
    client sets the header from the token it loaded. *)
Theorem header_follows_token fuel s :
  in_sync s ->
  (forall method e params data rc,
      in_sync (snd (_request fuel method e params data rc s))) /\
  in_sync (snd (update_token fuel s)) /\
  in_sync (snd (update_energy fuel s)) /\
  (forall draws, in_sync (snd (main_loop fuel draws s))) /\
  (forall draws, in_sync (snd (main fuel draws s))).
Proof.
  intros I.
  pose proof (keeps_gateway in_sync in_sync_frame in_sync_installed fuel)
    as [Ku Kr].
  split; [ | split; [ | split; [ | split]]].
  - intros method e params data rc.
    eapply Kr; [apply surjective_pairing | exact I].
  - eapply Ku; [apply surjective_pairing | exact I].
  - eapply (keeps_update_energy in_sync in_sync_frame in_sync_installed);
      [apply surjective_pairing | exact I].
  - intros draws.
    eapply (keeps_main_loop in_sync in_sync_frame in_sync_installed);
      [apply surjective_pairing | exact I].
  - intros draws.
    destruct (main fuel draws s) as [r s'] eqn:H. cbn [snd].
    unfold main in H.
    assert (forall r1 s1,
               (TokoplayAPI_init fuel ;; main_loop fuel draws) s = (r1, s1) ->
               in_sync s1) as B.
    { intros r1 s1 E. run_as E u s2 E1.
      - eapply (keeps_main_loop in_sync in_sync_frame in_sync_installed);
          [exact E | ]. eapply in_sync_init; eauto.
      - subst. eapply in_sync_init; eauto.
      - subst. eapply in_sync_init; eauto. }
    run_as H u s1 E.
    + subst. eapply B; eauto.
    + inversion H. apply B in E. exact E.
    + subst. eapply B; eauto.
Qed.

Lemma header_follows_token_witness :
  let s' := snd (update_energy 5 (running "stale" renewing_server)) in
  in_sync s' /\ token s' = PStr "fresh".
Proof.
  intros s'.
  destruct (header_follows_token 5 (running "stale" renewing_server))
    as (_ & _ & E & _).
  - reflexivity.
  - split; [exact E | vm_compute; reflexivity].
Defined.

Lemma file_in_sync_frame s s' :
  same_credentials s s' -> file_in_sync s -> file_in_sync s'.
Proof. unfold file_in_sync. intros (-> & _ & -> & ->). auto. Qed.

Lemma file_in_sync_installed t s :
  file_in_sync s -> file_in_sync (installed t s).
Proof.
  intros _. unfold file_in_sync, installed.
  destruct (token_file_writable s) eqn:W; cbn; [reflexivity | ].
  rewrite W. discriminate.
Qed.

(** The token file follows the token.  If the token file, where it can be
    written, holds exactly the token the client holds, it still does after
    a call of the gateway, a token refresh, an energy refresh and any
    number of passes through the loop: the token is replaced and stored in
    the same step, and nothing else writes either. *)
Theorem file_follows_token fuel s :
  file_in_sync s ->
  (forall method e params data rc,
      file_in_sync (snd (_request fuel method e params data rc s))) /\
  file_in_sync (snd (update_token fuel s)) /\
  file_in_sync (snd (update_energy fuel s)) /\
  (forall draws, file_in_sync (snd (main_loop fuel draws s))).
Proof.
  intros I.
  pose proof (keeps_gateway file_in_sync file_in_sync_frame
                file_in_sync_installed fuel) as [Ku Kr].
  split; [ | split; [ | split]].
  - intros method e params data rc.
    eapply Kr; [apply surjective_pairing | exact I].
  - eapply Ku; [apply surjective_pairing | exact I].
  - eapply (keeps_update_energy file_in_sync file_in_sync_frame
              file_in_sync_installed);
      [apply surjective_pairing | exact I].
  - intros draws.
    eapply (keeps_main_loop file_in_sync file_in_sync_frame
              file_in_sync_installed);
      [apply surjective_pairing | exact I].
Qed.

Lemma file_follows_token_witness :
  let s' := snd (update_energy 5 (running "stale" renewing_server)) in
  file_in_sync s' /\ token_file s' = stored_token "fresh".
Proof.
  intros s'.
  destruct (file_follows_token 5 (running "stale" renewing_server))
    as (_ & _ & E & _).
  - intros _. reflexivity.
  - split; [exact E | vm_compute; reflexivity].
Defined.

(** ** An accepted game *)

(** What [play_game] books when the gateway hands back an answer whose
    status is "OK".  With a "data" object in the answer the game is
    counted, score and multiplier are noted, the energy is taken from the
    answer (kept when the answer reports none), the score is added to the
    points, the completion is announced and the result is True.  Without a
    "data" member the game is counted and noted, energy and points stay,
    and the result is True.  With a "data" member that is not an object
    the game is counted and noted as well, and then the AttributeError of
    [.get] leaves [play_game]: energy and points stay and no result is
    returned. *)
Theorem accepted_game_is_booked fuel game_id score multiplier s v s1 :
  _request fuel "post" playGameGetReward None
    (Some (submit_payload (user_id s) game_id score multiplier)) 0 s
  = (Ret v, s1) ->
  ok_body v = true ->
  submit fuel game_id score multiplier s
  = match data_of v with
    | Some (PDict d) =>
        (Ret true,
         with_log (Print (GameCompleted score) :: log s1)
           (with_stats (credited_stats d score multiplier (stats s)) s1))
    | None =>
        (Ret true, with_stats (played score multiplier (stats s)) s1)
    | Some _ =>
        (Raise AttributeError,
         with_stats (played score multiplier (stats s)) s1)
    end.
Proof.
  intros R Ok. unfold submit, bind at 1 2. cbn [gets]. rewrite R.
  apply gw_request in R. destruct R as [_ St _ _ _ _ _ _].
  unfold book_result, bind at 1. rewrite (status_is_OK_ok v s1 Ok).
  apply ok_body_dict in Ok. destruct v as [ | | | | | dd]; try discriminate.
  unfold has_data, data_of, credited_stats, played.
  rewrite <- St.
  destruct (dict_get "data" dd) as [[ | | | | | d] | ] eqn:D;
    unfold bind, modify, gets, py_getitem, print, emit, modify; cbn;
    rewrite ?D; cbn; try reflexivity.
Qed.

Lemma accepted_game_is_booked_witness :
  let s := running "tok" plain_server in
  fst (submit 1 1 185 "1" s) = Ret true /\
  stats (snd (submit 1 1 185 "1" s))
  = mkStats (PInt 4) 1 (Some 185) (Some "1") 185 None.
Proof.
  intros s.
  rewrite (accepted_game_is_booked 1 1 185 "1" s (energy_body 4)
             (snd (_request 1 "post" playGameGetReward None
                     (Some (submit_payload (user_id s) 1 185 "1")) 0 s))).
  - split; reflexivity.
  - vm_compute. reflexivity.
  - reflexivity.
Defined.

(** ** Where the retry counter counts *)

Lemma refused_step fuel method e params data rc s :
  data_txt s = None -> supported method -> rc < 3 ->
  (forall k req, server s k req = HttpError 401) ->
  exists s1,
    _request (S (S fuel)) method e params data rc s
    = _request (S fuel) method e params data (rc + 1) s1 /\
    data_txt s1 = None /\ server s1 = server s /\
    sent s1 = S (sent s) /\ token s1 = token s /\
    authorization s1 = authorization s /\ clock s1 = clock s /\
    stats s1 = stats s /\ token_file s1 = token_file s.
Proof.
  intros D Hm Hrc Srv.
  assert (U : forall x,
             data_txt x = None ->
             update_token (S fuel) x
             = (Ret false,
                with_log (Print (TokenUpdateFailed FileNotFoundError)
                          :: Opened "data.txt" :: log x) x)).
  { intros x Dx. rewrite update_token_S.
    unfold try_except, bind at 1 2 3.
    cbn [emit modify gets data_txt with_log]. rewrite Dx. reflexivity. }
  assert (X : forall x,
             data_txt x = None ->
             (forall k req, server x k req = HttpError 401) ->
             exists s1,
               try_except
                 (send method e params data)
                 (fun ex =>
                    match ex with
                    | HTTPError status_code =>
                        if status_code =? 401 then
                          update_token (S fuel) ;;
                          _request (S fuel) method e params data (rc + 1)
                        else
                          print (HttpErrorMsg status_code) ;; ret PNone
                    | _ => print (RequestErrorMsg ex) ;; ret PNone
                    end) x
               = _request (S fuel) method e params data (rc + 1) s1 /\
               data_txt s1 = None /\ server s1 = server x /\
               sent s1 = S (sent x) /\ token s1 = token x /\
               authorization s1 = authorization x /\ clock s1 = clock x /\
               stats s1 = stats x /\ token_file s1 = token_file x).
  { intros x Dx Sx. unfold try_except.
    rewrite send_supported, exchange_eq by assumption.
    unfold answer. rewrite Sx. cbn [Z.eqb Pos.eqb]. unfold bind at 1.
    rewrite U by exact Dx.
    eexists. split; [reflexivity | ]. repeat split. exact Dx. }
  cbn [_request]. destruct (Z.leb_spec 3 rc); [lia | ].
  unfold bind at 1. cbn [gets].
  destruct (truthy (token s)); cbn [negb].
  - unfold bind at 1. cbn [ret]. apply X; assumption.
  - unfold bind at 1 2. rewrite U by exact D. cbn [ret].
    destruct (X (with_log (Print (TokenUpdateFailed FileNotFoundError)
                           :: Opened "data.txt" :: log s) s) D Srv)
      as (s1 & E & F).
    exists s1. split; [exact E | exact F].
Qed.

(** Where the token cannot be refreshed, the retry counter does its work.
    Without a readable [data.txt] every refresh fails before it sends
    anything, so against a server that answers 401 to everything a call
    makes exactly three requests, gives up with the message about the
    maximum of retries and returns None; the token, the header, the token
    file, the statistics and the clock are as before. *)
Theorem gives_up_after_three fuel method e params data s :
  data_txt s = None -> supported method ->
  (forall k req, server s k req = HttpError 401) ->
  exists s',
    _request (4 + fuel) method e params data 0 s = (Ret PNone, s') /\
    sent s' = (3 + sent s)%nat /\
    hd_error (log s') = Some (Print MaxRetries) /\
    untouched s s' /\ clock s' = clock s.
Proof.
  intros D Hm Srv.
  destruct (refused_step (2 + fuel) method e params data 0 s D Hm)
    as (s1 & E1 & D1 & V1 & N1 & T1 & A1 & C1 & St1 & F1); [lia | exact Srv | ].
  rewrite <- V1 in Srv.
  destruct (refused_step (1 + fuel) method e params data 1 s1 D1 Hm)
    as (s2 & E2 & D2 & V2 & N2 & T2 & A2 & C2 & St2 & F2); [lia | exact Srv | ].
  rewrite <- V2 in Srv.
  destruct (refused_step fuel method e params data 2 s2 D2 Hm)
    as (s3 & E3 & D3 & V3 & N3 & T3 & A3 & C3 & St3 & F3); [lia | exact Srv | ].
  exists (with_log (Print MaxRetries :: log s3) s3).
  split; [ | split; [ | split; [ | split]]].
  - change (4 + fuel)%nat with (S (S (2 + fuel))). rewrite E1.
    change (S (2 + fuel)) with (S (S (1 + fuel))).
    change (0 + 1) with 1. rewrite E2.
    change (S (1 + fuel)) with (S (S fuel)).
    change (1 + 1) with 2. rewrite E3.
    change (2 + 1) with 3. apply request_max. lia.
  - cbn [sent with_log]. lia.
  - reflexivity.
  - unfold untouched. cbn [token authorization token_file stats with_log].
    repeat split; congruence.
  - cbn [clock with_log]. congruence.
Qed.

Lemma gives_up_after_three_witness :
  let s := process_start (PInt 7) Missing true None rejecting_server in
  exists s',
    _request 4 "get" getUserGameInfo (energy_params (PInt 7)) None 0 s
    = (Ret PNone, s') /\
    sent s' = 3%nat /\
    hd_error (log s') = Some (Print MaxRetries) /\
    untouched s s' /\ clock s' = 0.
Proof.
  intros s.
  apply (gives_up_after_three 0 "get" getUserGameInfo
           (energy_params (PInt 7)) None s).
  - reflexivity.
  - now left.
  - reflexivity.
Defined.
